(** * Context routing and style analysis of the communication assistant

    A shallow embedding of [src/model/context_router.py] and
    [src/model/style_analyzer.py].

    Conventions of the embedding:
    - a Python [str] is the list of its Unicode code points;
    - a Python [float] is an exact rational ([Q]) in [ContextRouter] and
      [CommunicationStyleAnalyzer]: a decimal literal of the source stands
      for its decimal value, and rounding is not part of these two modules.
      What depends on the rounding of the scores is stated on
      [ContextRouter64] and [CommunicationStyleAnalyzer64], where a [float]
      is a binary64 number and every operation rounds as the interpreter
      does;
    - a dictionary that is iterated is an association list in insertion
      order; a dictionary with a fixed set of possible keys is a record
      whose optional keys are [option] fields;
    - a raised exception is the [Raise] case of [result];
    - [str.lower] is a parameter of each development (a section variable):
      nothing is assumed of it except, where stated, that it maps the empty
      string to the empty string. *)

From Stdlib Require Import List ZArith NArith QArith Qminmax Qabs String Ascii Bool Lia Lqa Permutation Sorted.
From Stdlib Require Import Floats Uint63.
Import ListNotations.

Set Implicit Arguments.

(** ** Python values and built-ins *)

Module Py.

(** A string is its sequence of code points. *)
Definition str := list N.

(** Decoder for the UTF-8 bytes of a literal of this file. *)
Fixpoint utf8_decode (bs : list N) (acc : N) (pending : nat) : str :=
  match bs with
  | [] => []
  | b :: rest =>
      if (b <? 128)%N then b :: utf8_decode rest 0%N 0%nat
      else if (b <? 192)%N then
        let acc' := (acc * 64 + (b - 128))%N in
        match pending with
        | O => utf8_decode rest 0%N 0%nat
        | S O => acc' :: utf8_decode rest 0%N 0%nat
        | S p => utf8_decode rest acc' p
        end
      else if (b <? 224)%N then utf8_decode rest (b - 192)%N 1%nat
      else if (b <? 240)%N then utf8_decode rest (b - 224)%N 2%nat
      else utf8_decode rest (b - 240)%N 3%nat
  end.

(** [u "text"] is the Python string written ["text"] in the source. *)
Definition u (s : string) : str :=
  utf8_decode (List.map N_of_ascii (list_ascii_of_string s)) 0%N 0%nat.

(** [a == b] on strings. *)
Fixpoint str_eqb (a b : str) : bool :=
  match a, b with
  | [], [] => true
  | x :: a', y :: b' => (x =? y)%N && str_eqb a' b'
  | _, _ => false
  end.

(** [s.startswith(p)]. *)
Fixpoint startswith (p s : str) : bool :=
  match p, s with
  | [], _ => true
  | x :: p', y :: s' => (x =? y)%N && startswith p' s'
  | _ :: _, [] => false
  end.

(** [needle in hay] for strings: substring containment. *)
Fixpoint contains (needle hay : str) : bool :=
  startswith needle hay ||
  match hay with
  | [] => false
  | _ :: t => contains needle t
  end.

(** [x in l] for a list of strings. *)
Definition mem (x : str) (l : list str) : bool := existsb (str_eqb x) l.

(** [s.count(c)] for a one-character [c]. *)
Definition count_char (c : N) (s : str) : nat :=
  List.length (filter (N.eqb c) s).

(** The code points [str.split()] treats as white space. *)
Definition isspace (c : N) : bool :=
  ((9 <=? c) && (c <=? 13) || (28 <=? c) && (c <=? 32) || (c =? 133) || (c =? 160)
   || (c =? 5760) || (8192 <=? c) && (c <=? 8202) || (c =? 8232) || (c =? 8233)
   || (c =? 8239) || (c =? 8287) || (c =? 12288))%N.

(** [s.split()]: the maximal runs of non-space characters, [cur] being the
    run under construction, in reverse. *)
Fixpoint split_from (s : str) (cur : str) : list str :=
  match s with
  | [] => match cur with [] => [] | _ => [rev cur] end
  | c :: t =>
      if isspace c
      then match cur with [] => split_from t [] | _ => rev cur :: split_from t [] end
      else split_from t (c :: cur)
  end.

Definition split (s : str) : list str := split_from s [].

(** [lower_char] and [py_lower]: [str.lower] on Basic Latin, Latin-1 and the
    Cyrillic block, the identity elsewhere.  It is the instance at which the
    developments below are run on concrete messages. *)
Definition lower_char (c : N) : N :=
  if ((65 <=? c) && (c <=? 90))%N then (c + 32)%N
  else if ((192 <=? c) && (c <=? 222) && negb (c =? 215))%N then (c + 32)%N
  else if ((1040 <=? c) && (c <=? 1071))%N then (c + 32)%N
  else if ((1024 <=? c) && (c <=? 1039))%N then (c + 80)%N
  else c.

Definition py_lower (s : str) : str := List.map lower_char s.

(** Exceptions and results. *)
Inductive exn : Type :=
| KeyError (key : str)
| ZeroDivisionError.

Inductive result (A : Type) : Type :=
| Ok (a : A)
| Raise (e : exn).

Arguments Ok {A} a.
Arguments Raise {A} e.

Definition bind {A B : Type} (r : result A) (k : A -> result B) : result B :=
  match r with
  | Ok a => k a
  | Raise e => Raise e
  end.

(** [d[key]] on an association list: [KeyError] when the key is absent. *)
Fixpoint getitem {V : Type} (d : list (str * V)) (key : str) : result V :=
  match d with
  | [] => Raise (KeyError key)
  | (k, v) :: t => if str_eqb key k then Ok v else getitem t key
  end.

(** [d.get(key)]. *)
Fixpoint get {V : Type} (d : list (str * V)) (key : str) : option V :=
  match d with
  | [] => None
  | (k, v) :: t => if str_eqb key k then Some v else get t key
  end.

(** [a / b] on numbers. *)
Definition truediv (a b : Q) : result Q :=
  if Qeq_bool b 0 then Raise ZeroDivisionError else Ok (a / b)%Q.

(** [a < b] and [a > b] on numbers. *)
Definition Qltb (a b : Q) : bool :=
  match (a ?= b)%Q with Lt => true | _ => false end.

(** [sorted(l, key=..., reverse=True)]: a stable sort in descending order;
    [gt y x] says that the key of [y] is strictly greater than that of [x].
    An element is inserted in front of the sorted rest of the list, behind
    the elements whose key is strictly greater. *)
Fixpoint insert_desc {A : Type} (gt : A -> A -> bool) (x : A) (l : list A) : list A :=
  match l with
  | [] => [x]
  | y :: t => if gt y x then y :: insert_desc gt x t else x :: y :: t
  end.

Definition sorted_desc {A : Type} (gt : A -> A -> bool) (l : list A) : list A :=
  fold_right (insert_desc gt) [] l.

(** [collections.Counter(l)]: the elements in order of first occurrence,
    each with its number of occurrences. *)
Fixpoint counter_add (x : str) (c : list (str * nat)) : list (str * nat) :=
  match c with
  | [] => [(x, 1%nat)]
  | (y, n) :: t => if str_eqb x y then (y, S n) :: t else (y, n) :: counter_add x t
  end.

Definition Counter (l : list str) : list (str * nat) :=
  fold_left (fun c x => counter_add x c) l [].

(** [c.most_common(n)]: the [n] first entries by descending count, entries
    of equal count in order of first occurrence. *)
Definition most_common (n : nat) (c : list (str * nat)) : list (str * nat) :=
  firstn n (sorted_desc (fun y x => Nat.ltb (snd x) (snd y)) c).

(** [l.count(x)] for a list of strings. *)
Definition occurrences (x : str) (l : list str) : nat :=
  List.length (filter (str_eqb x) l).

(** [l[-n:]]. *)
Definition last_n {A : Type} (n : nat) (l : list A) : list A :=
  skipn (List.length l - n) l.

End Py.

Export Py.

Declare Scope py_scope.
Notation "x <- e ;; k" := (bind e (fun x => k))
  (at level 61, e at next level, right associativity) : py_scope.
Open Scope py_scope.

(** [sum(1 for x in l if f x)]. *)
Definition count_if {A : Type} (f : A -> bool) (l : list A) : Z :=
  fold_left (fun acc x => if f x then (acc + 1)%Z else acc) l 0%Z.

(** [len(l)] as a number. *)
Definition len {A : Type} (l : list A) : Z := Z.of_nat (List.length l).

(** The emoji pattern of both classes: one code point of four fixed ranges. *)
Definition emoji_pattern (c : N) : bool :=
  ((128512 <=? c) && (c <=? 128591) || (127744 <=? c) && (c <=? 128511)
   || (128640 <=? c) && (c <=? 128767) || (127462 <=? c) && (c <=? 127487))%N.

(** ** [context_router.py] *)

Module ContextRouter.

(** The value of one entry of [context_rules]; only ['keywords'] is read
    with [rules['keywords']], the other keys with [rules.get]. *)
Record Rules : Type := {
  keywords : list str;
  avoid_keywords : option (list str);
  emojis : option (list str);
  time_preference : option (list str);
  typical_length : option str;
  emoji_limit : option Z
}.

Record Weights : Type := {
  keyword_match : Q;
  dialog_history : Q;
  time_of_day : Q;
  user_preferences : Q
}.

(** [self.weights]. *)
Definition weights : Weights :=
  {| keyword_match := 0.4; dialog_history := 0.3; time_of_day := 0.1; user_preferences := 0.2 |}.

(** [self.weights.values()]. *)
Definition weights_values : list Q :=
  [keyword_match weights; dialog_history weights; time_of_day weights; user_preferences weights].

(** [sum(l)]. *)
Definition sum (l : list Q) : Q := fold_left Qplus l 0.

Definition professional : str := u "professional".
Definition family : str := u "family".
Definition romantic : str := u "romantic".
Definition friendly : str := u "friendly".
Definition creative : str := u "creative".

Definition professional_rules : Rules :=
  {| keywords := List.map u ["работа"; "проект"; "задача"; "встреча"; "коллега";
                             "начальник"; "дедлайн"; "отчет"; "презентация"; "бизнес"]%string;
     avoid_keywords := Some (List.map u ["люблю"; "обнимаю"; "целую"; "ха-ха"]%string);
     emojis := None;
     time_preference := Some (List.map u ["morning"; "afternoon"]%string);
     typical_length := Some (u "medium");
     emoji_limit := Some 1%Z |}.

Definition family_rules : Rules :=
  {| keywords := List.map u ["мама"; "папа"; "родители"; "брат"; "сестра";
                             "семья"; "родные"; "дети"; "внуки"; "бабушка"; "дедушка"]%string;
     avoid_keywords := Some (List.map u ["уважаемый"; "коллега"; "протокол"]%string);
     emojis := None;
     time_preference := Some (List.map u ["evening"; "weekend"]%string);
     typical_length := Some (u "short");
     emoji_limit := Some 3%Z |}.

Definition romantic_rules : Rules :=
  {| keywords := List.map u ["люблю"; "обожаю"; "дорогой"; "милый"; "любимый";
                             "романтика"; "отношения"; "чувства"; "сердце"; "поцелуй"]%string;
     avoid_keywords := None;
     emojis := Some (List.map u ["❤️"; "💕"; "😘"; "💋"; "😍"; "🥰"]%string);
     time_preference := Some (List.map u ["evening"; "night"]%string);
     typical_length := Some (u "medium");
     emoji_limit := Some 2%Z |}.

Definition friendly_rules : Rules :=
  {| keywords := List.map u ["друг"; "подруга"; "приятель"; "тусовка"; "встреча";
                             "кафе"; "кино"; "прогулка"; "вечеринка"]%string;
     avoid_keywords := None;
     emojis := Some (List.map u ["😊"; "😂"; "😎"; "👍"; "👋"]%string);
     time_preference := Some (List.map u ["afternoon"; "evening"]%string);
     typical_length := Some (u "short");
     emoji_limit := Some 3%Z |}.

Definition creative_rules : Rules :=
  {| keywords := List.map u ["идея"; "творчество"; "вдохновение"; "проект"; "искусство";
                             "музыка"; "рисунок"; "писать"; "создавать"; "креатив"]%string;
     avoid_keywords := None;
     emojis := None;
     time_preference := Some (List.map u ["night"; "flexible"]%string);
     typical_length := Some (u "long");
     emoji_limit := Some 2%Z |}.

(** The rule table [self.context_rules] that [__init__] builds. *)
Definition _build_context_rules : list (str * Rules) :=
  [ (professional, professional_rules);
    (family, family_rules);
    (romantic, romantic_rules);
    (friendly, friendly_rules);
    (creative, creative_rules) ].

(** The optional argument [time_info]. *)
Record TimeInfo : Type := {
  hour : option Z;
  weekday : option Z;
  is_holiday : option bool
}.

(** The optional argument [user_preferences]. *)
Record Preferences : Type := {
  pref_fav_contexts : option (list str);
  pref_avoid_contexts : option (list str);
  communication_style : option str
}.

(** The dictionary [_analyze_message] returns on a non-empty message. *)
Record MessageAnalysis : Type := {
  length : Z;
  has_questions : bool;
  has_exclamations : bool;
  emoji_count : Z;
  has_context_keywords : bool;
  detected_keyword : option str;
  detected_context : option str
}.

(** The dictionary [_analyze_history] returns: empty, or both keys. *)
Record HistoryAnalysis : Type := {
  recent_context : option str;
  context_frequency : option Q
}.

Definition no_history : HistoryAnalysis :=
  {| recent_context := None; context_frequency := None |}.

(** The dictionary [_analyze_time] returns. *)
Record TimeAnalysis : Type := {
  current_period : option str;
  ta_hour : option Z;
  ta_weekday : option Z;
  is_weekend : option bool;
  period_adjustment : option str;
  ta_is_holiday : option bool
}.

Definition no_time : TimeAnalysis :=
  {| current_period := None; ta_hour := None; ta_weekday := None;
     is_weekend := None; period_adjustment := None; ta_is_holiday := None |}.

(** The dictionary [_analyze_preferences] returns. *)
Record PreferencesAnalysis : Type := {
  fav_contexts : option (list str);
  avoid_contexts : option (list str);
  style : option str
}.

Definition no_preferences : PreferencesAnalysis :=
  {| fav_contexts := None; avoid_contexts := None; style := None |}.

(** The dictionary [_generate_suggestions] returns. *)
Record Suggestions : Type := {
  tone : str;
  s_length : str;
  s_emoji_limit : Z;
  key_phrases : list str;
  avoid : list str;
  response_type : option str
}.

Record ContextRoute : Type := {
  primary_context : str;
  secondary_contexts : list str;
  confidence : Q;
  reasoning : str;
  suggestions : Suggestions
}.

(** [sep.join(parts)]. *)
Fixpoint join (sep : str) (parts : list str) : str :=
  match parts with
  | [] => []
  | [p] => p
  | p :: rest => p ++ sep ++ join sep rest
  end.

(** Truth value of a dictionary argument: it has a key. *)
Definition time_info_nonempty (t : TimeInfo) : bool :=
  match hour t, weekday t, is_holiday t with
  | None, None, None => false
  | _, _, _ => true
  end.

Definition preferences_nonempty (p : Preferences) : bool :=
  match pref_fav_contexts p, pref_avoid_contexts p, communication_style p with
  | None, None, None => false
  | _, _, _ => true
  end.

(** [key=lambda x: x[1], reverse=True] on (context, score) pairs. *)
Definition score_gt (y x : str * Q) : bool := Qltb (snd x) (snd y).

Section Router.

(** [str.lower] and the router's rule table [self.context_rules]. *)
Variable lower : str -> str.
Variable context_rules : list (str * Rules).

(** [_calculate_keyword_score]. *)
Definition _calculate_keyword_score (message : str) (keywords : list str) : Q :=
  match message, keywords with
  | [], _ => 0.0
  | _, [] => 0.0
  | _, _ =>
      let text_lower := lower message in
      let matches := count_if (fun keyword => contains keyword text_lower) keywords in
      Qmin (inject_Z matches * 0.3) 1.0
  end.

(** [_calculate_avoid_score]. *)
Definition _calculate_avoid_score (message : str) (avoid_words : list str) : Q :=
  match message, avoid_words with
  | [], _ => 0.0
  | _, [] => 0.0
  | _, _ =>
      let text_lower := lower message in
      let matches := count_if (fun word => contains word text_lower) avoid_words in
      Qmin (inject_Z matches * 0.2) 1.0
  end.

(** [_count_emojis]: the matches of the one-character emoji pattern. *)
Definition _count_emojis (text : str) : Z := len (filter emoji_pattern text).

(** The two nested loops of [_analyze_message]: the first context of the
    table with a keyword in the text, and its first such keyword. *)
Fixpoint first_context_keyword (rules : list (str * Rules)) (text_lower : str)
  : option (str * str) :=
  match rules with
  | [] => None
  | (context_name, r) :: rest =>
      match find (fun keyword => contains keyword text_lower) (keywords r) with
      | Some keyword => Some (keyword, context_name)
      | None => first_context_keyword rest text_lower
      end
  end.

(** [_analyze_message]; [None] is the empty dictionary. *)
Definition _analyze_message (message : str) : option MessageAnalysis :=
  match message with
  | [] => None
  | _ =>
      let text_lower := lower message in
      let found := first_context_keyword context_rules text_lower in
      Some {| length := len (split message);
              has_questions := contains (u "?") message;
              has_exclamations := contains (u "!") message;
              emoji_count := _count_emojis message;
              has_context_keywords := match found with Some _ => true | None => false end;
              detected_keyword := option_map fst found;
              detected_context := option_map snd found |}
  end.

(** The contexts one message of the history adds to [recent_contexts]:
    every context one of whose keywords the message contains ([break] leaves
    the keyword loop only). *)
Definition contexts_of_message (msg : str) : list str :=
  flat_map (fun cr : str * Rules =>
              if existsb (fun keyword => contains keyword (lower msg)) (keywords (snd cr))
              then [fst cr] else [])
           context_rules.

(** [_analyze_history]. *)
Definition _analyze_history (history : list str) : result HistoryAnalysis :=
  match history with
  | [] => Ok no_history
  | _ =>
      let recent_messages :=
        if (5 <? List.length history)%nat then last_n 5 history else history in
      let recent_contexts := flat_map contexts_of_message recent_messages in
      match recent_contexts with
      | [] => Ok no_history
      | _ =>
          match most_common 1 (Counter recent_contexts) with
          | most_common_0 :: _ =>
              f <- truediv (inject_Z (Z.of_nat (snd most_common_0)))
                           (inject_Z (len recent_messages)) ;;
              Ok {| recent_context := Some (fst most_common_0);
                    context_frequency := Some f |}
          | [] => Ok no_history
          end
      end
  end.

(** [_analyze_time]. *)
Definition _analyze_time (time_info : TimeInfo) : TimeAnalysis :=
  match hour time_info with
  | None => no_time
  | Some h =>
      let period :=
        if ((6 <=? h) && (h <? 12))%Z then u "morning"
        else if ((12 <=? h) && (h <? 18))%Z then u "afternoon"
        else if ((18 <=? h) && (h <? 23))%Z then u "evening"
        else u "night" in
      let weekend := match weekday time_info with
                     | Some wd => (5 <=? wd)%Z
                     | None => false
                     end in
      let holiday := match is_holiday time_info with
                     | Some true => true
                     | _ => false
                     end in
      {| current_period := Some period;
         ta_hour := Some h;
         ta_weekday := weekday time_info;
         is_weekend := if weekend then Some true else None;
         period_adjustment :=
           if holiday then Some (u "festive")
           else if weekend then Some (u "more_casual") else None;
         ta_is_holiday := if holiday then Some true else None |}
  end.

(** [_analyze_preferences]. *)
Definition _analyze_preferences (preferences : Preferences) : PreferencesAnalysis :=
  {| fav_contexts := pref_fav_contexts preferences;
     avoid_contexts := pref_avoid_contexts preferences;
     style := communication_style preferences |}.

(** [d.get(key)] of an optional analysis followed by a truth test. *)
Definition flag (ma : option MessageAnalysis) (f : MessageAnalysis -> bool) : bool :=
  match ma with
  | Some a => f a
  | None => false
  end.

(** [_suggest_tone]. *)
Definition tones : list (str * str) :=
  [ (professional, u "formal_respectful");
    (family, u "warm_caring");
    (romantic, u "tender_affectionate");
    (friendly, u "casual_friendly");
    (creative, u "expressive_inspirational") ].

Definition _suggest_tone (context : str) (message_analysis : option MessageAnalysis) : str :=
  let base_tone := match get tones context with
                   | Some t => t
                   | None => u "neutral"
                   end in
  if flag message_analysis has_exclamations && mem context [friendly; creative]
  then u "enthusiastic_" ++ base_tone
  else base_tone.

(** [_suggest_key_phrases]. *)
Definition phrases : list (str * list str) :=
  [ (professional, List.map u ["Благодарю за сообщение"; "Предлагаю рассмотреть";
                               "Согласовано"; "Прошу уточнить"]%string);
    (family, List.map u ["Привет, как дела?"; "Обнимаю крепко"; "Целую";
                         "Скучаю по вам"]%string);
    (romantic, List.map u ["Привет, мой дорогой"; "Скучаю по тебе"; "Люблю тебя";
                           "Ты у меня самый лучший"]%string);
    (friendly, List.map u ["Привет!"; "Как дела?"; "Что нового?"; "Давай встретимся"]%string);
    (creative, List.map u ["Интересная мысль!"; "Вдохновляюще"; "Креативный подход";
                           "Продолжаем творить"]%string) ].

Definition _suggest_key_phrases (context : str) : list str :=
  match get phrases context with
  | Some p => p
  | None => List.map u ["Привет!"; "Как дела?"]%string
  end.

(** [_generate_suggestions]; of [all_factors] it reads the time analysis. *)
Definition _generate_suggestions (context : str) (message_analysis : option MessageAnalysis)
    (time_analysis : TimeAnalysis) : Suggestions :=
  let rules := get context_rules context in
  let from_rules {A : Type} (f : Rules -> option A) (default : A) : A :=
    match rules with
    | Some r => match f r with Some v => v | None => default end
    | None => default
    end in
  let tone0 := _suggest_tone context message_analysis in
  let night :=
    match current_period time_analysis with
    | Some period => str_eqb period (u "night") && negb (str_eqb context professional)
    | None => false
    end in
  {| tone := if night then u "more_relaxed" else tone0;
     s_length := from_rules typical_length (u "medium");
     s_emoji_limit := from_rules emoji_limit 2%Z;
     key_phrases := _suggest_key_phrases context;
     avoid := firstn 3 (from_rules avoid_keywords []);
     response_type :=
       if flag message_analysis has_questions then Some (u "answer")
       else if flag message_analysis has_exclamations then Some (u "reaction")
       else None |}.

(** The body of the scoring loop of [route_context] for one entry of the
    rule table. *)
Definition context_score (message : str) (history_analysis : HistoryAnalysis)
    (time_analysis : TimeAnalysis) (preferences_analysis : PreferencesAnalysis)
    (context_name : str) (rules : Rules) : Q :=
  let score := 0.0 in
  let keyword_score := _calculate_keyword_score message (keywords rules) in
  let score := score + keyword_score * keyword_match weights in
  let score :=
    match recent_context history_analysis with
    | Some rc => if str_eqb rc context_name then score + 0.3 * dialog_history weights else score
    | None => score
    end in
  let score :=
    match current_period time_analysis with
    | Some period =>
        if mem period (match time_preference rules with Some l => l | None => [] end)
        then score + 0.2 * time_of_day weights else score
    | None => score
    end in
  let score :=
    match fav_contexts preferences_analysis with
    | Some fav => if mem context_name fav then score + 0.3 * user_preferences weights else score
    | None => score
    end in
  let avoid_score :=
    _calculate_avoid_score message
      (match avoid_keywords rules with Some l => l | None => [] end) in
  score - avoid_score * 0.2.

(** [context_scores] after the loop, in the order of the rule table. *)
Definition context_scores (message : str) (history_analysis : HistoryAnalysis)
    (time_analysis : TimeAnalysis) (preferences_analysis : PreferencesAnalysis)
  : list (str * Q) :=
  List.map (fun cr : str * Rules =>
              (fst cr, context_score message history_analysis time_analysis
                         preferences_analysis (fst cr) (snd cr)))
           context_rules.

(** The analyses of the three optional arguments, each empty when the
    argument is [None] or empty. *)
Definition history_analysis_of (dialog_history : option (list str)) : result HistoryAnalysis :=
  match dialog_history with
  | Some (m :: h) => _analyze_history (m :: h)
  | _ => Ok no_history
  end.

Definition time_analysis_of (time_info : option TimeInfo) : TimeAnalysis :=
  match time_info with
  | Some t => if time_info_nonempty t then _analyze_time t else no_time
  | None => no_time
  end.

Definition preferences_analysis_of (user_preferences : option Preferences) : PreferencesAnalysis :=
  match user_preferences with
  | Some p => if preferences_nonempty p then _analyze_preferences p else no_preferences
  | None => no_preferences
  end.

(** [route_context]. *)
Definition route_context (message : str) (dialog_history : option (list str))
    (user_preferences : option Preferences) (time_info : option TimeInfo)
  : result ContextRoute :=
  let message_analysis := _analyze_message message in
  history_analysis <- history_analysis_of dialog_history ;;
  let time_analysis := time_analysis_of time_info in
  let preferences_analysis := preferences_analysis_of user_preferences in
  let sorted_contexts :=
    sorted_desc score_gt
      (context_scores message history_analysis time_analysis preferences_analysis) in
  chosen <- match sorted_contexts with
            | [] => Ok (friendly, 0.5)
            | (primary_context, primary_score) :: _ =>
                let max_possible_score := sum weights_values in
                c <- truediv primary_score max_possible_score ;;
                Ok (primary_context, Qmin c 1.0)
            end ;;
  let primary_context := fst chosen in
  let confidence := snd chosen in
  let secondary_contexts :=
    match sorted_contexts with
    | (_, primary_score) :: (second_context, second_score) :: _ =>
        if Qltb (Qabs (primary_score - second_score)) 0.1 then [second_context] else []
    | _ => []
    end in
  let suggestions := _generate_suggestions primary_context message_analysis time_analysis in
  let part1 :=
    if flag message_analysis has_context_keywords
    then [u "Обнаружены ключевые слова контекста"] else [] in
  let part2 :=
    match recent_context history_analysis with
    | Some rc => if str_eqb rc primary_context
                 then [u "Совпадает с недавним контекстом диалога"] else []
    | None => []
    end in
  primary_rules <- getitem context_rules primary_context ;;
  let part3 :=
    match current_period time_analysis with
    | Some period =>
        if mem period (match time_preference primary_rules with Some l => l | None => [] end)
        then [u "Подходит для текущего времени суток"] else []
    | None => []
    end in
  let reasoning_parts := part1 ++ part2 ++ part3 in
  let reasoning :=
    match reasoning_parts with
    | [] => u "Определено по общим признакам"
    | _ => join (u "; ") reasoning_parts
    end in
  Ok {| primary_context := primary_context;
        secondary_contexts := secondary_contexts;
        confidence := confidence;
        reasoning := reasoning;
        suggestions := suggestions |}.

(** The compatibility table of [validate_context_switch]. *)
Definition compatibility : list (str * list str) :=
  [ (professional, [friendly; creative]);
    (family, [friendly; romantic]);
    (romantic, [family; friendly]);
    (friendly, [professional; family; romantic; creative]);
    (creative, [professional; friendly]) ].

(** The loop over [self.context_rules.keys()] for one message of the
    history; [self.context_rules[ctx]] is the entry the key came from. *)
Definition recent_contexts_of (msgs : list str) : list str :=
  flat_map contexts_of_message msgs.

(** [validate_context_switch]. *)
Definition validate_context_switch (current_context proposed_context : str)
    (dialog_history : list str) : bool * str :=
  if str_eqb current_context proposed_context then (true, u "Тот же контекст")
  else
    let allowed := match get compatibility current_context with
                   | Some l => l
                   | None => []
                   end in
    if negb (mem proposed_context allowed)
    then (false, u "Резкий переход с " ++ current_context ++ u " на " ++ proposed_context)
    else
      if match dialog_history with [] => false | _ => (3 <? List.length dialog_history)%nat end
         && mem proposed_context (recent_contexts_of (last_n 3 dialog_history))
      then (true, u "Плавный переход на основе истории")
      else (true, u "Переход разрешен").

End Router.

(** *** The notions the specification words its properties with *)

Section Specification.

Variable lower : str -> str.

(** The number of the words of [kws] that occur in the message as a
    substring, case-insensitively; a word counts once, however often it
    occurs. *)
Definition matched_count (message : str) (kws : list str) : Z :=
  Z.of_nat (List.length (filter (fun kw => contains kw (lower message)) kws)).

(** The score of the specification for a call without history, time and
    preferences: [0.4 * keyword_score - 0.2 * avoid_score]. *)
Definition spec_score (message : str) (rules : Rules) : Q :=
  0.4 * Qmin (0.3 * inject_Z (matched_count message (keywords rules))) 1
  - 0.2 * Qmin (0.2 * inject_Z
                        (matched_count message
                           (match avoid_keywords rules with Some l => l | None => [] end))) 1.

(** The message contains one of the words, case-insensitively. *)
Definition mentions (message : str) (kws : list str) : bool :=
  existsb (fun kw => contains kw (lower message)) kws.

(** A keyword of the context [proposed] of the table occurs in one of the
    last three entries of the history. *)
Definition keyword_in_last_three (context_rules : list (str * Rules)) (proposed : str)
    (history : list str) : bool :=
  match get context_rules proposed with
  | Some rules => existsb (fun msg => mentions msg (keywords rules)) (last_n 3 history)
  | None => false
  end.

End Specification.

End ContextRouter.

(** ** [style_analyzer.py] *)

Module CommunicationStyleAnalyzer.

(** The value of one entry of [context_patterns]. *)
Record Patterns : Type := {
  formality_words : list str;
  emotional_words : list str;
  humor_words : list str;
  typical_length : str;
  common_endings : list str
}.

(** [_load_context_patterns], the table [self.context_patterns]. *)
Definition _load_context_patterns : list (str * Patterns) :=
  [ (u "professional",
     {| formality_words := List.map u ["уважаемый"; "коллега"; "прошу"; "предлагаю";
                                       "согласовано"]%string;
        emotional_words := [];
        humor_words := [];
        typical_length := u "medium";
        common_endings := List.map u ["С уважением"; "Благодарю";
                                      "С наилучшими пожеланиями"]%string |});
    (u "family",
     {| formality_words := [];
        emotional_words := List.map u ["люблю"; "обнимаю"; "целую"; "скучаю"]%string;
        humor_words := List.map u ["ха-ха"; "смешно"; "прикол"]%string;
        typical_length := u "short";
        common_endings := List.map u ["Целую"; "Обнимаю"; "Люблю"]%string |});
    (u "romantic",
     {| formality_words := [];
        emotional_words := List.map u ["люблю"; "обожаю"; "нежный"; "романтик";
                                       "мечта"]%string;
        humor_words := [];
        typical_length := u "medium";
        common_endings := List.map u ["Целую"; "Обнимаю"; "Твой/Твоя"]%string |});
    (u "friendly",
     {| formality_words := [];
        emotional_words := List.map u ["класс"; "отлично"; "супер"; "круто"]%string;
        humor_words := List.map u ["лол"; "кек"; "ржака"; "прикол"]%string;
        typical_length := u "short";
        common_endings := List.map u ["Пока"; "До связи"; "Удачи"]%string |});
    (u "creative",
     {| formality_words := [];
        emotional_words := List.map u ["вдохновение"; "креатив"; "творчество"]%string;
        humor_words := List.map u ["ирония"; "сарказм"; "шутка"]%string;
        typical_length := u "long";
        common_endings := List.map u ["Творческих успехов"; "Вдохновения"]%string |}) ].

(** [self.stop_words]. *)
Definition stop_words : list str :=
  List.map u ["это"; "как"; "так"; "и"; "в"; "над"; "к"; "до"; "не"; "на";
              "но"; "за"; "то"; "с"; "ли"; "а"; "во"; "от"; "со"; "для"; "о"]%string.

(** The dictionary [characteristics] of [analyze_context]. *)
Record Characteristics : Type := {
  formality : Q;
  emotionality : Q;
  humor_level : Q;
  emoji_frequency : Q;
  message_length : str;
  contains_questions : bool;
  contains_exclamations : bool;
  word_count : Z
}.

(** The dictionary [_suggest_response_style] returns. *)
Record ResponseStyle : Type := {
  tone : str;
  emoji_limit : Z;
  length : str;
  key_phrases : list str
}.

(** The dictionary [analyze_context] returns.  On empty text it has the keys
    ['detected_context'], ['confidence'] and ['suggested_contexts']; otherwise
    ['detected_context'], ['confidence'], ['characteristics'] and
    ['suggested_responses'].  A key that is absent is [None]. *)
Record Analysis : Type := {
  detected_context : str;
  confidence : Q;
  suggested_contexts : option (list str);
  characteristics : option Characteristics;
  suggested_responses : option ResponseStyle
}.

(** The averages [extract_style_signature] computes: one per key of
    [characteristics] whose value is an [int] or a [float]; a [bool] is an
    [int], so the two flags are averaged as 0 and 1. *)
Record AvgCharacteristics : Type := {
  avg_formality : Q;
  avg_emotionality : Q;
  avg_humor_level : Q;
  avg_emoji_frequency : Q;
  avg_contains_questions : Q;
  avg_contains_exclamations : Q;
  avg_word_count : Q
}.

(** The dictionary [extract_style_signature] returns on a non-empty corpus.
    Its key ['common_words'] (the regular-expression tokens of
    [_extract_common_words]) is not part of the model: it is computed from
    the messages alone and no other key depends on it. *)
Record StyleSignature : Type := {
  context : str;
  avg_characteristics : AvgCharacteristics;
  common_phrases : list str;
  message_count : Z;
  style_description : str
}.

(** [max(d.items(), key=lambda x: x[1])]: the first entry whose value no
    later entry exceeds. *)
Fixpoint max_from (best : str * Q) (l : list (str * Q)) : str * Q :=
  match l with
  | [] => best
  | x :: t => if Qltb (snd best) (snd x) then max_from x t else max_from best t
  end.

(** The loops [for word in words: if word in text: score += step]. *)
Definition add_matches (text : str) (step : Q) (words : list str) (score : Q) : Q :=
  fold_left (fun s word => if contains word text then s + step else s) words score.

(** [numpy.mean] of a list of numbers. *)
Definition mean (values : list Q) : Q :=
  fold_left Qplus values 0 / inject_Z (len values).

Definition bool_value (b : bool) : Q := if b then 1 else 0.

(** The adjacent pairs [' '.join(words[i:i + 2])] for [i] in
    [range(len(words) - 1)]. *)
Fixpoint two_word_phrases (words : list str) : list str :=
  match words with
  | a :: (b :: _) as rest => (a ++ u " " ++ b) :: two_word_phrases rest
  | _ => []
  end.

(** [mapM]: a loop that stops at the first exception. *)
Fixpoint for_each {A B : Type} (f : A -> result B) (l : list A) : result (list B) :=
  match l with
  | [] => Ok []
  | x :: t => y <- f x ;; ys <- for_each f t ;; Ok (y :: ys)
  end.

Section Analyzer.

Variable lower : str -> str.

(** [_is_work_related], [_is_family_related], [_is_romantic_related]. *)
Definition _is_work_related (text : str) : bool :=
  let work_keywords := List.map u ["работа"; "проект"; "задача"; "встреча"; "коллега";
                                   "начальник"; "дедлайн"; "отчет"; "презентация"]%string in
  existsb (fun keyword => contains keyword (lower text)) work_keywords.

Definition _is_family_related (text : str) : bool :=
  let family_keywords := List.map u ["мама"; "папа"; "родители"; "брат"; "сестра";
                                     "семья"; "родные"; "дети"; "внуки"]%string in
  existsb (fun keyword => contains keyword (lower text)) family_keywords.

Definition _is_romantic_related (text : str) : bool :=
  let romantic_keywords := List.map u ["люблю"; "обожаю"; "дорогой"; "милый"; "любимый";
                                       "романтика"; "отношения"; "чувства"; "сердце"]%string in
  let romantic_emojis := List.map u ["❤️"; "💕"; "😘"; "💋"; "😍"]%string in
  let has_keywords := existsb (fun keyword => contains keyword (lower text)) romantic_keywords in
  let has_emojis := existsb (fun emoji => contains emoji text) romantic_emojis in
  has_keywords || has_emojis.

(** [_calculate_formality]. *)
Definition _calculate_formality (text : str) : result Q :=
  let formal_words := List.map u ["уважаемый"; "прошу"; "предлагаю"; "согласовано"; "документ";
                                  "договор"; "сотрудничество"; "официально"]%string in
  let words := split (lower text) in
  match words with
  | [] => Ok 0.0
  | _ =>
      let formal_count := count_if (fun word => mem word formal_words) words in
      r <- truediv (inject_Z formal_count) (inject_Z (len words)) ;;
      Ok (Qmin (r * 3) 1.0)
  end.

(** [_calculate_emotionality]. *)
Definition _calculate_emotionality (text : str) : result Q :=
  let emotional_words := List.map u ["люблю"; "обожаю"; "ненавижу"; "злюсь"; "радуюсь";
                                     "грущу"; "волнуюсь"; "беспокоюсь"; "восхищаюсь"]%string in
  let emotional_emojis := List.map u ["❤️"; "😍"; "😢"; "😂"; "😡"; "🥰"; "😭"]%string in
  let score := 0.0 in
  let words := split (lower text) in
  score <- match words with
           | [] => Ok score
           | _ =>
               let emotional_word_count :=
                 count_if (fun word => mem word emotional_words) words in
               r <- truediv (inject_Z emotional_word_count) (inject_Z (len words)) ;;
               Ok (score + r * 2)
           end ;;
  let emoji_count := count_if (fun emoji => contains emoji text) emotional_emojis in
  let score := score + inject_Z emoji_count * 0.1 in
  let exclamation_count := Z.of_nat (count_char 33%N text) in
  let score := score + Qmin (inject_Z exclamation_count * 0.05) 0.3 in
  Ok (Qmin score 1.0).

(** [_calculate_humor_level]. *)
Definition _calculate_humor_level (text : str) : Q :=
  let humor_indicators := List.map u ["ха-ха"; "хе-хе"; "лол"; "кек"; "смешно"; "прикол";
                                      "шутка"; "юмор"; "анекдот"; "😂"; "🤣"; "😄"]%string in
  Qmin (add_matches (lower text) 0.2 humor_indicators 0.0) 1.0.

(** [_calculate_emoji_frequency]. *)
Definition _calculate_emoji_frequency (text : str) : result Q :=
  let emojis := filter emoji_pattern text in
  match text with
  | [] => Ok 0.0
  | _ =>
      r <- truediv (inject_Z (len emojis)) (inject_Z (len text)) ;;
      Ok (Qmin (r * 100) 1.0)
  end.

(** [_classify_length]. *)
Definition _classify_length (text : str) : str :=
  let word_count := len (split text) in
  if (word_count <? 5)%Z then u "short"
  else if (word_count <? 20)%Z then u "medium"
  else u "long".

(** [_suggest_response_style]. *)
Definition response_styles : list (str * ResponseStyle) :=
  [ (u "professional",
     {| tone := u "formal"; emoji_limit := 0%Z; length := u "medium";
        key_phrases := List.map u ["Благодарю"; "Согласовано"; "Предлагаю";
                                   "Прошу рассмотреть"]%string |});
    (u "family",
     {| tone := u "warm"; emoji_limit := 3%Z; length := u "short";
        key_phrases := List.map u ["Целую"; "Обнимаю"; "Люблю"; "Скучаю"]%string |});
    (u "romantic",
     {| tone := u "tender"; emoji_limit := 2%Z; length := u "medium";
        key_phrases := List.map u ["Милый"; "Дорогой"; "Люблю"; "Скучаю по тебе"]%string |});
    (u "friendly",
     {| tone := u "casual"; emoji_limit := 3%Z; length := u "short";
        key_phrases := List.map u ["Привет"; "Как дела"; "Что нового";
                                   "Давай созвонимся"]%string |});
    (u "creative",
     {| tone := u "expressive"; emoji_limit := 2%Z; length := u "long";
        key_phrases := List.map u ["Интересно"; "Креативно"; "Вдохновляюще";
                                   "Творчески"]%string |}) ].

Definition _suggest_response_style (context : str) (characteristics : Characteristics)
  : result ResponseStyle :=
  friendly_style <- getitem response_styles (u "friendly") ;;
  let base_suggestion := match get response_styles context with
                         | Some s => s
                         | None => friendly_style
                         end in
  let adapted_tone :=
    if Qltb 0.7 (emotionality characteristics) then u "emotional"
    else if Qltb 0.7 (formality characteristics) then u "very_formal"
    else tone base_suggestion in
  let adapted_emoji_limit :=
    if Qltb 0.5 (emoji_frequency characteristics)
    then Z.min (emoji_limit base_suggestion + 2) 5
    else emoji_limit base_suggestion in
  Ok {| tone := adapted_tone;
        emoji_limit := adapted_emoji_limit;
        length := length base_suggestion;
        key_phrases := key_phrases base_suggestion |}.

(** The score of one context in the automatic detection of [analyze_context]. *)
Definition pattern_score (text_lower : str) (patterns : Patterns) : Q :=
  let score := 0.0 in
  let score := add_matches text_lower 0.3 (formality_words patterns) score in
  let score := add_matches text_lower 0.2 (emotional_words patterns) score in
  add_matches text_lower 0.2 (humor_words patterns) score.

(** [analyze_context]. *)
Definition analyze_context (text : str) (dialog_context : option str) : result Analysis :=
  match text with
  | [] =>
      Ok {| detected_context := u "unknown";
            confidence := 0.0;
            suggested_contexts := Some [];
            characteristics := None;
            suggested_responses := None |}
  | _ =>
      let text_lower := lower text in
      let context_patterns := _load_context_patterns in
      let known :=
        match dialog_context with
        | Some (c :: dc) =>
            match get context_patterns (c :: dc) with
            | Some _ => Some (c :: dc)
            | None => None
            end
        | _ => None
        end in
      let primary_context :=
        match known with
        | Some dc => dc
        | None =>
            let context_scores :=
              List.map (fun cp : str * Patterns => (fst cp, pattern_score text_lower (snd cp)))
                       context_patterns in
            match context_scores with
            | first :: rest => fst (max_from first rest)
            | [] => u "friendly"
            end
        end in
      let primary_context :=
        if _is_work_related text then u "professional"
        else if _is_family_related text then u "family"
        else if _is_romantic_related text then u "romantic"
        else primary_context in
      formality <- _calculate_formality text ;;
      emotionality <- _calculate_emotionality text ;;
      let humor_level := _calculate_humor_level text in
      emoji_frequency <- _calculate_emoji_frequency text ;;
      let characteristics :=
        {| formality := formality;
           emotionality := emotionality;
           humor_level := humor_level;
           emoji_frequency := emoji_frequency;
           message_length := _classify_length text;
           contains_questions := contains (u "?") text;
           contains_exclamations := contains (u "!") text;
           word_count := len (split text) |} in
      suggested <- _suggest_response_style primary_context characteristics ;;
      Ok {| detected_context := primary_context;
            confidence := 0.8;
            suggested_contexts := None;
            characteristics := Some characteristics;
            suggested_responses := Some suggested |}
  end.

(** [_extract_common_phrases]. *)
Definition message_phrases (msg : str) : list str :=
  filter (fun phrase => (5 <? List.length phrase)%nat && negb (mem phrase stop_words))
         (two_word_phrases (split (lower msg))).

Definition _extract_common_phrases (messages : list str) : list str :=
  let phrases := flat_map message_phrases messages in
  let phrase_counts := Counter phrases in
  List.map fst (filter (fun pc => (1 <? snd pc)%nat) (most_common 10 phrase_counts)).

(** [_describe_style]; an absent average counts as 0. *)
Definition _describe_style (characteristics : option AvgCharacteristics) : str :=
  match characteristics with
  | None => u "Неизвестный стиль"
  | Some ch =>
      let d1 := if Qltb 0.7 (avg_formality ch) then u "формальный"
                else if Qltb 0.3 (avg_formality ch) then u "умеренно формальный"
                else u "неформальный" in
      let d2 := if Qltb 0.7 (avg_emotionality ch) then u "эмоциональный"
                else if Qltb 0.3 (avg_emotionality ch) then u "умеренно эмоциональный"
                else u "сдержанный" in
      let d3 := if Qltb 15 (avg_word_count ch) then u "развернутый"
                else if Qltb 5 (avg_word_count ch) then u "умеренный по длине"
                else u "лаконичный" in
      d1 ++ u ", " ++ d2 ++ u ", " ++ d3
  end.

(** [analysis['characteristics']]. *)
Definition characteristics_of (analysis : Analysis) : result Characteristics :=
  match characteristics analysis with
  | Some ch => Ok ch
  | None => Raise (KeyError (u "characteristics"))
  end.

(** [extract_style_signature]; [None] is the empty dictionary. *)
Definition extract_style_signature (messages : list str) (context : str)
  : result (option StyleSignature) :=
  match messages with
  | [] => Ok None
  | _ =>
      all_characteristics <-
        for_each (fun msg => analysis <- analyze_context msg (Some context) ;;
                             characteristics_of analysis) messages ;;
      let avg_of (f : Characteristics -> Q) := mean (List.map f all_characteristics) in
      let avg :=
        {| avg_formality := avg_of formality;
           avg_emotionality := avg_of emotionality;
           avg_humor_level := avg_of humor_level;
           avg_emoji_frequency := avg_of emoji_frequency;
           avg_contains_questions := avg_of (fun ch => bool_value (contains_questions ch));
           avg_contains_exclamations := avg_of (fun ch => bool_value (contains_exclamations ch));
           avg_word_count := avg_of (fun ch => inject_Z (word_count ch)) |} in
      let common_phrases := _extract_common_phrases messages in
      Ok (Some {| context := context;
                  avg_characteristics := avg;
                  common_phrases := firstn 5 common_phrases;
                  message_count := len messages;
                  style_description := _describe_style (Some avg) |})
  end.

End Analyzer.

(** *** The notions the specification words its properties with *)

(** The category overrides, in their fixed priority: work, family,
    romantic; otherwise the known or scored context [base] is kept. *)
Definition overridden (lower : str -> str) (text : str) (base : str) : str :=
  if _is_work_related lower text then u "professional"
  else if _is_family_related lower text then u "family"
  else if _is_romantic_related lower text then u "romantic"
  else base.


(** The phrases among [candidates] that occur at least twice, most
    frequent first. *)
Definition ranked_phrases (candidates : list str) : list str :=
  List.map fst
    (sorted_desc (fun y x => Nat.ltb (snd x) (snd y))
       (filter (fun pc => (2 <=? snd pc)%nat) (Counter candidates))).

(** The adjacent two-word phrases of the corpus. *)
Definition corpus_phrases (lower : str -> str) (messages : list str) : list str :=
  flat_map (fun msg => two_word_phrases (split (lower msg))) messages.

(** The ten most frequent adjacent two-word phrases of the corpus among
    those that occur at least twice. *)
Definition spec_common_phrases (lower : str -> str) (messages : list str) : list str :=
  firstn 10 (ranked_phrases (corpus_phrases lower messages)).

(** The adjacent two-word phrases of more than five characters. *)
Definition long_corpus_phrases (lower : str -> str) (messages : list str) : list str :=
  flat_map (fun msg => filter (fun phrase => (5 <? List.length phrase)%nat)
                              (two_word_phrases (split (lower msg))))
           messages.

End CommunicationStyleAnalyzer.

(** * The rest of the two classes *)

(** ** [context_router.py]: [suggest_multiple_contexts] *)

Module ContextRouterRest.

Import ContextRouter.

(** One dictionary of the list [suggest_multiple_contexts] returns. *)
Record ContextSuggestion : Type := {
  context : str;
  score : Q;
  matched_keywords : list str;
  description : str
}.

(** [_get_context_description]. *)
Definition descriptions : list (str * str) :=
  [ (professional, u "Деловое, формальное общение");
    (family, u "Семейное, неформальное общение");
    (romantic, u "Романтическое общение");
    (friendly, u "Дружеское общение");
    (creative, u "Креативное, творческое общение") ].

Definition _get_context_description (context : str) : str :=
  match get descriptions context with
  | Some d => d
  | None => u "Общее общение"
  end.

(** [l[:n]] for an integer [n]: a negative [n] counts from the end. *)
Definition slice_to {A : Type} (n : Z) (l : list A) : list A :=
  if (0 <=? n)%Z then firstn (Z.to_nat n) l
  else firstn (List.length l - Z.to_nat (- n)) l.

(** [key=lambda x: x['score'], reverse=True]. *)
Definition suggestion_gt (y x : ContextSuggestion) : bool := Qltb (score x) (score y).

Section Suggest.

Variable lower : str -> str.
Variable context_rules : list (str * Rules).

(** The keyword loop: 0.3 is added and the keyword recorded for every
    keyword found in the lower-cased message. *)
Definition keyword_pass (text_lower : str) (keywords : list str) : Q * list str :=
  fold_left (fun (acc : Q * list str) keyword =>
               if contains keyword text_lower
               then (fst acc + 0.3, snd acc ++ [keyword])
               else acc)
            keywords (0.0, []).

(** The emoji loop: 0.2 is added for every emoji found in the message as
    it is written. *)
Definition emoji_pass (message : str) (emojis : list str) (score : Q) : Q :=
  fold_left (fun s emoji => if contains emoji message then s + 0.2 else s) emojis score.

(** The body of the loop over the rule table. *)
Definition suggestion_of (message text_lower : str) (cr : str * Rules)
  : list ContextSuggestion :=
  let context_name := fst cr in
  let rules := snd cr in
  let kp := keyword_pass text_lower (keywords rules) in
  let score :=
    match emojis rules with
    | Some es => emoji_pass message es (fst kp)
    | None => fst kp
    end in
  if Qltb 0 score
  then [{| context := context_name;
           score := score;
           matched_keywords := firstn 3 (snd kp);
           description := _get_context_description context_name |}]
  else [].

(** [suggest_multiple_contexts]. *)
Definition suggest_multiple_contexts (message : str) (num_suggestions : Z)
  : list ContextSuggestion :=
  match message with
  | [] => []
  | _ =>
      let text_lower := lower message in
      let suggestions := flat_map (suggestion_of message text_lower) context_rules in
      slice_to num_suggestions (sorted_desc suggestion_gt suggestions)
  end.

End Suggest.

End ContextRouterRest.

(** ** [style_analyzer.py]: [_extract_common_words] *)

Module StyleAnalyzerRest.

Import CommunicationStyleAnalyzer.

(** The character class [[а-яё]]. *)
Definition cyrillic_lower (c : N) : bool :=
  ((1072 <=? c) && (c <=? 1103) || (c =? 1105))%N.

(** The number of leading characters of the class: how far the greedy
    [{3,}] first runs. *)
Fixpoint class_run (s : str) : nat :=
  match s with
  | c :: t => if cyrillic_lower c then S (class_run t) else O
  | [] => O
  end.

(** [str.isalnum] on ASCII, Latin-1 and Cyrillic letters and digits: the
    instance at which the tokenizer is run on concrete messages. *)
Definition py_isalnum (c : N) : bool :=
  ((48 <=? c) && (c <=? 57) || (65 <=? c) && (c <=? 90) || (97 <=? c) && (c <=? 122)
   || (192 <=? c) && (c <=? 255) && negb (c =? 215) && negb (c =? 247)
   || (1024 <=? c) && (c <=? 1153) || (1162 <=? c) && (c <=? 1327))%N.

Section Words.

Variable lower : str -> str.

(** [str.isalnum] of one character; with the underscore it makes the word
    characters [\w] of a regular expression. *)
Variable isalnum : N -> bool.

Definition word_char (c : N) : bool := isalnum c || (c =? 95)%N.

Definition word_char_at (c : option N) : bool :=
  match c with
  | Some c => word_char c
  | None => false
  end.

(** [\b] between the character [prev] (none at the start) and the rest [s]
    of the text: exactly one side is a word character. *)
Definition boundary (prev : option N) (s : str) : bool :=
  xorb (word_char_at prev) (word_char_at (hd_error s)).

(** The backtracking of [[а-яё]{3,}\b]: the lengths [k], [k - 1], ... down
    to 3 are tried until [\b] holds behind the match. *)
Fixpoint backtrack (s : str) (k : nat) : option nat :=
  match k with
  | O => None
  | S k' =>
      if (3 <=? k)%nat && boundary (nth_error s k') (skipn k s)
      then Some k else backtrack s k'
  end.

(** The match of [\b[а-яё]{3,}\b] at the start of [s], if any: its length. *)
Definition match_here (prev : option N) (s : str) : option nat :=
  if boundary prev s then backtrack s (class_run s) else None.

(** [re.findall]: the non-overlapping matches from left to right; [skip]
    is the number of characters still inside the last match. *)
Fixpoint findall_from (prev : option N) (s : str) (skip : nat) : list str :=
  match s with
  | [] => []
  | c :: t =>
      match skip with
      | S k => findall_from (Some c) t k
      | O =>
          match match_here prev s with
          | Some n => firstn n s :: findall_from (Some c) t (n - 1)
          | None => findall_from (Some c) t O
          end
      end
  end.

Definition findall (s : str) : list str := findall_from None s O.

(** The words one message contributes. *)
Definition message_words (msg : str) : list str :=
  filter (fun word => negb (mem word stop_words)) (findall (lower msg)).

(** [_extract_common_words]. *)
Definition _extract_common_words (messages : list str) : list str :=
  let all_words := flat_map message_words messages in
  let word_counts := Counter all_words in
  List.map fst (most_common 20 word_counts).

End Words.

End StyleAnalyzerRest.

(** * The two classes in binary64 arithmetic *)

(** ** Python floats *)

(** CPython's [float] is the IEEE 754 binary64 format with rounding to
    nearest, ties to even: the primitive type [float]. A decimal literal
    denotes the nearest binary64 number, in Python as here. *)
Module Float64.

#[local] Set Warnings "-inexact-float".
Local Open Scope float_scope.

(** [min(a, b)] on two numbers: [b] when [b < a], else [a]. *)
Definition py_min (a b : float) : float := if b <? a then b else a.

(** The conversion of an [int] operand of a mixed operation; exact for the
    non-negative integers below [2 ^ 53]. *)
Definition of_int (n : Z) : float := of_uint63 (Uint63.of_Z n).

(** [a / b] on floats: a zero divisor, of either sign, raises. *)
Definition truediv (a b : float) : result float :=
  if b =? 0 then Raise ZeroDivisionError else Ok (a / b).

(** [a / b] on two integers: the quotient as a float; for operands below
    [2 ^ 53] it is the quotient of the two floats. A zero divisor raises. *)
Definition int_truediv (a b : Z) : result float :=
  if (b =? 0)%Z then Raise ZeroDivisionError else Ok (of_int a / of_int b).

(** [sum(l)]: the additions from left to right, starting from the integer
    0. (Interpreters that sum floats with a compensation term return the
    same 1.0 for the four weights of the router, the only list summed.) *)
Definition sum (l : list float) : float := fold_left PrimFloat.add l 0.

End Float64.

(** ** [context_router.py] in binary64 arithmetic *)

(** The scoring and ranking of [route_context] with the numbers the
    interpreter computes. The rule table, the analyses of the message, the
    time and the preferences and the suggestions involve no arithmetic and
    are those of [ContextRouter]; so is the analysis of the history, of
    which [route_context] reads the recent context and never the
    frequency. *)
Module ContextRouter64.

Import ContextRouter Float64.

#[local] Set Warnings "-inexact-float".
Local Open Scope float_scope.

Record Weights : Type := {
  keyword_match : float;
  dialog_history : float;
  time_of_day : float;
  user_preferences : float
}.

Definition weights : Weights :=
  {| keyword_match := 0.4; dialog_history := 0.3; time_of_day := 0.1; user_preferences := 0.2 |}.

(** [self.weights.values()]. *)
Definition weights_values : list float :=
  [keyword_match weights; dialog_history weights; time_of_day weights; user_preferences weights].

Record ContextRoute : Type := {
  primary_context : str;
  secondary_contexts : list str;
  confidence : float;
  reasoning : str;
  suggestions : Suggestions
}.

(** [key=lambda x: x[1], reverse=True] on (context, score) pairs. *)
Definition score_gt (y x : str * float) : bool := snd x <? snd y.

Section Router.

Variable lower : str -> str.
Variable context_rules : list (str * Rules).

(** [_calculate_keyword_score]. *)
Definition _calculate_keyword_score (message : str) (keywords : list str) : float :=
  match message, keywords with
  | [], _ => 0.0
  | _, [] => 0.0
  | _, _ =>
      let text_lower := lower message in
      let matches := count_if (fun keyword => contains keyword text_lower) keywords in
      py_min (of_int matches * 0.3) 1.0
  end.

(** [_calculate_avoid_score]. *)
Definition _calculate_avoid_score (message : str) (avoid_words : list str) : float :=
  match message, avoid_words with
  | [], _ => 0.0
  | _, [] => 0.0
  | _, _ =>
      let text_lower := lower message in
      let matches := count_if (fun word => contains word text_lower) avoid_words in
      py_min (of_int matches * 0.2) 1.0
  end.

(** The body of the scoring loop of [route_context] for one entry of the
    rule table. *)
Definition context_score (message : str) (history_analysis : HistoryAnalysis)
    (time_analysis : TimeAnalysis) (preferences_analysis : PreferencesAnalysis)
    (context_name : str) (rules : Rules) : float :=
  let score := 0.0 in
  let keyword_score := _calculate_keyword_score message (keywords rules) in
  let score := score + keyword_score * keyword_match weights in
  let score :=
    match recent_context history_analysis with
    | Some rc => if str_eqb rc context_name then score + 0.3 * dialog_history weights else score
    | None => score
    end in
  let score :=
    match current_period time_analysis with
    | Some period =>
        if mem period (match time_preference rules with Some l => l | None => [] end)
        then score + 0.2 * time_of_day weights else score
    | None => score
    end in
  let score :=
    match fav_contexts preferences_analysis with
    | Some fav => if mem context_name fav then score + 0.3 * user_preferences weights else score
    | None => score
    end in
  let avoid_score :=
    _calculate_avoid_score message
      (match avoid_keywords rules with Some l => l | None => [] end) in
  score - avoid_score * 0.2.

(** [context_scores] after the loop, in the order of the rule table. *)
Definition context_scores (message : str) (history_analysis : HistoryAnalysis)
    (time_analysis : TimeAnalysis) (preferences_analysis : PreferencesAnalysis)
  : list (str * float) :=
  List.map (fun cr : str * Rules =>
              (fst cr, context_score message history_analysis time_analysis
                         preferences_analysis (fst cr) (snd cr)))
           context_rules.

(** [route_context]. *)
Definition route_context (message : str) (dialog_history : option (list str))
    (user_preferences : option Preferences) (time_info : option TimeInfo)
  : result ContextRoute :=
  let message_analysis := _analyze_message lower context_rules message in
  history_analysis <- history_analysis_of lower context_rules dialog_history ;;
  let time_analysis := time_analysis_of time_info in
  let preferences_analysis := preferences_analysis_of user_preferences in
  let sorted_contexts :=
    sorted_desc score_gt
      (context_scores message history_analysis time_analysis preferences_analysis) in
  chosen <- match sorted_contexts with
            | [] => Ok (friendly, 0.5)
            | (primary_context, primary_score) :: _ =>
                let max_possible_score := sum weights_values in
                c <- truediv primary_score max_possible_score ;;
                Ok (primary_context, py_min c 1.0)
            end ;;
  let primary_context := fst chosen in
  let confidence := snd chosen in
  let secondary_contexts :=
    match sorted_contexts with
    | (_, primary_score) :: (second_context, second_score) :: _ =>
        if abs (primary_score - second_score) <? 0.1 then [second_context] else []
    | _ => []
    end in
  let suggestions :=
    _generate_suggestions context_rules primary_context message_analysis time_analysis in
  let part1 :=
    if flag message_analysis has_context_keywords
    then [u "Обнаружены ключевые слова контекста"] else [] in
  let part2 :=
    match recent_context history_analysis with
    | Some rc => if str_eqb rc primary_context
                 then [u "Совпадает с недавним контекстом диалога"] else []
    | None => []
    end in
  primary_rules <- getitem context_rules primary_context ;;
  let part3 :=
    match current_period time_analysis with
    | Some period =>
        if mem period (match time_preference primary_rules with Some l => l | None => [] end)
        then [u "Подходит для текущего времени суток"] else []
    | None => []
    end in
  let reasoning_parts := part1 ++ part2 ++ part3 in
  let reasoning :=
    match reasoning_parts with
    | [] => u "Определено по общим признакам"
    | _ => join (u "; ") reasoning_parts
    end in
  Ok {| primary_context := primary_context;
        secondary_contexts := secondary_contexts;
        confidence := confidence;
        reasoning := reasoning;
        suggestions := suggestions |}.

End Router.

End ContextRouter64.


(** ** [style_analyzer.py] in binary64 arithmetic *)

(** [analyze_context] with the numbers the interpreter computes. The
    pattern table, the override tests and the table of response styles
    involve no arithmetic and are those of [CommunicationStyleAnalyzer]. *)
Module CommunicationStyleAnalyzer64.

Import CommunicationStyleAnalyzer Float64.

#[local] Set Warnings "-inexact-float".
Local Open Scope float_scope.

(** The dictionary [characteristics] of [analyze_context]. *)
Record Characteristics : Type := {
  formality : float;
  emotionality : float;
  humor_level : float;
  emoji_frequency : float;
  message_length : str;
  contains_questions : bool;
  contains_exclamations : bool;
  word_count : Z
}.

(** The dictionary [analyze_context] returns; a key that is absent is
    [None]. *)
Record Analysis : Type := {
  detected_context : str;
  confidence : float;
  suggested_contexts : option (list str);
  characteristics : option Characteristics;
  suggested_responses : option ResponseStyle
}.

(** [max(d.items(), key=lambda x: x[1])]: the first entry whose value no
    later entry exceeds. *)
Fixpoint max_from (best : str * float) (l : list (str * float)) : str * float :=
  match l with
  | [] => best
  | x :: t => if snd best <? snd x then max_from x t else max_from best t
  end.

(** The loops [for word in words: if word in text: score += step]. *)
Definition add_matches (text : str) (step : float) (words : list str) (score : float)
  : float :=
  fold_left (fun s word => if contains word text then s + step else s) words score.

Section Analyzer.

Variable lower : str -> str.

(** [_calculate_formality]. *)
Definition _calculate_formality (text : str) : result float :=
  let formal_words := List.map u ["уважаемый"; "прошу"; "предлагаю"; "согласовано"; "документ";
                                  "договор"; "сотрудничество"; "официально"]%string in
  let words := split (lower text) in
  match words with
  | [] => Ok 0.0
  | _ =>
      let formal_count := count_if (fun word => mem word formal_words) words in
      r <- int_truediv formal_count (len words) ;;
      Ok (py_min (r * 3) 1.0)
  end.

(** [_calculate_emotionality]. *)
Definition _calculate_emotionality (text : str) : result float :=
  let emotional_words := List.map u ["люблю"; "обожаю"; "ненавижу"; "злюсь"; "радуюсь";
                                     "грущу"; "волнуюсь"; "беспокоюсь"; "восхищаюсь"]%string in
  let emotional_emojis := List.map u ["❤️"; "😍"; "😢"; "😂"; "😡"; "🥰"; "😭"]%string in
  let score := 0.0 in
  let words := split (lower text) in
  score <- match words with
           | [] => Ok score
           | _ =>
               let emotional_word_count :=
                 count_if (fun word => mem word emotional_words) words in
               r <- int_truediv emotional_word_count (len words) ;;
               Ok (score + r * 2)
           end ;;
  let emoji_count := count_if (fun emoji => contains emoji text) emotional_emojis in
  let score := score + of_int emoji_count * 0.1 in
  let exclamation_count := Z.of_nat (count_char 33%N text) in
  let score := score + py_min (of_int exclamation_count * 0.05) 0.3 in
  Ok (py_min score 1.0).

(** [_calculate_humor_level]. *)
Definition _calculate_humor_level (text : str) : float :=
  let humor_indicators := List.map u ["ха-ха"; "хе-хе"; "лол"; "кек"; "смешно"; "прикол";
                                      "шутка"; "юмор"; "анекдот"; "😂"; "🤣"; "😄"]%string in
  py_min (add_matches (lower text) 0.2 humor_indicators 0.0) 1.0.

(** [_calculate_emoji_frequency]. *)
Definition _calculate_emoji_frequency (text : str) : result float :=
  let emojis := filter emoji_pattern text in
  match text with
  | [] => Ok 0.0
  | _ =>
      r <- int_truediv (len emojis) (len text) ;;
      Ok (py_min (r * 100) 1.0)
  end.

(** [_suggest_response_style]. *)
Definition _suggest_response_style (context : str) (characteristics : Characteristics)
  : result ResponseStyle :=
  friendly_style <- getitem response_styles (u "friendly") ;;
  let base_suggestion := match get response_styles context with
                         | Some s => s
                         | None => friendly_style
                         end in
  let adapted_tone :=
    if 0.7 <? emotionality characteristics then u "emotional"
    else if 0.7 <? formality characteristics then u "very_formal"
    else tone base_suggestion in
  let adapted_emoji_limit :=
    if 0.5 <? emoji_frequency characteristics
    then Z.min (emoji_limit base_suggestion + 2) 5
    else emoji_limit base_suggestion in
  Ok {| tone := adapted_tone;
        emoji_limit := adapted_emoji_limit;
        length := length base_suggestion;
        key_phrases := key_phrases base_suggestion |}.

(** The score of one context in the automatic detection of [analyze_context]. *)
Definition pattern_score (text_lower : str) (patterns : Patterns) : float :=
  let score := 0.0 in
  let score := add_matches text_lower 0.3 (formality_words patterns) score in
  let score := add_matches text_lower 0.2 (emotional_words patterns) score in
  add_matches text_lower 0.2 (humor_words patterns) score.

(** [analyze_context]. *)
Definition analyze_context (text : str) (dialog_context : option str) : result Analysis :=
  match text with
  | [] =>
      Ok {| detected_context := u "unknown";
            confidence := 0.0;
            suggested_contexts := Some [];
            characteristics := None;
            suggested_responses := None |}
  | _ =>
      let text_lower := lower text in
      let context_patterns := _load_context_patterns in
      let known :=
        match dialog_context with
        | Some (c :: dc) =>
            match get context_patterns (c :: dc) with
            | Some _ => Some (c :: dc)
            | None => None
            end
        | _ => None
        end in
      let primary_context :=
        match known with
        | Some dc => dc
        | None =>
            let context_scores :=
              List.map (fun cp : str * Patterns => (fst cp, pattern_score text_lower (snd cp)))
                       context_patterns in
            match context_scores with
            | first :: rest => fst (max_from first rest)
            | [] => u "friendly"
            end
        end in
      let primary_context :=
        if _is_work_related lower text then u "professional"
        else if _is_family_related lower text then u "family"
        else if _is_romantic_related lower text then u "romantic"
        else primary_context in
      formality <- _calculate_formality text ;;
      emotionality <- _calculate_emotionality text ;;
      let humor_level := _calculate_humor_level text in
      emoji_frequency <- _calculate_emoji_frequency text ;;
      let characteristics :=
        {| formality := formality;
           emotionality := emotionality;
           humor_level := humor_level;
           emoji_frequency := emoji_frequency;
           message_length := _classify_length text;
           contains_questions := contains (u "?") text;
           contains_exclamations := contains (u "!") text;
           word_count := len (split text) |} in
      suggested <- _suggest_response_style primary_context characteristics ;;
      Ok {| detected_context := primary_context;
            confidence := 0.8;
            suggested_contexts := None;
            characteristics := Some characteristics;
            suggested_responses := Some suggested |}
  end.

End Analyzer.

End CommunicationStyleAnalyzer64.

(** * Properties *)

(** ** Facts about the built-ins *)

Module PyFacts.

Lemma str_eqb_eq (a b : str) : str_eqb a b = true <-> a = b.
Proof.
  revert b; induction a as [|x a IH]; intros [|y b]; simpl; split; intro H;
    try reflexivity; try discriminate.
  - apply andb_true_iff in H as [Hx Hab].
    apply N.eqb_eq in Hx. apply IH in Hab. now subst.
  - injection H as -> ->. apply andb_true_iff; split.
    + apply N.eqb_refl.
    + now apply IH.
Qed.

Lemma str_eqb_refl (a : str) : str_eqb a a = true.
Proof. now apply str_eqb_eq. Qed.

Lemma str_eqb_neq (a b : str) : str_eqb a b = false <-> a <> b.
Proof.
  split.
  - intros H E. apply str_eqb_eq in E. congruence.
  - intro H. destruct (str_eqb a b) eqn:E; [|reflexivity].
    apply str_eqb_eq in E. contradiction.
Qed.

Lemma mem_In (x : str) (l : list str) : mem x l = true <-> In x l.
Proof.
  unfold mem. rewrite existsb_exists. split.
  - intros [y [Hy E]]. apply str_eqb_eq in E. now subst.
  - intro H. exists x. split; [assumption | apply str_eqb_refl].
Qed.

(** [startswith] and [contains] decide the prefix and the substring
    relations. *)
Lemma startswith_spec (p s : str) : startswith p s = true <-> exists t, s = p ++ t.
Proof.
  revert s; induction p as [|x p IH]; intros s; simpl.
  - split; [intros _; now exists s | reflexivity].
  - destruct s as [|y s].
    + split; [discriminate | intros [t Ht]; discriminate].
    + rewrite andb_true_iff, N.eqb_eq, IH. split.
      * intros [-> [t ->]]. now exists t.
      * intros [t Ht]. injection Ht as -> ->. split; [reflexivity | now exists t].
Qed.

Lemma contains_spec (needle hay : str) :
  contains needle hay = true <-> exists a b, hay = a ++ needle ++ b.
Proof.
  induction hay as [|c hay IH]; simpl.
  - rewrite orb_false_r, startswith_spec. split.
    + intros [t Ht]. now exists [], t.
    + intros [a [b H]]. destruct a; [now exists b | discriminate].
  - rewrite orb_true_iff, startswith_spec, IH. split.
    + intros [[t Ht] | [a [b H]]].
      * now exists [], t.
      * exists (c :: a), b. simpl. now rewrite H.
    + intros [[|c' a] [b H]].
      * left. now exists b.
      * right. injection H as _ H. now exists a, b.
Qed.

Lemma contains_nil_r (needle : str) : needle <> [] -> contains needle [] = false.
Proof. destruct needle; [congruence | reflexivity]. Qed.

(** [sum(1 for x in l if f x)] is the number of elements that satisfy [f]:
    an element counts once. *)
Lemma count_if_from {A : Type} (f : A -> bool) (l : list A) (acc : Z) :
  fold_left (fun acc x => if f x then (acc + 1)%Z else acc) l acc
  = (acc + Z.of_nat (List.length (filter f l)))%Z.
Proof.
  revert acc; induction l as [|x l IH]; intro acc; simpl.
  - lia.
  - rewrite IH. destruct (f x); simpl List.length; lia.
Qed.

Lemma count_if_filter {A : Type} (f : A -> bool) (l : list A) :
  count_if f l = Z.of_nat (List.length (filter f l)).
Proof. unfold count_if. now rewrite count_if_from. Qed.

Lemma count_if_nonneg {A : Type} (f : A -> bool) (l : list A) : (0 <= count_if f l)%Z.
Proof. rewrite count_if_filter. lia. Qed.

Lemma count_if_le_len {A : Type} (f : A -> bool) (l : list A) :
  (count_if f l <= Z.of_nat (List.length l))%Z.
Proof. rewrite count_if_filter. pose proof (filter_length_le f l). lia. Qed.

(** Dictionary access. *)
Lemma getitem_get {V : Type} (d : list (str * V)) (k : str) :
  getitem d k = match get d k with Some v => Ok v | None => Raise (KeyError k) end.
Proof.
  induction d as [|[k' v] d IH]; simpl; [reflexivity|].
  now destruct (str_eqb k k').
Qed.

Lemma get_In_key {V : Type} (d : list (str * V)) (k : str) :
  In k (List.map fst d) -> exists v, get d k = Some v.
Proof.
  induction d as [|[k' v] d IH]; simpl; [contradiction|].
  intros [-> | H].
  - rewrite str_eqb_refl. now exists v.
  - destruct (str_eqb k k'); [now exists v | now apply IH].
Qed.

Lemma getitem_In_key {V : Type} (d : list (str * V)) (k : str) :
  In k (List.map fst d) -> exists v, getitem d k = Ok v.
Proof.
  intro H. destruct (get_In_key d k H) as [v Hv].
  exists v. now rewrite getitem_get, Hv.
Qed.

Lemma get_Some_In {V : Type} (d : list (str * V)) (k : str) (v : V) :
  NoDup (List.map fst d) -> (get d k = Some v <-> In (k, v) d).
Proof.
  induction d as [|[k' v'] d IH]; simpl; intro Hnd.
  - split; [discriminate | contradiction].
  - inversion Hnd as [|? ? Hnotin Hnd']; subst.
    destruct (str_eqb k k') eqn:E.
    + apply str_eqb_eq in E. subst k'. split.
      * intros [= ->]. now left.
      * intros [[= ->] | Hin]; [reflexivity|].
        exfalso. apply Hnotin. now apply (in_map fst) in Hin.
    + apply str_eqb_neq in E. rewrite (IH Hnd'). split.
      * intro Hin. now right.
      * intros [[= -> ->] | Hin]; [congruence | assumption].
Qed.

Lemma flat_map_nil {A B : Type} (l : list A) : flat_map (fun _ : A => @nil B) l = [].
Proof. induction l as [|x l IH]; simpl; [reflexivity | exact IH]. Qed.

(** Comparison of numbers. *)
Lemma Qltb_lt (a b : Q) : Qltb a b = true <-> a < b.
Proof.
  unfold Qltb. rewrite Qlt_alt. destruct (a ?= b); split; congruence.
Qed.

Lemma Qltb_ge (a b : Q) : Qltb a b = false <-> b <= a.
Proof.
  split; intro H.
  - apply Qnot_lt_le. intro L. apply Qltb_lt in L. congruence.
  - destruct (Qltb a b) eqn:E; [|reflexivity].
    apply Qltb_lt in E. exfalso. now apply (Qlt_not_le a b).
Qed.

Lemma truediv_nonzero (a b : Q) : ~ b == 0 -> truediv a b = Ok (a / b).
Proof.
  intro H. unfold truediv. destruct (Qeq_bool b 0) eqn:E; [|reflexivity].
  apply Qeq_bool_iff in E. contradiction.
Qed.

Lemma inject_Z_pos_nonzero (z : Z) : (0 < z)%Z -> ~ inject_Z z == 0.
Proof.
  intros Hz H. unfold Qeq in H. simpl in H. lia.
Qed.

(** *** The stable descending sort *)

Section Sorting.

Variable A : Type.
Variable gt : A -> A -> bool.

Lemma insert_desc_perm (x : A) (l : list A) : Permutation (insert_desc gt x l) (x :: l).
Proof.
  induction l as [|y l IH]; simpl.
  - apply Permutation_refl.
  - destruct (gt y x).
    + eapply perm_trans; [apply perm_skip, IH | apply perm_swap].
    + apply Permutation_refl.
Qed.

Lemma sorted_desc_perm (l : list A) : Permutation (sorted_desc gt l) l.
Proof.
  induction l as [|x l IH]; simpl.
  - apply perm_nil.
  - eapply perm_trans; [apply insert_desc_perm | now apply perm_skip].
Qed.

Lemma sorted_desc_nil_inv (l : list A) : sorted_desc gt l = [] -> l = [].
Proof.
  intro H. apply Permutation_nil.
  rewrite <- H. apply sorted_desc_perm.
Qed.

(** The order is that of a key: [gt] is asymmetric and its negation is
    transitive. *)
Hypothesis gt_asym : forall a b, gt a b = true -> gt b a = false.
Hypothesis ge_trans : forall a b c, gt b a = false -> gt c b = false -> gt c a = false.

(** [a] is not below [b]. *)
Definition ge (a b : A) : Prop := gt b a = false.

Lemma insert_desc_sorted (x : A) (l : list A) :
  StronglySorted ge l -> StronglySorted ge (insert_desc gt x l).
Proof.
  induction 1 as [|y l Hs IH Hy]; simpl.
  - constructor; constructor.
  - destruct (gt y x) eqn:E.
    + constructor; [assumption|].
      rewrite Forall_forall. intros z Hz.
      apply (Permutation_in _ (insert_desc_perm x l)) in Hz.
      destruct Hz as [<- | Hz].
      * now apply gt_asym.
      * rewrite Forall_forall in Hy. now apply Hy.
    + constructor.
      * now constructor.
      * constructor; [exact E|].
        rewrite Forall_forall in *. intros z Hz.
        apply ge_trans with (b := y); [exact E | now apply Hy].
Qed.

Lemma sorted_desc_sorted (l : list A) : StronglySorted ge (sorted_desc gt l).
Proof.
  induction l as [|x l IH]; simpl.
  - constructor.
  - now apply insert_desc_sorted.
Qed.

(** The first element of the sorted list is not below any element. *)
Lemma sorted_desc_head_max (l : list A) (h : A) (t : list A) :
  sorted_desc gt l = h :: t -> forall x, In x l -> gt x h = false.
Proof.
  intros E x Hx.
  pose proof (sorted_desc_sorted l) as Hs. rewrite E in Hs.
  apply (Permutation_in _ (Permutation_sym (sorted_desc_perm l))) in Hx.
  rewrite E in Hx. inversion Hs as [|? ? _ Hall]; subst.
  destruct Hx as [<- | Hx].
  - destruct (gt h h) eqn:G; [|reflexivity].
    pose proof (gt_asym G). congruence.
  - rewrite Forall_forall in Hall. now apply Hall.
Qed.

(** Stability: among elements none of which is above another, the sort
    keeps the order; in particular an element that nothing exceeds and that
    comes first stays first. *)
Lemma insert_desc_head (x : A) (l : list A) :
  Forall (fun y => gt y x = false) l -> insert_desc gt x l = x :: l.
Proof.
  destruct l as [|y l]; simpl; [reflexivity|].
  intro H. inversion H as [|? ? Hy _]; subst. now rewrite Hy.
Qed.

(** Sorting commutes with the selection of a sub-list. *)
Lemma filter_insert_desc (p : A -> bool) (x : A) (l : list A) :
  StronglySorted ge l ->
  filter p (insert_desc gt x l)
  = if p x then insert_desc gt x (filter p l) else filter p l.
Proof.
  induction 1 as [|y l Hs IH Hy]; simpl.
  - now destruct (p x).
  - destruct (gt y x) eqn:E; simpl.
    + rewrite IH. destruct (p y), (p x); simpl; try reflexivity.
      now rewrite E.
    + destruct (p x) eqn:Px; [|reflexivity].
      symmetry. apply (@insert_desc_head x (filter p (y :: l))).
      rewrite Forall_forall. intros z Hz.
      apply filter_In in Hz as [Hz _].
      destruct Hz as [<- | Hz]; [exact E|].
      rewrite Forall_forall in Hy. apply ge_trans with (b := y); [exact E | now apply Hy].
Qed.

Lemma filter_sorted_desc (p : A -> bool) (l : list A) :
  filter p (sorted_desc gt l) = sorted_desc gt (filter p l).
Proof.
  induction l as [|x l IH]; simpl; [reflexivity|].
  rewrite filter_insert_desc by apply sorted_desc_sorted.
  rewrite IH. now destruct (p x).
Qed.

(** Stability at the head: a first element that no other element exceeds
    stays first. *)
Lemma sorted_desc_first (x : A) (l : list A) :
  (forall y, In y l -> gt y x = false) ->
  sorted_desc gt (x :: l) = x :: sorted_desc gt l.
Proof.
  intro H. simpl. apply insert_desc_head. rewrite Forall_forall.
  intros y Hy. apply H. now apply (Permutation_in _ (sorted_desc_perm l)).
Qed.

End Sorting.

Lemma In_firstn {A : Type} (n : nat) (l : list A) (z : A) :
  In z (firstn n l) -> In z l.
Proof.
  revert l; induction n as [|n IH]; intros [|x l]; simpl; try contradiction.
  intros [-> | H]; [now left | right; now apply IH].
Qed.

Lemma filter_none {A : Type} (p : A -> bool) (l : list A) :
  (forall z, In z l -> p z = false) -> filter p l = [].
Proof.
  induction l as [|x l IH]; simpl; intro H; [reflexivity|].
  rewrite (H x (or_introl eq_refl)). apply IH. intros z Hz. apply H. now right.
Qed.

(** A selection that holds on a prefix of the list only commutes with
    truncation. *)
Lemma filter_firstn_prefix {A : Type} (p : A -> bool) (l : list A) (n : nat) :
  StronglySorted (fun a b => p b = true -> p a = true) l ->
  filter p (firstn n l) = firstn n (filter p l).
Proof.
  intro Hs. revert n. induction Hs as [|a l Hs IH Ha]; intro n.
  - now rewrite !firstn_nil.
  - destruct n as [|n]; simpl; [reflexivity|].
    destruct (p a) eqn:Pa; simpl.
    + now rewrite IH.
    + assert (Hnone : forall z, In z l -> p z = false).
      { intros z Hz. rewrite Forall_forall in Ha. specialize (Ha z Hz).
        destruct (p z); [|reflexivity]. specialize (Ha eq_refl). congruence. }
      rewrite (filter_none p l Hnone).
      transitivity (@nil A); [|now destruct n].
      apply filter_none. intros z Hz. apply Hnone. now apply In_firstn in Hz.
Qed.

(** *** [Counter] counts occurrences *)

Definition count_of (c : list (str * nat)) (x : str) : nat :=
  match get c x with Some n => n | None => 0%nat end.

Lemma get_counter_add (x y : str) (c : list (str * nat)) :
  get (counter_add y c) x
  = if str_eqb x y then Some (S (count_of c y)) else get c x.
Proof.
  unfold count_of. induction c as [|[k n] c IH]; simpl.
  - now destruct (str_eqb x y).
  - destruct (str_eqb y k) eqn:Eyk; simpl.
    + apply str_eqb_eq in Eyk. subst k. now destruct (str_eqb x y).
    + rewrite IH. destruct (str_eqb x y) eqn:Exy; [|reflexivity].
      apply str_eqb_eq in Exy. subst y. now rewrite Eyk.
Qed.

Lemma counter_add_keys (y k : str) (c : list (str * nat)) :
  In k (List.map fst (counter_add y c)) <-> k = y \/ In k (List.map fst c).
Proof.
  induction c as [|[k' n] c IH]; simpl.
  - intuition congruence.
  - destruct (str_eqb y k') eqn:E; simpl.
    + apply str_eqb_eq in E. subst k'. intuition congruence.
    + rewrite IH. intuition congruence.
Qed.

Lemma counter_add_NoDup (y : str) (c : list (str * nat)) :
  NoDup (List.map fst c) -> NoDup (List.map fst (counter_add y c)).
Proof.
  induction c as [|[k n] c IH]; simpl; intro H.
  - repeat constructor. intros [].
  - inversion H as [|? ? Hnotin Hnd]; subst.
    destruct (str_eqb y k) eqn:E; simpl.
    + now constructor.
    + constructor; [|now apply IH].
      rewrite counter_add_keys. intros [-> | Hin]; [|contradiction].
      rewrite str_eqb_refl in E. discriminate.
Qed.

Lemma fold_counter_add (l : list str) (c : list (str * nat)) (x : str) :
  get (fold_left (fun c x => counter_add x c) l c) x
  = match occurrences x l with
    | O => get c x
    | S _ => Some (count_of c x + occurrences x l)%nat
    end.
Proof.
  revert c; induction l as [|y l IH]; intro c; [reflexivity|].
  cbn [fold_left]. rewrite IH. unfold occurrences. cbn [filter].
  unfold count_of at 1. rewrite get_counter_add.
  destruct (str_eqb x y) eqn:E; simpl List.length.
  - apply str_eqb_eq in E. subst y.
    destruct (List.length (filter (str_eqb x) l)); f_equal; lia.
  - reflexivity.
Qed.

Lemma fold_counter_NoDup (l : list str) (c : list (str * nat)) :
  NoDup (List.map fst c) ->
  NoDup (List.map fst (fold_left (fun c x => counter_add x c) l c)).
Proof.
  revert c; induction l as [|y l IH]; intros c H; [exact H|].
  apply IH. now apply counter_add_NoDup.
Qed.

(** An entry of [Counter l] is an element of [l] with the number of its
    occurrences. *)
Lemma Counter_spec (l : list str) (x : str) (n : nat) :
  In (x, n) (Counter l) <-> (0 < n)%nat /\ n = occurrences x l.
Proof.
  unfold Counter.
  rewrite <- (get_Some_In _ x n) by (apply fold_counter_NoDup; constructor).
  rewrite fold_counter_add. destruct (occurrences x l) as [|m]; simpl.
  - split; [discriminate | lia].
  - split; [intros [= <-]; lia | intros [_ ->]; reflexivity].
Qed.

Lemma StronglySorted_weaken {A : Type} (R S : A -> A -> Prop) (l : list A) :
  (forall a b, R a b -> S a b) -> StronglySorted R l -> StronglySorted S l.
Proof.
  intros HRS. induction 1 as [|a l Hs IH Ha]; constructor; [assumption|].
  rewrite Forall_forall in *. intros b Hb. now apply HRS, Ha.
Qed.

Lemma count_gt_asym (a b : str * nat) :
  Nat.ltb (snd b) (snd a) = true -> Nat.ltb (snd a) (snd b) = false.
Proof. rewrite Nat.ltb_lt, Nat.ltb_ge. lia. Qed.

Lemma count_ge_trans (a b c : str * nat) :
  Nat.ltb (snd a) (snd b) = false -> Nat.ltb (snd b) (snd c) = false ->
  Nat.ltb (snd a) (snd c) = false.
Proof. rewrite !Nat.ltb_ge. lia. Qed.

(** Of the most frequent entries, those with a count above a threshold are
    the most frequent of the entries above the threshold. *)
Lemma most_common_above (n k : nat) (c : list (str * nat)) :
  filter (fun pc => (k <? snd pc)%nat) (most_common n c)
  = firstn n (sorted_desc (fun y x => Nat.ltb (snd x) (snd y))
                (filter (fun pc => (k <? snd pc)%nat) c)).
Proof.
  unfold most_common.
  rewrite filter_firstn_prefix.
  - now rewrite (@filter_sorted_desc _ (fun y x : str * nat => Nat.ltb (snd x) (snd y))
                   count_gt_asym count_ge_trans).
  - apply StronglySorted_weaken
      with (R := fun a b : str * nat => Nat.ltb (snd a) (snd b) = false).
    + intros a b Hab Hb. apply Nat.ltb_ge in Hab. apply Nat.ltb_lt in Hb.
      apply Nat.ltb_lt. lia.
    + apply (@sorted_desc_sorted _ (fun y x : str * nat => Nat.ltb (snd x) (snd y))
               count_gt_asym count_ge_trans).
Qed.

End PyFacts.

(** ** The context router *)

Module ContextRouterFacts.

Import PyFacts ContextRouter.

Lemma score_gt_asym (a b : str * Q) : score_gt a b = true -> score_gt b a = false.
Proof.
  unfold score_gt. rewrite Qltb_lt, Qltb_ge. apply Qlt_le_weak.
Qed.

Lemma score_ge_trans (a b c : str * Q) :
  score_gt b a = false -> score_gt c b = false -> score_gt c a = false.
Proof.
  unfold score_gt. rewrite !Qltb_ge. intros H1 H2. now apply Qle_trans with (snd b).
Qed.

Lemma sum_weights : sum weights_values == 1.
Proof. reflexivity. Qed.

Lemma truediv_sum_weights (x : Q) : truediv x (sum weights_values) = Ok (x / sum weights_values).
Proof. reflexivity. Qed.

Lemma score_shape (x1 x2 k a : Q) :
  x1 == k -> x2 == a -> 0.0 + x1 * 0.4 - x2 * 0.2 == 0.4 * k - 0.2 * a.
Proof. intros -> ->. lra. Qed.

Lemma min_scaled_bounds (n : Z) (step : Q) :
  (0 <= n)%Z -> 0 <= step -> 0 <= Qmin (inject_Z n * step) 1.0 /\ Qmin (inject_Z n * step) 1.0 <= 1.
Proof.
  intros Hn Hs. split.
  - apply Q.min_glb; [|lra].
    apply Qmult_le_0_compat; [|assumption].
    change 0 with (inject_Z 0). now rewrite <- Zle_Qle.
  - eapply Qle_trans; [apply Q.le_min_r | lra].
Qed.

Section General.

Variable lower : str -> str.
Variable context_rules : list (str * Rules).

Local Abbreviation score := (context_score lower).
Local Abbreviation scores := (context_scores lower context_rules).
Local Abbreviation route := (route_context lower context_rules).

Lemma keyword_score_bounds (message : str) (kws : list str) :
  0 <= _calculate_keyword_score lower message kws /\
  _calculate_keyword_score lower message kws <= 1.
Proof.
  unfold _calculate_keyword_score.
  destruct message as [|c m]; [split; lra|].
  destruct kws as [|k kws]; [split; lra|].
  apply min_scaled_bounds; [apply count_if_nonneg | lra].
Qed.

Lemma avoid_score_bounds (message : str) (ws : list str) :
  0 <= _calculate_avoid_score lower message ws /\
  _calculate_avoid_score lower message ws <= 1.
Proof.
  unfold _calculate_avoid_score.
  destruct message as [|c m]; [split; lra|].
  destruct ws as [|w ws]; [split; lra|].
  apply min_scaled_bounds; [apply count_if_nonneg | lra].
Qed.

Lemma avoid_score_nil (message : str) : _calculate_avoid_score lower message [] = 0.0.
Proof. now destruct message. Qed.

(** A context without avoid-keywords never scores below zero. *)
Lemma context_score_nonneg (message : str) (ha : HistoryAnalysis) (ta : TimeAnalysis)
    (pa : PreferencesAnalysis) (name : str) (rules : Rules) :
  avoid_keywords rules = None -> 0 <= score message ha ta pa name rules.
Proof.
  intro Hnone. unfold context_score. rewrite Hnone, avoid_score_nil.
  destruct (keyword_score_bounds message (keywords rules)) as [Hk _].
  set (k := _calculate_keyword_score lower message (keywords rules)) in *.
  cbn [keyword_match dialog_history time_of_day user_preferences weights].
  destruct (recent_context ha) as [rc|]; [destruct (str_eqb rc name)|];
    (destruct (current_period ta) as [period|];
     [destruct (mem period match time_preference rules with Some l => l | None => [] end)|]);
    (destruct (fav_contexts pa) as [fav|]; [destruct (mem name fav)|]); lra.
Qed.

Lemma context_scores_keys (message : str) (ha : HistoryAnalysis) (ta : TimeAnalysis)
    (pa : PreferencesAnalysis) :
  List.map fst (scores message ha ta pa) = List.map fst context_rules.
Proof.
  unfold context_scores. rewrite map_map. reflexivity.
Qed.

Lemma context_scores_In (message : str) (ha : HistoryAnalysis) (ta : TimeAnalysis)
    (pa : PreferencesAnalysis) (name : str) (rules : Rules) :
  In (name, rules) context_rules ->
  In (name, score message ha ta pa name rules) (scores message ha ta pa).
Proof.
  intro H. unfold context_scores.
  apply (in_map (fun cr : str * Rules =>
                   (fst cr, score message ha ta pa (fst cr) (snd cr)))) in H.
  exact H.
Qed.

(** The history analysis never raises: the divisor is the length of a
    non-empty list. *)
Lemma _analyze_history_ok (history : list str) :
  exists ha, _analyze_history lower context_rules history = Ok ha.
Proof.
  unfold _analyze_history. destruct history as [|m h]; [now eexists|].
  set (recent := if (5 <? List.length (m :: h))%nat then last_n 5 (m :: h) else m :: h).
  destruct (flat_map (contexts_of_message lower context_rules) recent) as [|c cs];
    [now eexists|].
  destruct (most_common 1 (Counter (c :: cs))) as [|mc rest]; [now eexists|].
  rewrite truediv_nonzero; [now eexists|].
  apply inject_Z_pos_nonzero. unfold len.
  assert (0 < List.length recent)%nat; [|lia].
  unfold recent. destruct (5 <? List.length (m :: h))%nat eqn:E.
  - apply Nat.ltb_lt in E. unfold last_n. rewrite length_skipn. lia.
  - simpl. lia.
Qed.

Lemma history_analysis_of_ok (dialog_history : option (list str)) :
  exists ha, history_analysis_of lower context_rules dialog_history = Ok ha.
Proof.
  destruct dialog_history as [[|m h]|]; unfold history_analysis_of; try (now eexists).
  apply _analyze_history_ok.
Qed.

(** What [route_context] returns once the ranking has a first entry. *)
Lemma route_context_ranked (message : str) (dh : option (list str))
    (up : option Preferences) (ti : option TimeInfo)
    (ha : HistoryAnalysis) (p : str) (ps : Q) (rest : list (str * Q)) :
  history_analysis_of lower context_rules dh = Ok ha ->
  sorted_desc score_gt
    (scores message ha (time_analysis_of ti) (preferences_analysis_of up)) = (p, ps) :: rest ->
  exists r,
    route message dh up ti = Ok r /\
    primary_context r = p /\
    confidence r = Qmin (ps / sum weights_values) 1.0 /\
    secondary_contexts r =
      match rest with
      | (second_context, second_score) :: _ =>
          if Qltb (Qabs (ps - second_score)) 0.1 then [second_context] else []
      | [] => []
      end.
Proof.
  intros Hha Hsorted.
  assert (Hkey : In p (List.map fst context_rules)).
  { rewrite <- (context_scores_keys message ha (time_analysis_of ti)
                  (preferences_analysis_of up)).
    apply (Permutation_in _ (Permutation_map fst (sorted_desc_perm score_gt _))).
    rewrite Hsorted. now left. }
  destruct (getitem_In_key context_rules p Hkey) as [rules Hrules].
  unfold route_context. rewrite Hha. cbn [bind]. rewrite Hsorted.
  rewrite truediv_sum_weights. cbn [bind fst snd]. rewrite Hrules. cbn [bind].
  eexists. split; [reflexivity|]. cbn [primary_context confidence secondary_contexts].
  repeat split.
Qed.

(** A non-empty rule table gives a ranking with a first entry. *)
Lemma ranking_nonempty (message : str) (ha : HistoryAnalysis) (ta : TimeAnalysis)
    (pa : PreferencesAnalysis) :
  context_rules <> [] ->
  exists p ps rest, sorted_desc score_gt (scores message ha ta pa) = (p, ps) :: rest.
Proof.
  intro Hne.
  destruct (sorted_desc score_gt (scores message ha ta pa)) as [|[p ps] rest] eqn:E.
  - apply sorted_desc_nil_inv in E. unfold context_scores in E.
    apply map_eq_nil in E. contradiction.
  - now exists p, ps, rest.
Qed.

(** Without history, time information and preferences the score of a
    context is the specification's, provided no keyword is the empty string
    (the code returns 0 for the empty message without looking at the
    keywords). *)
Lemma keyword_score_matched (step : Q) (message : str) (kws : list str) :
  lower [] = [] ->
  Forall (fun kw => kw <> []) kws ->
  match message, kws with
  | [], _ => 0.0
  | _, [] => 0.0
  | _, _ => Qmin (inject_Z (count_if (fun kw => contains kw (lower message)) kws) * step) 1.0
  end == Qmin (step * inject_Z (matched_count lower message kws)) 1.
Proof.
  intros Hnil Hne. unfold matched_count.
  assert (Hzero : 0.0 == Qmin (step * inject_Z (Z.of_nat 0)) 1).
  { change (inject_Z (Z.of_nat 0)) with 0. rewrite Qmult_0_r.
    rewrite Q.min_l by lra. lra. }
  destruct message as [|c m].
  - rewrite Hnil. rewrite filter_none; [exact Hzero|].
    intros kw Hkw. rewrite Forall_forall in Hne.
    apply contains_nil_r. now apply Hne.
  - destruct kws as [|k kws]; [exact Hzero|].
    rewrite count_if_filter. apply Q.min_compat; [apply Qmult_comm | reflexivity].
Qed.

Lemma context_score_spec (message : str) (name : str) (rules : Rules) :
  lower [] = [] ->
  Forall (fun kw => kw <> []) (keywords rules) ->
  Forall (fun kw => kw <> []) (match avoid_keywords rules with Some l => l | None => [] end) ->
  score message no_history no_time no_preferences name rules == spec_score lower message rules.
Proof.
  intros Hnil Hk Ha. unfold context_score, spec_score.
  cbn [recent_context current_period fav_contexts no_history no_time no_preferences
       keyword_match weights].
  unfold _calculate_keyword_score, _calculate_avoid_score.
  apply score_shape; now apply keyword_score_matched.
Qed.

End General.

(** *** The built-in rule table *)

Lemma build_context_rules_keys : NoDup (List.map fst _build_context_rules).
Proof.
  repeat constructor; simpl; intro H;
    repeat (destruct H as [H | H]; [apply str_eqb_eq in H; vm_compute in H; discriminate|]);
    exact H.
Qed.

Lemma build_context_rules_words (name : str) (rules : Rules) :
  In (name, rules) _build_context_rules ->
  Forall (fun kw => kw <> []) (keywords rules) /\
  Forall (fun kw => kw <> [])
         (match avoid_keywords rules with Some l => l | None => [] end).
Proof.
  intro H. simpl in H.
  repeat (destruct H as [H | H];
          [injection H as <- <-; split;
           repeat constructor; intro E; vm_compute in E; discriminate|]).
  contradiction.
Qed.

(** C1: for every message and every combination of the optional inputs,
    [route_context] returns a route whose confidence lies in the closed
    interval from 0 to 1; it is never negative, although avoid-keywords
    subtract from a score, because the top score is at least that of a
    context without avoid-keywords. *)
Theorem route_context_confidence_unit_interval (lower : str -> str) (message : str)
    (dialog_history : option (list str)) (user_preferences : option Preferences)
    (time_info : option TimeInfo) :
  exists r,
    route_context lower _build_context_rules message dialog_history user_preferences time_info
    = Ok r /\
    0 <= confidence r /\ confidence r <= 1.
Proof.
  destruct (history_analysis_of_ok lower _build_context_rules dialog_history) as [ha Hha].
  set (ta := time_analysis_of time_info).
  set (pa := preferences_analysis_of user_preferences).
  destruct (@ranking_nonempty lower _build_context_rules message ha ta pa)
    as [p [ps [rest Hsorted]]]; [discriminate|].
  destruct (route_context_ranked lower _build_context_rules message dialog_history
              user_preferences time_info Hha Hsorted) as [r [Hr [_ [Hc _]]]].
  exists r. split; [exact Hr|]. rewrite Hc.
  assert (Hps : 0 <= ps).
  { assert (Hin : In (romantic, romantic_rules) _build_context_rules)
      by (simpl; tauto).
    apply (context_scores_In lower _build_context_rules message ha ta pa) in Hin.
    pose proof (@sorted_desc_head_max _ score_gt score_gt_asym score_ge_trans
                  _ _ _ Hsorted _ Hin) as Hmax.
    unfold score_gt in Hmax. cbn [snd] in Hmax. apply Qltb_ge in Hmax.
    eapply Qle_trans; [|exact Hmax].
    now apply context_score_nonneg. }
  split.
  - apply Q.min_glb; [|lra].
    apply Qle_shift_div_l; [reflexivity|]. now rewrite Qmult_0_l.
  - eapply Qle_trans; [apply Q.le_min_r | lra].
Qed.



(** C5: a switch from professional to family with an empty history is
    refused, a switch from friendly to professional with an empty history is
    allowed, and a switch to the current context is always allowed. *)
Theorem validate_context_switch_fixtures (lower : str -> str)
    (context_rules : list (str * Rules)) :
  validate_context_switch lower context_rules professional family []
  = (false, u "Резкий переход с professional на family") /\
  validate_context_switch lower context_rules friendly professional []
  = (true, u "Переход разрешен") /\
  forall (c : str) (history : list str),
    validate_context_switch lower context_rules c c history = (true, u "Тот же контекст").
Proof.
  split; [vm_compute; reflexivity|]. split; [vm_compute; reflexivity|].
  intros c history. unfold validate_context_switch. now rewrite str_eqb_refl.
Qed.

(** The contexts the history loop of [validate_context_switch] collects. *)
Lemma mem_recent_contexts (lower : str -> str) (context_rules : list (str * Rules))
    (c : str) (msgs : list str) :
  NoDup (List.map fst context_rules) ->
  mem c (recent_contexts_of lower context_rules msgs)
  = match get context_rules c with
    | Some rules => existsb (fun msg => mentions lower msg (keywords rules)) msgs
    | None => false
    end.
Proof.
  intro Hnd. apply eq_true_iff_eq. rewrite mem_In.
  unfold recent_contexts_of, contexts_of_message. rewrite in_flat_map. split.
  - intros [msg [Hmsg Hc]]. apply in_flat_map in Hc as [[n r] [Hnr Hc]].
    cbn [fst snd] in Hc.
    destruct (existsb (fun keyword => contains keyword (lower msg)) (keywords r)) eqn:E;
      [|contradiction].
    destruct Hc as [<- | []].
    apply (get_Some_In context_rules n r Hnd) in Hnr. rewrite Hnr.
    apply existsb_exists. now exists msg.
  - destruct (get context_rules c) as [rules|] eqn:G; [|discriminate].
    apply (get_Some_In context_rules c rules Hnd) in G.
    intro H. apply existsb_exists in H as [msg [Hmsg Hm]].
    exists msg. split; [exact Hmsg|]. apply in_flat_map.
    exists (c, rules). split; [exact G|]. cbn [fst snd].
    unfold mentions in Hm. rewrite Hm. now left.
Qed.

(** C8 as stated fails on a history of at most three entries: the keyword
    "работа" of the proposed context is in the only entry of the history,
    the switch from friendly to professional is allowed, and the reason is
    the generic one. *)
Lemma validate_context_switch_short_history :
  friendly <> professional /\
  (exists l, get compatibility friendly = Some l /\ In professional l) /\
  keyword_in_last_three py_lower _build_context_rules professional [u "Как твоя работа"]
  = true /\
  validate_context_switch py_lower _build_context_rules friendly professional
    [u "Как твоя работа"]
  = (true, u "Переход разрешен").
Proof.
  split; [apply str_eqb_neq; vm_compute; reflexivity|].
  split; [eexists; split; [reflexivity | left; reflexivity]|].
  split; vm_compute; reflexivity.
Qed.

(** C8, amended: for every allowed transition between two different
    contexts, the reason is the smooth one exactly when the history has more
    than three entries and a keyword of the proposed context occurs in one
    of its last three entries; otherwise it is the generic one. *)
Theorem validate_context_switch_allowed (lower : str -> str)
    (current proposed : str) (history : list str) :
  current <> proposed ->
  (exists l, get compatibility current = Some l /\ In proposed l) ->
  validate_context_switch lower _build_context_rules current proposed history
  = (true,
     if (3 <? List.length history)%nat
        && keyword_in_last_three lower _build_context_rules proposed history
     then u "Плавный переход на основе истории"
     else u "Переход разрешен").
Proof.
  intros Hneq [l [Hl Hin]]. unfold validate_context_switch.
  apply str_eqb_neq in Hneq. rewrite Hneq, Hl.
  apply mem_In in Hin. rewrite Hin. cbn [negb].
  rewrite (@mem_recent_contexts lower _build_context_rules proposed (last_n 3 history)
             build_context_rules_keys).
  fold (keyword_in_last_three lower _build_context_rules proposed history).
  replace (match history with [] => false | _ :: _ => (3 <? List.length history)%nat end)
    with (3 <? List.length history)%nat by now destruct history.
  now destruct ((3 <? List.length history)%nat
                && keyword_in_last_three lower _build_context_rules proposed history).
Qed.

Lemma validate_context_switch_allowed_witness :
  validate_context_switch py_lower _build_context_rules friendly professional
    [u "Привет"; u "Как дела"; u "Завтра отчет"; u "Понял"]
  = (true,
     if (3 <? List.length [u "Привет"; u "Как дела"; u "Завтра отчет"; u "Понял"])%nat
        && keyword_in_last_three py_lower _build_context_rules professional
             [u "Привет"; u "Как дела"; u "Завтра отчет"; u "Понял"]
     then u "Плавный переход на основе истории"
     else u "Переход разрешен").
Proof.
  apply (@validate_context_switch_allowed py_lower friendly professional
           [u "Привет"; u "Как дела"; u "Завтра отчет"; u "Понял"]).
  - apply str_eqb_neq. vm_compute. reflexivity.
  - eexists. split; [reflexivity | left; reflexivity].
Defined.

(** The fixture of the specification: a greeting with one romantic keyword
    is routed to the romantic context with a confidence strictly between 0
    and 1. *)
Example route_context_romantic_greeting :
  exists r,
    route_context py_lower _build_context_rules (u "Привет, дорогой, очень скучаю ❤️")
      None None None = Ok r /\
    primary_context r = romantic /\ 0 < confidence r /\ confidence r < 1.
Proof.
  eexists. split; [vm_compute; reflexivity|].
  repeat split; vm_compute; reflexivity.
Qed.

(** *** A message about a deadline *)

Lemma matched_count_none (lower : str -> str) (message : str) (kws : list str) :
  mentions lower message kws = false -> matched_count lower message kws = 0%Z.
Proof.
  intro H. unfold matched_count. rewrite filter_none; [reflexivity|].
  intros kw Hkw. unfold mentions in H.
  destruct (contains kw (lower message)) eqn:E; [|reflexivity].
  assert (existsb (fun kw => contains kw (lower message)) kws = true)
    by (apply existsb_exists; now exists kw).
  congruence.
Qed.

Lemma matched_count_some (lower : str -> str) (message : str) (kws : list str) (kw : str) :
  In kw kws -> contains kw (lower message) = true ->
  (1 <= matched_count lower message kws)%Z.
Proof.
  intros Hin Hc. unfold matched_count.
  assert (Hf : In kw (filter (fun kw => contains kw (lower message)) kws))
    by (apply filter_In; now split).
  destruct (filter (fun kw => contains kw (lower message)) kws); [contradiction|].
  simpl List.length. lia.
Qed.

Lemma mentions_app (lower : str -> str) (message : str) (k1 k2 : list str) :
  mentions lower message (k1 ++ k2) = false ->
  mentions lower message k1 = false /\ mentions lower message k2 = false.
Proof.
  unfold mentions. rewrite existsb_app. apply orb_false_iff.
Qed.

(** Without optional inputs, a message with the keyword "дедлайн", no
    keyword of another context and no avoid-keyword of the professional
    context is routed to the professional context. *)
Lemma route_context_deadline (lower : str -> str) (message : str) :
  lower [] = [] ->
  contains (u "дедлайн") (lower message) = true ->
  mentions lower message
    (keywords family_rules ++ keywords romantic_rules ++ keywords friendly_rules
     ++ keywords creative_rules) = false ->
  mentions lower message (List.map u ["люблю"; "обнимаю"; "целую"; "ха-ха"]%string) = false ->
  exists r,
    route_context lower _build_context_rules message None None None = Ok r /\
    primary_context r = professional.
Proof.
  intros Hnil Hdead Hother Havoid.
  apply mentions_app in Hother as [Hfam Hother].
  apply mentions_app in Hother as [Hrom Hother].
  apply mentions_app in Hother as [Hfri Hcre].
  assert (Hspec : forall name rules, In (name, rules) _build_context_rules ->
            context_score lower message no_history no_time no_preferences name rules
            == spec_score lower message rules).
  { intros name rules Hin. destruct (build_context_rules_words Hin).
    now apply context_score_spec. }
  assert (Hlow : forall name rules, In (name, rules) _build_context_rules ->
            mentions lower message (keywords rules) = false ->
            context_score lower message no_history no_time no_preferences name rules <= 0).
  { intros name rules Hin Hno. rewrite (Hspec name rules Hin). unfold spec_score.
    rewrite (matched_count_none _ _ _ Hno).
    set (a := matched_count lower message _).
    assert (Ha : 0 <= Qmin (0.2 * inject_Z a) 1).
    { apply Q.min_glb; [|lra]. apply Qmult_le_0_compat; [lra|].
      change 0 with (inject_Z 0). rewrite <- Zle_Qle. unfold a, matched_count. lia. }
    assert (Hk : Qmin (0.3 * inject_Z 0) 1 == 0)
      by (change (inject_Z 0) with 0; rewrite Q.min_l; lra).
    rewrite Hk. lra. }
  assert (Hhigh : 0 < context_score lower message no_history no_time no_preferences
                        professional professional_rules).
  { rewrite (Hspec professional professional_rules) by (left; reflexivity).
    unfold spec_score.
    change (match avoid_keywords professional_rules with Some l => l | None => [] end)
      with (List.map u ["люблю"; "обнимаю"; "целую"; "ха-ха"]%string).
    rewrite (matched_count_none _ _ _ Havoid).
    assert (Ha : Qmin (0.2 * inject_Z 0) 1 == 0)
      by (change (inject_Z 0) with 0; rewrite Q.min_l; lra).
    rewrite Ha.
    assert (Hk : (1 <= matched_count lower message (keywords professional_rules))%Z).
    { apply matched_count_some with (kw := u "дедлайн"); [|exact Hdead].
      do 6 right. left. reflexivity. }
    assert (Hq : 0.3 <= Qmin (0.3 * inject_Z (matched_count lower message
                                               (keywords professional_rules))) 1).
    { apply Q.min_glb; [|lra]. rewrite Zle_Qle in Hk. change (inject_Z 1) with 1 in Hk.
      revert Hk. generalize (inject_Z (matched_count lower message
                                         (keywords professional_rules))).
      intros m Hm. lra. }
    lra. }
  assert (Hsorted :
    sorted_desc score_gt
      (context_scores lower _build_context_rules message no_history no_time no_preferences)
    = (professional, context_score lower message no_history no_time no_preferences
                       professional professional_rules)
      :: sorted_desc score_gt
           (List.map (fun cr : str * Rules =>
                        (fst cr, context_score lower message no_history no_time no_preferences
                                   (fst cr) (snd cr)))
                     [(family, family_rules); (romantic, romantic_rules);
                      (friendly, friendly_rules); (creative, creative_rules)])).
  { unfold context_scores, _build_context_rules. cbn [List.map fst snd].
    apply sorted_desc_first. intros y Hy. unfold score_gt. cbn [snd].
    apply Qltb_ge. apply Qle_trans with 0; [|now apply Qlt_le_weak].
    destruct Hy as [<- | [<- | [<- | [<- | []]]]]; cbn [snd]; apply Hlow;
      try assumption; simpl; tauto. }
  destruct (@route_context_ranked lower _build_context_rules message None None None
              no_history _ _ _ eq_refl Hsorted) as [r [Hr [Hp _]]].
  exists r. split; [exact Hr | exact Hp].
Qed.

End ContextRouterFacts.

(** ** The style analyzer *)

Module AnalyzerFacts.

Import PyFacts CommunicationStyleAnalyzer.

Lemma for_each_ok {A B : Type} (f : A -> result B) (l : list A) :
  (forall x, In x l -> exists y, f x = Ok y) -> exists ys, for_each f l = Ok ys.
Proof.
  induction l as [|x l IH]; simpl; intro H; [now eexists|].
  destruct (H x (or_introl eq_refl)) as [y Hy]. rewrite Hy. cbn [bind].
  destruct IH as [ys Hys]; [intros z Hz; apply H; now right|].
  rewrite Hys. cbn [bind]. now eexists.
Qed.

Lemma len_cons_nonzero {A : Type} (x : A) (l : list A) : ~ inject_Z (len (x :: l)) == 0.
Proof. apply inject_Z_pos_nonzero. unfold len. simpl List.length. lia. Qed.

Section Total.

Variable lower : str -> str.

(** The three characteristics with a division never raise: each divisor
    is the length of a list that was found non-empty. *)
Lemma _calculate_formality_ok (text : str) :
  exists q, _calculate_formality lower text = Ok q.
Proof.
  unfold _calculate_formality. destruct (split (lower text)) as [|w ws]; [now eexists|].
  rewrite truediv_nonzero by apply len_cons_nonzero. now eexists.
Qed.

Lemma _calculate_emotionality_ok (text : str) :
  exists q, _calculate_emotionality lower text = Ok q.
Proof.
  unfold _calculate_emotionality. destruct (split (lower text)) as [|w ws].
  - now eexists.
  - rewrite truediv_nonzero by apply len_cons_nonzero. now eexists.
Qed.

Lemma _calculate_emoji_frequency_ok (text : str) :
  exists q, _calculate_emoji_frequency text = Ok q.
Proof.
  unfold _calculate_emoji_frequency. destruct text as [|c t]; [now eexists|].
  rewrite truediv_nonzero by apply len_cons_nonzero. now eexists.
Qed.

Lemma _suggest_response_style_ok (context : str) (ch : Characteristics) :
  exists rs, _suggest_response_style context ch = Ok rs.
Proof.
  unfold _suggest_response_style.
  destruct (getitem_In_key response_styles (u "friendly")) as [fs Hfs].
  - do 3 right. left. reflexivity.
  - rewrite Hfs. cbn [bind]. now eexists.
Qed.

Lemma analyze_context_nonempty (text : str) (dialog_context : option str) :
  text <> [] ->
  exists a base ch rs,
    analyze_context lower text dialog_context = Ok a /\
    detected_context a = overridden lower text base /\
    confidence a = 0.8 /\
    suggested_contexts a = None /\
    characteristics a = Some ch /\
    suggested_responses a = Some rs.
Proof.
  intro Hne. destruct text as [|c t]; [congruence|].
  unfold analyze_context.
  destruct (_calculate_formality_ok (c :: t)) as [f Hf]. rewrite Hf. cbn [bind].
  destruct (_calculate_emotionality_ok (c :: t)) as [e He]. rewrite He. cbn [bind].
  destruct (_calculate_emoji_frequency_ok (c :: t)) as [ef Hef]. rewrite Hef. cbn [bind].
  match goal with
  | |- context [_suggest_response_style ?ctx ?chars] =>
      destruct (_suggest_response_style_ok ctx chars) as [rs Hrs]; rewrite Hrs
  end.
  cbn [bind]. do 4 eexists. split; [reflexivity|].
  cbn [detected_context confidence suggested_contexts characteristics suggested_responses].
  unfold overridden. repeat split; reflexivity.
Qed.

End Total.

(** C7: on the empty string [analyze_context] returns the neutral result,
    with the context "unknown", confidence 0 and no characteristics, and on
    no text at all, empty or not, does it raise. *)
Theorem analyze_context_empty_text_neutral (lower : str -> str) :
  (forall dialog_context,
     analyze_context lower (u "") dialog_context
     = Ok {| detected_context := u "unknown";
             confidence := 0.0;
             suggested_contexts := Some [];
             characteristics := None;
             suggested_responses := None |}) /\
  (forall text dialog_context, exists a, analyze_context lower text dialog_context = Ok a).
Proof.
  split; [reflexivity|].
  intros text dialog_context. destruct text as [|c t].
  - now eexists.
  - destruct (@analyze_context_nonempty lower (c :: t) dialog_context)
      as [a [_ [_ [_ [Ha _]]]]]; [discriminate|].
    now exists a.
Qed.

(** C10: on every non-empty text, whatever the known context,
    [analyze_context] returns the confidence 0.8. *)
Theorem analyze_context_confidence_constant (lower : str -> str) (text : str)
    (dialog_context : option str) :
  text <> [] ->
  exists a, analyze_context lower text dialog_context = Ok a /\ confidence a = 0.8.
Proof.
  intro Hne.
  destruct (@analyze_context_nonempty lower text dialog_context Hne)
    as [a [_ [_ [_ [Ha [_ [Hc _]]]]]]].
  now exists a.
Qed.

Lemma analyze_context_confidence_constant_witness :
  exists a,
    analyze_context py_lower (u "Привет, как дела?") (Some (u "family")) = Ok a /\
    confidence a = 0.8.
Proof.
  apply (@analyze_context_confidence_constant py_lower (u "Привет, как дела?")
           (Some (u "family"))).
  vm_compute. discriminate.
Defined.

(** *** A message about a deadline *)

(** C4 as stated fails for the router: the message below contains
    "дедлайн" and no family or romantic keyword, and the router returns the
    friendly context, whose two keywords outweigh the one professional
    keyword. *)
Lemma deadline_message_routed_to_friendly :
  contains (u "дедлайн") (py_lower (u "Дедлайн сдвинули, друг, пойдем в кафе")) = true /\
  ContextRouter.mentions py_lower (u "Дедлайн сдвинули, друг, пойдем в кафе")
    (ContextRouter.keywords ContextRouter.family_rules
     ++ ContextRouter.keywords ContextRouter.romantic_rules) = false /\
  _is_family_related py_lower (u "Дедлайн сдвинули, друг, пойдем в кафе") = false /\
  _is_romantic_related py_lower (u "Дедлайн сдвинули, друг, пойдем в кафе") = false /\
  exists r,
    ContextRouter.route_context py_lower ContextRouter._build_context_rules
      (u "Дедлайн сдвинули, друг, пойдем в кафе") None None None = Ok r /\
    ContextRouter.primary_context r = ContextRouter.friendly /\
    ContextRouter.friendly <> ContextRouter.professional.
Proof.
  split; [vm_compute; reflexivity|]. split; [vm_compute; reflexivity|].
  split; [vm_compute; reflexivity|]. split; [vm_compute; reflexivity|].
  eexists. split; [vm_compute; reflexivity|].
  split; [vm_compute; reflexivity|].
  apply str_eqb_neq. vm_compute. reflexivity.
Qed.

(** C4, amended: for every message that contains the keyword "дедлайн",
    [analyze_context] detects the professional context, whatever the known
    context; and [route_context], called without history, preferences and
    time information, returns the professional context as primary when the
    message contains no keyword of any other context and no avoid-keyword
    of the professional context. *)
Theorem deadline_message_is_professional (lower : str -> str) (message : str) :
  lower [] = [] ->
  contains (u "дедлайн") (lower message) = true ->
  (forall dialog_context,
     exists a,
       analyze_context lower message dialog_context = Ok a /\
       detected_context a = u "professional") /\
  (ContextRouter.mentions lower message
     (ContextRouter.keywords ContextRouter.family_rules
      ++ ContextRouter.keywords ContextRouter.romantic_rules
      ++ ContextRouter.keywords ContextRouter.friendly_rules
      ++ ContextRouter.keywords ContextRouter.creative_rules) = false ->
   ContextRouter.mentions lower message
     (List.map u ["люблю"; "обнимаю"; "целую"; "ха-ха"]%string) = false ->
   exists r,
     ContextRouter.route_context lower ContextRouter._build_context_rules message
       None None None = Ok r /\
     ContextRouter.primary_context r = ContextRouter.professional).
Proof.
  intros Hnil Hdead. split.
  - intro dialog_context.
    assert (Hne : message <> []).
    { intros ->. rewrite Hnil in Hdead. discriminate. }
    destruct (@analyze_context_nonempty lower message dialog_context Hne)
      as [a [base [_ [_ [Ha [Hd _]]]]]].
    exists a. split; [exact Ha|]. rewrite Hd. unfold overridden.
    replace (_is_work_related lower message) with true; [reflexivity|].
    symmetry. unfold _is_work_related. apply existsb_exists.
    exists (u "дедлайн"). split; [|exact Hdead].
    do 6 right. left. reflexivity.
  - now apply ContextRouterFacts.route_context_deadline.
Qed.

Lemma deadline_message_is_professional_witness :
  (forall dialog_context,
     exists a,
       analyze_context py_lower (u "Завтра ДЕДЛАЙН по отчету") dialog_context = Ok a /\
       detected_context a = u "professional") /\
  exists r,
    ContextRouter.route_context py_lower ContextRouter._build_context_rules
      (u "Завтра ДЕДЛАЙН по отчету") None None None = Ok r /\
    ContextRouter.primary_context r = ContextRouter.professional.
Proof.
  destruct (@deadline_message_is_professional py_lower (u "Завтра ДЕДЛАЙН по отчету"))
    as [Hanalyzer Hrouter].
  - reflexivity.
  - vm_compute. reflexivity.
  - split; [exact Hanalyzer|].
    apply Hrouter; vm_compute; reflexivity.
Defined.

(** *** The phrases of a style signature *)

Definition greetings : list str :=
  [u "доброе утро мой дорогой друг как дела";
   u "доброе утро мой дорогой друг как дела"].

(** C9 as stated fails: in the corpus [greetings] six phrases occur twice,
    no message is empty, and the signature has five phrases. *)
Lemma extract_style_signature_five_phrases :
  greetings <> [] /\
  List.length (spec_common_phrases py_lower greetings) = 6%nat /\
  exists sig,
    extract_style_signature py_lower greetings (u "friendly") = Ok (Some sig) /\
    List.length (common_phrases sig) = 5%nat /\
    common_phrases sig <> spec_common_phrases py_lower greetings.
Proof.
  split; [discriminate|]. split; [vm_compute; reflexivity|].
  eexists. split; [vm_compute; reflexivity|].
  split; [vm_compute; reflexivity|].
  vm_compute. discriminate.
Qed.

(** The analysis of a non-empty message has characteristics. *)
Lemma message_characteristics_ok (lower : str -> str) (msg : str)
    (dialog_context : option str) :
  msg <> [] ->
  exists ch,
    (analysis <- analyze_context lower msg dialog_context ;; characteristics_of analysis)
    = Ok ch.
Proof.
  intro Hne.
  destruct (@analyze_context_nonempty lower msg dialog_context Hne)
    as [a [_ [ch [_ [Ha [_ [_ [_ [Hch _]]]]]]]]].
  exists ch. rewrite Ha. cbn [bind]. unfold characteristics_of. now rewrite Hch.
Qed.

(** A corpus with an empty message has no signature: [analyze_context]
    returns no characteristics for the empty message, and the subscript
    [analysis['characteristics']] raises. *)
Lemma extract_style_signature_empty_message (lower : str -> str) (messages : list str)
    (context : str) :
  In [] messages ->
  extract_style_signature lower messages context = Raise (KeyError (u "characteristics")).
Proof.
  intro Hin. unfold extract_style_signature.
  destruct messages as [|m ms]; [contradiction|].
  assert (Hloop :
    for_each (fun msg => analysis <- analyze_context lower msg (Some context) ;;
                         characteristics_of analysis) (m :: ms)
    = Raise (KeyError (u "characteristics"))).
  { revert Hin. generalize (m :: ms). intro l.
    induction l as [|x l IH]; [contradiction|].
    intro Hin. cbn [for_each]. destruct x as [|c t].
    - reflexivity.
    - destruct (@message_characteristics_ok lower (c :: t) (Some context))
        as [ch Hch]; [discriminate|].
      rewrite Hch. cbn [bind].
      destruct Hin as [E | Hin]; [discriminate|].
      now rewrite (IH Hin). }
  now rewrite Hloop.
Qed.

(** The stop-word test of [_extract_common_phrases] never rejects a phrase
    that passed the length test: every stop word has at most three
    characters. *)
Lemma message_phrases_long (lower : str -> str) (msg : str) :
  message_phrases lower msg
  = filter (fun phrase => (5 <? List.length phrase)%nat)
           (two_word_phrases (split (lower msg))).
Proof.
  unfold message_phrases. apply filter_ext. intro phrase.
  destruct (5 <? List.length phrase)%nat eqn:E; [|reflexivity].
  destruct (mem phrase stop_words) eqn:M; [|reflexivity].
  apply mem_In in M. apply Nat.ltb_lt in E.
  assert (Hshort : forallb (fun w => (List.length w <=? 3)%nat) stop_words = true)
    by (vm_compute; reflexivity).
  rewrite forallb_forall in Hshort. apply Hshort in M. apply Nat.leb_le in M. lia.
Qed.

Lemma ranked_phrases_occur (candidates : list str) (phrase : str) :
  In phrase (ranked_phrases candidates) -> (2 <= occurrences phrase candidates)%nat.
Proof.
  unfold ranked_phrases. intro H.
  apply in_map_iff in H as [[ph n] [E H]]. cbn [fst] in E. subst ph.
  apply (Permutation_in _ (sorted_desc_perm _ _)) in H.
  apply filter_In in H as [H Hn]. cbn [snd] in Hn.
  apply Counter_spec in H as [_ <-]. now apply Nat.leb_le.
Qed.

(** C9, amended: for every non-empty corpus without an empty message,
    [extract_style_signature] returns the five most frequent of the adjacent
    two-word phrases of more than five characters that occur at least
    twice (fewer when fewer occur twice), most frequent first. *)
Theorem extract_style_signature_phrases (lower : str -> str) (messages : list str)
    (context : str) :
  messages <> [] ->
  Forall (fun msg => msg <> []) messages ->
  exists sig,
    extract_style_signature lower messages context = Ok (Some sig) /\
    common_phrases sig = firstn 5 (ranked_phrases (long_corpus_phrases lower messages)) /\
    forall phrase,
      In phrase (common_phrases sig) ->
      (2 <= occurrences phrase (long_corpus_phrases lower messages))%nat.
Proof.
  intros Hne Hall. unfold extract_style_signature.
  destruct messages as [|m ms]; [congruence|].
  destruct (@for_each_ok _ _
              (fun msg => analysis <- analyze_context lower msg (Some context) ;;
                          characteristics_of analysis) (m :: ms)) as [chs Hchs].
  { intros msg Hmsg. rewrite Forall_forall in Hall.
    now apply message_characteristics_ok, Hall. }
  rewrite Hchs. cbn [bind]. eexists. split; [reflexivity|].
  cbn [common_phrases].
  assert (Hphrases :
    firstn 5 (_extract_common_phrases lower (m :: ms))
    = firstn 5 (ranked_phrases (long_corpus_phrases lower (m :: ms)))).
  { unfold _extract_common_phrases, ranked_phrases, long_corpus_phrases.
    rewrite (most_common_above 10 1).
    rewrite <- firstn_map, firstn_firstn.
    rewrite (flat_map_ext _ _ (message_phrases_long lower)). reflexivity. }
  rewrite Hphrases. split; [reflexivity|].
  intros phrase Hin. apply ranked_phrases_occur. now apply In_firstn in Hin.
Qed.

Lemma extract_style_signature_phrases_witness :
  exists sig,
    extract_style_signature py_lower greetings (u "friendly") = Ok (Some sig) /\
    common_phrases sig = firstn 5 (ranked_phrases (long_corpus_phrases py_lower greetings)) /\
    forall phrase,
      In phrase (common_phrases sig) ->
      (2 <= occurrences phrase (long_corpus_phrases py_lower greetings))%nat.
Proof.
  apply (@extract_style_signature_phrases py_lower greetings (u "friendly")).
  - discriminate.
  - repeat constructor; vm_compute; discriminate.
Defined.

End AnalyzerFacts.

(** * Further properties *)

(** ** More facts about the built-ins *)

Module MoreFacts.

Import PyFacts.

Section Ranking.

Variable A : Type.
Variable gt : A -> A -> bool.
Hypothesis gt_asym : forall a b, gt a b = true -> gt b a = false.
Hypothesis ge_trans : forall a b c, gt b a = false -> gt c b = false -> gt c a = false.

(** The first element of the sorted list is the first element of the list
    that no element exceeds: every element before it is strictly below. *)
Lemma sorted_desc_head_split (l : list A) (h : A) (t : list A) :
  sorted_desc gt l = h :: t ->
  exists before after,
    l = before ++ h :: after /\
    (forall x, In x before -> gt h x = true) /\
    (forall x, In x after -> gt x h = false).
Proof.
  revert h t. induction l as [|a l IH]; intros h t E; [discriminate|].
  simpl in E. destruct (sorted_desc gt l) as [|h' t'] eqn:Es.
  - apply sorted_desc_nil_inv in Es. subst l. simpl in E. injection E as <- <-.
    exists [], []. repeat split; intros x [].
  - simpl in E. destruct (gt h' a) eqn:G.
    + injection E as <- <-.
      destruct (IH h' t' eq_refl) as [before [after [-> [Hb Ha]]]].
      exists (a :: before), after. repeat split; [|exact Ha].
      intros x [<- | Hx]; [exact G | now apply Hb].
    + injection E as <- <-.
      exists [], l. repeat split; [intros x []|].
      intros x Hx.
      pose proof (@sorted_desc_head_max _ gt gt_asym ge_trans l h' t' Es x Hx) as Hmax.
      apply ge_trans with (b := h'); assumption.
Qed.

(** A list none of whose elements exceeds another is left as it is. *)
Lemma sorted_desc_flat (l : list A) :
  (forall x y, In x l -> In y l -> gt x y = false) -> sorted_desc gt l = l.
Proof.
  induction l as [|a l IH]; intro H; [reflexivity|].
  simpl. rewrite IH by (intros x y Hx Hy; apply H; now right).
  apply insert_desc_head. rewrite Forall_forall. intros y Hy.
  apply H; [now right | now left].
Qed.

End Ranking.

(** *** Occurrences *)

Lemma occurrences_app (x : str) (l1 l2 : list str) :
  occurrences x (l1 ++ l2) = (occurrences x l1 + occurrences x l2)%nat.
Proof. unfold occurrences. now rewrite filter_app, length_app. Qed.

Lemma occurrences_In (x : str) (l : list str) :
  (0 < occurrences x l)%nat -> In x l.
Proof.
  unfold occurrences. intro H.
  destruct (filter (str_eqb x) l) as [|y f] eqn:E; [simpl in H; lia|].
  assert (Hy : In y (filter (str_eqb x) l)) by (rewrite E; now left).
  apply filter_In in Hy as [Hy Exy]. apply str_eqb_eq in Exy. now subst.
Qed.

Lemma occurrences_NoDup (x : str) (l : list str) :
  NoDup l -> (occurrences x l <= 1)%nat.
Proof.
  unfold occurrences. induction 1 as [|y l Hnotin Hnd IH]; simpl; [lia|].
  destruct (str_eqb x y) eqn:E; [|exact IH].
  apply str_eqb_eq in E. subst y. simpl.
  rewrite filter_none; [simpl; lia|].
  intros z Hz. apply str_eqb_neq. intros ->. contradiction.
Qed.

Lemma occurrences_flat_map {A : Type} (x : str) (f : A -> list str) (l : list A) :
  (forall a, (occurrences x (f a) <= 1)%nat) ->
  (occurrences x (flat_map f l) <= List.length l)%nat.
Proof.
  intro H. induction l as [|a l IH]; simpl; [unfold occurrences; simpl; lia|].
  rewrite occurrences_app. specialize (H a). lia.
Qed.

(** The entries of [Counter l] have distinct keys. *)
Lemma Counter_NoDup (l : list str) : NoDup (List.map fst (Counter l)).
Proof. unfold Counter. apply fold_counter_NoDup. constructor. Qed.

Lemma NoDup_map_fst_firstn {B : Type} (n : nat) (l : list (str * B)) :
  NoDup (List.map fst l) -> NoDup (List.map fst (firstn n l)).
Proof.
  revert n. induction l as [|x l IH]; intros n H.
  - now rewrite firstn_nil.
  - destruct n as [|n]; simpl; [constructor|].
    simpl in H. inversion H as [|? ? Hnotin Hnd]; subst.
    constructor; [|now apply IH].
    intro Hin. apply Hnotin. apply in_map_iff in Hin as [y [Ey Hy]].
    apply in_map_iff. exists y. split; [exact Ey | now apply In_firstn in Hy].
Qed.

Lemma NoDup_map_fst_filter {B : Type} (p : str * B -> bool) (l : list (str * B)) :
  NoDup (List.map fst l) -> NoDup (List.map fst (filter p l)).
Proof.
  induction l as [|x l IH]; simpl; intro H; [constructor|].
  inversion H as [|? ? Hnotin Hnd]; subst.
  destruct (p x); simpl; [|now apply IH].
  constructor; [|now apply IH].
  intro Hin. apply Hnotin. apply in_map_iff in Hin as [y [Ey Hy]].
  apply in_map_iff. exists y. split; [exact Ey | now apply filter_In in Hy].
Qed.

(** [most_common] returns entries of the counter, without repetition. *)
Lemma most_common_In (n : nat) (c : list (str * nat)) (e : str * nat) :
  In e (most_common n c) -> In e c.
Proof.
  unfold most_common. intro H. apply In_firstn in H.
  now apply (Permutation_in _ (sorted_desc_perm _ c)) in H.
Qed.

Lemma most_common_NoDup (n : nat) (c : list (str * nat)) :
  NoDup (List.map fst c) -> NoDup (List.map fst (most_common n c)).
Proof.
  intro H. unfold most_common. apply NoDup_map_fst_firstn.
  apply (Permutation_NoDup
           (Permutation_sym (Permutation_map fst (sorted_desc_perm _ c)))).
  exact H.
Qed.

Lemma most_common_length (n : nat) (c : list (str * nat)) :
  (List.length (most_common n c) <= n)%nat.
Proof. unfold most_common. apply firstn_le_length. Qed.

(** Rational bounds used below. *)
Lemma Qmin_unit (x : Q) : 0 <= x -> 0 <= Qmin x 1.0 /\ Qmin x 1.0 <= 1.
Proof.
  intro H. split.
  - apply Q.min_glb; [exact H | lra].
  - eapply Qle_trans; [apply Q.le_min_r | lra].
Qed.

Lemma inject_Z_nonneg (z : Z) : (0 <= z)%Z -> 0 <= inject_Z z.
Proof. intro H. change 0 with (inject_Z 0). now rewrite <- Zle_Qle. Qed.

Lemma Qdiv_nonneg (a b : Q) : 0 <= a -> 0 < b -> 0 <= a / b.
Proof.
  intros Ha Hb. apply Qle_shift_div_l; [exact Hb|]. now rewrite Qmult_0_l.
Qed.

Lemma Qdiv_le_1 (a b : Q) : a <= b -> 0 < b -> a / b <= 1.
Proof.
  intros Hab Hb. apply Qle_shift_div_r; [exact Hb|]. now rewrite Qmult_1_l.
Qed.

End MoreFacts.

(** ** More properties of the context router *)

Module RouterProperties.

Import PyFacts MoreFacts ContextRouter ContextRouterFacts.

(** The five contexts, in the order of the rule table. *)
Definition five_contexts : list str := [professional; family; romantic; friendly; creative].

Lemma build_context_rules_names : List.map fst _build_context_rules = five_contexts.
Proof. reflexivity. Qed.

(** The ranking [route_context] works with, for any inputs. *)
Lemma route_context_ranking (lower : str -> str) (message : str)
    (dh : option (list str)) (up : option Preferences) (ti : option TimeInfo) :
  exists ha p ps rest r,
    history_analysis_of lower _build_context_rules dh = Ok ha /\
    sorted_desc score_gt
      (context_scores lower _build_context_rules message ha (time_analysis_of ti)
         (preferences_analysis_of up)) = (p, ps) :: rest /\
    route_context lower _build_context_rules message dh up ti = Ok r /\
    primary_context r = p /\
    confidence r = Qmin (ps / sum weights_values) 1.0 /\
    secondary_contexts r =
      match rest with
      | (second_context, second_score) :: _ =>
          if Qltb (Qabs (ps - second_score)) 0.1 then [second_context] else []
      | [] => []
      end.
Proof.
  destruct (history_analysis_of_ok lower _build_context_rules dh) as [ha Hha].
  destruct (@ranking_nonempty lower _build_context_rules message ha
              (time_analysis_of ti) (preferences_analysis_of up))
    as [p [ps [rest Hsorted]]]; [discriminate|].
  destruct (route_context_ranked lower _build_context_rules message dh up ti Hha Hsorted)
    as [r [Hr [Hp [Hc Hs]]]].
  exists ha, p, ps, rest, r. repeat split; assumption.
Qed.

Lemma ranked_In_names (lower : str -> str) (message : str) (ha : HistoryAnalysis)
    (ta : TimeAnalysis) (pa : PreferencesAnalysis) (c : str) (s : Q) :
  In (c, s) (sorted_desc score_gt
               (context_scores lower _build_context_rules message ha ta pa)) ->
  In c five_contexts /\
  exists rules, s = context_score lower message ha ta pa c rules.
Proof.
  intro H. apply (Permutation_in _ (sorted_desc_perm score_gt _)) in H.
  unfold context_scores in H. apply in_map_iff in H as [[n rules] [E Hin]].
  cbn [fst snd] in E. injection E as <- <-. split.
  - rewrite <- build_context_rules_names. now apply (in_map fst) in Hin.
  - now exists rules.
Qed.

(** X2: [route_context] returns at most one secondary context, and it is one
    of the five contexts of the rule table. *)
Theorem route_context_secondary_at_most_one (lower : str -> str) (message : str)
    (dialog_history : option (list str)) (user_preferences : option Preferences)
    (time_info : option TimeInfo) :
  exists r,
    route_context lower _build_context_rules message dialog_history user_preferences time_info
    = Ok r /\
    (List.length (secondary_contexts r) <= 1)%nat /\
    forall c, In c (secondary_contexts r) -> In c five_contexts.
Proof.
  destruct (route_context_ranking lower message dialog_history user_preferences time_info)
    as [ha [p [ps [rest [r [_ [Hsorted [Hr [_ [_ Hs]]]]]]]]]].
  exists r. split; [exact Hr|]. rewrite Hs.
  destruct rest as [|[sc ss] rest]; [split; [simpl; lia | intros c []]|].
  destruct (Qltb (Qabs (ps - ss)) 0.1); [|split; [simpl; lia | intros c []]].
  split; [simpl; lia|]. intros c [<- | []].
  assert (Hin : In (sc, ss) ((p, ps) :: (sc, ss) :: rest)) by (right; now left).
  rewrite <- Hsorted in Hin. apply ranked_In_names in Hin as [Hc _]. exact Hc.
Qed.

(** *** The parts of a route *)

(** The reasoning text, from the three tests of [route_context]. *)
Definition reasoning_text (keywords_found same_as_history fits_time : bool) : str :=
  match (if keywords_found then [u "Обнаружены ключевые слова контекста"] else [])
        ++ (if same_as_history then [u "Совпадает с недавним контекстом диалога"] else [])
        ++ (if fits_time then [u "Подходит для текущего времени суток"] else [])
  with
  | [] => u "Определено по общим признакам"
  | parts => join (u "; ") parts
  end.

Section Fields.

Variable lower : str -> str.
Variable context_rules : list (str * Rules).

(** What a returned route is made of. *)
Lemma route_context_fields (message : str) (dh : option (list str))
    (up : option Preferences) (ti : option TimeInfo) (r : ContextRoute) :
  route_context lower context_rules message dh up ti = Ok r ->
  exists ha rules,
    history_analysis_of lower context_rules dh = Ok ha /\
    getitem context_rules (primary_context r) = Ok rules /\
    suggestions r
    = _generate_suggestions context_rules (primary_context r)
        (_analyze_message lower context_rules message) (time_analysis_of ti) /\
    reasoning r
    = reasoning_text
        (flag (_analyze_message lower context_rules message) has_context_keywords)
        (match recent_context ha with
         | Some rc => str_eqb rc (primary_context r)
         | None => false
         end)
        (match current_period (time_analysis_of ti) with
         | Some period =>
             mem period (match time_preference rules with Some l => l | None => [] end)
         | None => false
         end).
Proof.
  unfold route_context. intro H.
  destruct (history_analysis_of lower context_rules dh) as [ha|e] eqn:Hha;
    cbn [bind] in H; [|discriminate].
  match type of H with
  | bind ?chosen _ = _ => destruct chosen as [[p c]|e] eqn:Hchosen
  end; cbn [bind fst snd] in H; [|discriminate].
  destruct (getitem context_rules p) as [rules|e] eqn:Hrules;
    cbn [bind] in H; [|discriminate].
  injection H as <-. cbn [primary_context suggestions reasoning].
  exists ha, rules. split; [reflexivity|]. split; [exact Hrules|].
  split; [reflexivity|]. unfold reasoning_text.
  destruct (flag (_analyze_message lower context_rules message) has_context_keywords);
    destruct (recent_context ha) as [rc|]; try destruct (str_eqb rc p);
    destruct (current_period (time_analysis_of ti)) as [period|];
    try destruct (mem period match time_preference rules with Some l => l | None => [] end);
    cbn [app]; reflexivity.
Qed.

End Fields.

(** *** Messages without a signal *)

(** All keywords, and all avoid-keywords, of the rule table. *)
Definition all_keywords : list str :=
  flat_map (fun cr : str * Rules => keywords (snd cr)) _build_context_rules.

Definition all_avoid_keywords : list str :=
  flat_map (fun cr : str * Rules =>
              match avoid_keywords (snd cr) with Some l => l | None => [] end)
           _build_context_rules.

Lemma mentions_flat_map {A : Type} (lower : str -> str) (message : str)
    (f : A -> list str) (l : list A) :
  mentions lower message (flat_map f l) = false ->
  forall x, In x l -> mentions lower message (f x) = false.
Proof.
  induction l as [|a l IH]; simpl; intros H x Hx; [contradiction|].
  apply mentions_app in H as [Ha Hl].
  destruct Hx as [<- | Hx]; [exact Ha | now apply IH].
Qed.

(** The quick keyword test of [_analyze_message] finds a keyword exactly
    when the message mentions a keyword of some context. *)
Lemma first_context_keyword_found (rules : list (str * Rules)) (text_lower : str) :
  match first_context_keyword rules text_lower with Some _ => true | None => false end
  = existsb (fun kw => contains kw text_lower)
            (flat_map (fun cr : str * Rules => keywords (snd cr)) rules).
Proof.
  induction rules as [|[n r] rules IH]; simpl; [reflexivity|].
  rewrite existsb_app.
  destruct (find (fun keyword => contains keyword text_lower) (keywords r)) as [kw|] eqn:F.
  - apply find_some in F as [Hin Hc]. symmetry. apply orb_true_iff. left.
    apply existsb_exists. now exists kw.
  - rewrite IH.
    assert (E : existsb (fun kw => contains kw text_lower) (keywords r) = false).
    { destruct (existsb (fun kw => contains kw text_lower) (keywords r)) eqn:E;
        [|reflexivity].
      apply existsb_exists in E as [kw [Hin Hc]].
      pose proof (find_none _ _ F kw Hin) as Hn. cbv beta in Hn. congruence. }
    now rewrite E.
Qed.

Lemma all_keywords_nonempty : Forall (fun kw => kw <> []) all_keywords.
Proof.
  unfold all_keywords. rewrite Forall_forall. intros kw Hkw.
  apply in_flat_map in Hkw as [[n r] [Hin Hkw]].
  destruct (build_context_rules_words Hin) as [Hk _].
  rewrite Forall_forall in Hk. now apply Hk.
Qed.

Lemma has_context_keywords_mentions (lower : str -> str) (message : str) :
  lower [] = [] ->
  flag (_analyze_message lower _build_context_rules message) has_context_keywords
  = mentions lower message all_keywords.
Proof.
  intro Hnil. unfold _analyze_message, mentions. destruct message as [|c m].
  - rewrite Hnil. cbn [flag]. symmetry.
    destruct (existsb (fun kw => contains kw []) all_keywords) eqn:E; [|reflexivity].
    apply existsb_exists in E as [kw [Hin Hc]].
    pose proof all_keywords_nonempty as Hne. rewrite Forall_forall in Hne.
    rewrite (contains_nil_r (Hne kw Hin)) in Hc. discriminate.
  - cbn [flag has_context_keywords]. apply first_context_keyword_found.
Qed.

Lemma no_signal_score (lower : str -> str) (message : str) (name : str) (rules : Rules) :
  lower [] = [] ->
  mentions lower message (all_keywords ++ all_avoid_keywords) = false ->
  In (name, rules) _build_context_rules ->
  context_score lower message no_history no_time no_preferences name rules == 0.
Proof.
  intros Hnil Hno Hin. apply mentions_app in Hno as [Hk Ha].
  pose proof (mentions_flat_map lower message _ _ Hk _ Hin) as Hk'.
  pose proof (mentions_flat_map lower message _ _ Ha _ Hin) as Ha'.
  cbn [snd] in Hk', Ha'.
  destruct (build_context_rules_words Hin) as [Hkw Haw].
  rewrite (@context_score_spec lower message name rules Hnil Hkw Haw).
  unfold spec_score.
  rewrite (matched_count_none _ _ _ Hk'), (matched_count_none _ _ _ Ha').
  change (inject_Z 0) with 0. rewrite !Q.min_l by lra. lra.
Qed.

(** X4: a message that mentions no keyword and no avoid-keyword of any
    context, routed without history, preferences and time, gets the first
    context of the table, professional, as primary with confidence 0, the
    second, family, as secondary, and the generic reasoning. *)
Theorem route_context_no_signal (lower : str -> str) (message : str) :
  lower [] = [] ->
  mentions lower message (all_keywords ++ all_avoid_keywords) = false ->
  exists r,
    route_context lower _build_context_rules message None None None = Ok r /\
    primary_context r = professional /\
    confidence r == 0 /\
    secondary_contexts r = [family] /\
    reasoning r = u "Определено по общим признакам".
Proof.
  intros Hnil Hno.
  set (scores := context_scores lower _build_context_rules message no_history
                   no_time no_preferences).
  assert (Hzero : forall x, In x scores -> snd x == 0).
  { intros x Hx. unfold scores, context_scores in Hx.
    apply in_map_iff in Hx as [[n rules] [<- Hin]]. cbn [fst snd].
    now apply no_signal_score. }
  assert (Hsorted : sorted_desc score_gt scores = scores).
  { apply sorted_desc_flat. intros x y Hx Hy. unfold score_gt. apply Qltb_ge.
    rewrite (Hzero x Hx), (Hzero y Hy). lra. }
  assert (Hshape : exists s1 s2 rest,
             scores = (professional, s1) :: (family, s2) :: rest).
  { unfold scores, context_scores, _build_context_rules. cbn [List.map fst snd].
    do 3 eexists. reflexivity. }
  destruct Hshape as [s1 [s2 [rest Hshape]]].
  assert (H1 : s1 == 0) by (apply (Hzero (professional, s1)); rewrite Hshape; now left).
  assert (H2 : s2 == 0)
    by (apply (Hzero (family, s2)); rewrite Hshape; right; now left).
  rewrite Hshape in Hsorted at 2.
  destruct (@route_context_ranked lower _build_context_rules message None None None
              no_history professional s1 ((family, s2) :: rest) eq_refl Hsorted)
    as [r [Hr [Hp [Hc Hs]]]].
  exists r. split; [exact Hr|]. split; [exact Hp|]. split; [|split].
  - rewrite Hc. rewrite Q.min_l.
    + rewrite H1. reflexivity.
    + rewrite H1. unfold Qdiv. rewrite Qmult_0_l. lra.
  - rewrite Hs.
    replace (Qltb (Qabs (s1 - s2)) 0.1) with true; [reflexivity|].
    symmetry. apply Qltb_lt. rewrite H1, H2. reflexivity.
  - destruct (route_context_fields lower _build_context_rules message None None None Hr)
      as [ha [rules [Hha [_ [_ Hreason]]]]].
    injection Hha as <-. rewrite Hreason.
    rewrite (@has_context_keywords_mentions lower message Hnil).
    apply mentions_app in Hno as [Hk _]. rewrite Hk.
    unfold reasoning_text. cbn [recent_context no_history current_period time_analysis_of
                                no_time app].
    reflexivity.
Qed.

Lemma route_context_no_signal_witness :
  exists r,
    route_context py_lower _build_context_rules (u "Привет! Ты где?") None None None = Ok r /\
    primary_context r = professional /\
    confidence r == 0 /\
    secondary_contexts r = [family] /\
    reasoning r = u "Определено по общим признакам".
Proof.
  apply (@route_context_no_signal py_lower (u "Привет! Ты где?")).
  - reflexivity.
  - vm_compute. reflexivity.
Defined.

(** X5: without history, preferences and time, the reasoning of a route says
    that keywords were found exactly when the message mentions a keyword of
    some context, and is the generic sentence otherwise. *)
Theorem route_context_reasoning_keywords (lower : str -> str) (message : str) :
  lower [] = [] ->
  exists r,
    route_context lower _build_context_rules message None None None = Ok r /\
    reasoning r
    = if mentions lower message all_keywords
      then u "Обнаружены ключевые слова контекста"
      else u "Определено по общим признакам".
Proof.
  intro Hnil.
  destruct (route_context_ranking lower message None None None)
    as [ha [p [ps [rest [r [_ [_ [Hr _]]]]]]]].
  exists r. split; [exact Hr|].
  destruct (route_context_fields lower _build_context_rules message None None None Hr)
    as [ha' [rules [Hha [_ [_ Hreason]]]]].
  injection Hha as <-. rewrite Hreason.
  rewrite (@has_context_keywords_mentions lower message Hnil).
  unfold reasoning_text. cbn [recent_context no_history current_period time_analysis_of
                              no_time app].
  destruct (mentions lower message all_keywords); cbn [app join]; reflexivity.
Qed.

Lemma route_context_reasoning_keywords_witness :
  exists r,
    route_context py_lower _build_context_rules (u "Мама звонила") None None None = Ok r /\
    reasoning r
    = if mentions py_lower (u "Мама звонила") all_keywords
      then u "Обнаружены ключевые слова контекста"
      else u "Определено по общим признакам".
Proof.
  apply (@route_context_reasoning_keywords py_lower (u "Мама звонила")).
  reflexivity.
Defined.

(** *** The dialog history *)

Lemma history_analysis_of_Some (lower : str -> str) (context_rules : list (str * Rules))
    (history : list str) :
  history_analysis_of lower context_rules (Some history)
  = _analyze_history lower context_rules history.
Proof. destruct history; reflexivity. Qed.

Lemma last_n_app_exact {A : Type} (old recent : list A) :
  last_n (List.length recent) (old ++ recent) = recent.
Proof.
  unfold last_n. rewrite length_app.
  replace (List.length old + List.length recent - List.length recent)%nat
    with (List.length old) by lia.
  rewrite skipn_app, skipn_all, Nat.sub_diag. reflexivity.
Qed.

Lemma _analyze_history_window (lower : str -> str) (context_rules : list (str * Rules))
    (old recent : list str) :
  List.length recent = 5%nat ->
  _analyze_history lower context_rules (old ++ recent)
  = _analyze_history lower context_rules recent.
Proof.
  intro Hlen. destruct old as [|o old]; [reflexivity|].
  destruct recent as [|a [|b [|c [|d [|e [|f recent]]]]]]; try discriminate.
  unfold _analyze_history. cbn [app].
  replace (5 <? List.length (o :: old ++ [a; b; c; d; e]))%nat with true
    by (symmetry; apply Nat.ltb_lt; simpl; rewrite length_app; simpl; lia).
  replace (5 <? List.length [a; b; c; d; e])%nat with false by reflexivity.
  assert (Hlast : last_n 5 (o :: old ++ [a; b; c; d; e]) = [a; b; c; d; e])
    by apply (last_n_app_exact (o :: old) [a; b; c; d; e]).
  rewrite Hlast. reflexivity.
Qed.

(** X6: of the dialog history only the last five entries count: entries
    before them change nothing in the route. *)
Theorem route_context_history_window (lower : str -> str)
    (context_rules : list (str * Rules)) (message : str) (old recent : list str)
    (user_preferences : option Preferences) (time_info : option TimeInfo) :
  List.length recent = 5%nat ->
  route_context lower context_rules message (Some (old ++ recent)) user_preferences time_info
  = route_context lower context_rules message (Some recent) user_preferences time_info.
Proof.
  intro Hlen. unfold route_context.
  rewrite !history_analysis_of_Some,
    (@_analyze_history_window lower context_rules old recent Hlen).
  reflexivity.
Qed.

Lemma route_context_history_window_witness :
  route_context py_lower _build_context_rules (u "Привет")
    (Some ([u "мама"; u "папа"] ++ [u "работа"; u "проект"; u "отчет"; u "да"; u "нет"]))
    None None
  = route_context py_lower _build_context_rules (u "Привет")
      (Some [u "работа"; u "проект"; u "отчет"; u "да"; u "нет"]) None None.
Proof.
  apply (@route_context_history_window py_lower _build_context_rules (u "Привет")
           [u "мама"; u "папа"] [u "работа"; u "проект"; u "отчет"; u "да"; u "нет"]
           None None).
  reflexivity.
Defined.

Lemma contexts_of_message_once (lower : str -> str) (msg c : str) :
  (occurrences c (contexts_of_message lower _build_context_rules msg) <= 1)%nat.
Proof.
  apply Nat.le_trans with (occurrences c (List.map fst _build_context_rules));
    [|apply occurrences_NoDup, build_context_rules_keys].
  unfold contexts_of_message. generalize _build_context_rules. intro table.
  induction table as [|[n r] table IH]; [apply Nat.le_refl|].
  cbn [flat_map List.map fst snd].
  change (n :: List.map fst table) with ([n] ++ List.map fst table).
  rewrite !occurrences_app.
  destruct (existsb (fun keyword => contains keyword (lower msg)) (keywords r)).
  - lia.
  - unfold occurrences at 1. simpl List.length. lia.
Qed.

Lemma contexts_of_message_names (lower : str -> str) (msg c : str) :
  In c (contexts_of_message lower _build_context_rules msg) -> In c five_contexts.
Proof.
  unfold contexts_of_message. intro H. apply in_flat_map in H as [[n r] [Hin Hc]].
  cbn [fst snd] in Hc.
  destruct (existsb (fun keyword => contains keyword (lower msg)) (keywords r));
    [|contradiction].
  destruct Hc as [<- | []]. rewrite <- build_context_rules_names.
  apply (in_map fst) in Hin. exact Hin.
Qed.

(** X7: the recent context [_analyze_history] reports is one of the five
    contexts, and its frequency lies in (0, 1]: a message of the window
    counts at most once for a context. *)
Theorem analyze_history_frequency (lower : str -> str) (history : list str) :
  exists ha,
    _analyze_history lower _build_context_rules history = Ok ha /\
    match recent_context ha with
    | Some c =>
        In c five_contexts /\
        exists f, context_frequency ha = Some f /\ 0 < f /\ f <= 1
    | None => context_frequency ha = None
    end.
Proof.
  unfold _analyze_history. destruct history as [|m h].
  { exists no_history. split; reflexivity. }
  set (recent := if (5 <? List.length (m :: h))%nat then last_n 5 (m :: h) else m :: h).
  assert (Hrecent : (0 < List.length recent)%nat).
  { unfold recent. destruct (5 <? List.length (m :: h))%nat eqn:E.
    - apply Nat.ltb_lt in E. unfold last_n. rewrite length_skipn. lia.
    - simpl. lia. }
  set (rc := flat_map (contexts_of_message lower _build_context_rules) recent).
  destruct rc as [|c0 cs] eqn:Erc.
  { exists no_history. split; reflexivity. }
  rewrite <- Erc.
  destruct (most_common 1 (Counter rc)) as [|mc rest] eqn:Emc.
  { exists no_history. split; reflexivity. }
  assert (Hmc : In mc (Counter rc)).
  { apply (most_common_In 1). rewrite Emc. now left. }
  destruct mc as [c n]. apply Counter_spec in Hmc as [Hpos Hn].
  assert (Hle : (n <= List.length recent)%nat).
  { rewrite Hn. unfold rc. apply occurrences_flat_map.
    intro msg. apply contexts_of_message_once. }
  assert (Hlen : 0 < inject_Z (len recent)).
  { change 0 with (inject_Z 0). rewrite <- Zlt_Qlt. unfold len. lia. }
  rewrite truediv_nonzero by (apply inject_Z_pos_nonzero; unfold len; lia).
  cbn [bind fst snd]. eexists. split; [reflexivity|].
  cbn [recent_context context_frequency]. split.
  - assert (Hin : In c rc) by (apply occurrences_In; lia).
    unfold rc in Hin. apply in_flat_map in Hin as [msg [_ Hin]].
    now apply contexts_of_message_names in Hin.
  - eexists. split; [reflexivity|]. split.
    + apply Qlt_shift_div_l; [exact Hlen|]. rewrite Qmult_0_l.
      change 0 with (inject_Z 0). rewrite <- Zlt_Qlt. lia.
    + apply Qdiv_le_1; [|exact Hlen]. rewrite <- Zle_Qle. unfold len. lia.
Qed.

(** *** The suggestions of a route *)

(** Every route has a primary context of the table and the suggestions
    generated for it. *)
Lemma route_context_suggestions (lower : str -> str) (message : str)
    (dh : option (list str)) (up : option Preferences) (ti : option TimeInfo) :
  exists r,
    route_context lower _build_context_rules message dh up ti = Ok r /\
    In (primary_context r) five_contexts /\
    suggestions r
    = _generate_suggestions _build_context_rules (primary_context r)
        (_analyze_message lower _build_context_rules message) (time_analysis_of ti).
Proof.
  destruct (route_context_ranking lower message dh up ti)
    as [ha [p [ps [rest [r [_ [Hsorted [Hr [Hp _]]]]]]]]].
  exists r. split; [exact Hr|]. split.
  - rewrite Hp. assert (Hin : In (p, ps) ((p, ps) :: rest)) by (left; reflexivity).
    rewrite <- Hsorted in Hin. apply ranked_In_names in Hin as [Hc _]. exact Hc.
  - destruct (route_context_fields lower _build_context_rules message dh up ti Hr)
      as [ha' [rules [_ [_ [Hsug _]]]]].
    exact Hsug.
Qed.

Lemma str_eqb_night_professional :
  str_eqb professional professional = true /\ str_eqb (u "night") (u "night") = true.
Proof. split; apply str_eqb_refl. Qed.

(** X8: the tone suggested for the professional context is always
    "formal_respectful", whatever the message and the hour; for every other
    primary context the tone at night is "more_relaxed". *)
Theorem route_context_tone (lower : str -> str) (message : str)
    (dialog_history : option (list str)) (user_preferences : option Preferences)
    (time_info : option TimeInfo) :
  exists r,
    route_context lower _build_context_rules message dialog_history user_preferences time_info
    = Ok r /\
    (primary_context r = professional -> tone (suggestions r) = u "formal_respectful") /\
    (primary_context r <> professional ->
     current_period (time_analysis_of time_info) = Some (u "night") ->
     tone (suggestions r) = u "more_relaxed").
Proof.
  destruct (route_context_suggestions lower message dialog_history user_preferences time_info)
    as [r [Hr [_ Hsug]]].
  exists r. split; [exact Hr|]. rewrite Hsug. unfold _generate_suggestions. cbn [tone].
  split.
  - intros ->. rewrite str_eqb_refl. cbn [negb]. unfold _suggest_tone.
    replace (mem professional [friendly; creative]) with false by (vm_compute; reflexivity).
    rewrite !andb_false_r.
    replace (get tones professional) with (Some (u "formal_respectful"))
      by (vm_compute; reflexivity).
    destruct (current_period (time_analysis_of time_info));
      rewrite ?andb_false_r; reflexivity.
  - intros Hneq Hnight. rewrite Hnight. rewrite str_eqb_refl.
    apply str_eqb_neq in Hneq. rewrite Hneq. reflexivity.
Qed.

(** X9: the suggestions of every route carry four key phrases, at most three
    words to avoid, an emoji limit between 1 and 3 and a length that is
    short, medium or long. *)
Theorem route_context_suggestion_bounds (lower : str -> str) (message : str)
    (dialog_history : option (list str)) (user_preferences : option Preferences)
    (time_info : option TimeInfo) :
  exists r,
    route_context lower _build_context_rules message dialog_history user_preferences time_info
    = Ok r /\
    List.length (key_phrases (suggestions r)) = 4%nat /\
    (List.length (avoid (suggestions r)) <= 3)%nat /\
    (1 <= s_emoji_limit (suggestions r) <= 3)%Z /\
    In (s_length (suggestions r)) [u "short"; u "medium"; u "long"].
Proof.
  destruct (route_context_suggestions lower message dialog_history user_preferences time_info)
    as [r [Hr [Hin Hsug]]].
  exists r. split; [exact Hr|]. rewrite Hsug.
  generalize (_analyze_message lower _build_context_rules message).
  generalize (time_analysis_of time_info). intros ta ma.
  unfold _generate_suggestions.
  cbn [key_phrases avoid s_emoji_limit s_length].
  destruct Hin as [<- | [<- | [<- | [<- | [<- | []]]]]].
  - replace (get _build_context_rules professional) with (Some professional_rules)
      by (vm_compute; reflexivity).
    split; [vm_compute; reflexivity|]. split; [apply firstn_le_length|].
    split; [split; vm_compute; discriminate|].
    right. left. reflexivity.
  - replace (get _build_context_rules family) with (Some family_rules)
      by (vm_compute; reflexivity).
    split; [vm_compute; reflexivity|]. split; [apply firstn_le_length|].
    split; [split; vm_compute; discriminate|].
    left. reflexivity.
  - replace (get _build_context_rules romantic) with (Some romantic_rules)
      by (vm_compute; reflexivity).
    split; [vm_compute; reflexivity|]. split; [apply firstn_le_length|].
    split; [split; vm_compute; discriminate|].
    right. left. reflexivity.
  - replace (get _build_context_rules friendly) with (Some friendly_rules)
      by (vm_compute; reflexivity).
    split; [vm_compute; reflexivity|]. split; [apply firstn_le_length|].
    split; [split; vm_compute; discriminate|].
    left. reflexivity.
  - replace (get _build_context_rules creative) with (Some creative_rules)
      by (vm_compute; reflexivity).
    split; [vm_compute; reflexivity|]. split; [apply firstn_le_length|].
    split; [split; vm_compute; discriminate|].
    right. right. left. reflexivity.
Qed.

(** X10: the response type of a route is "answer" when the message contains
    a question mark, otherwise "reaction" when it contains an exclamation
    mark, and absent otherwise. *)
Theorem route_context_response_type (lower : str -> str) (message : str)
    (dialog_history : option (list str)) (user_preferences : option Preferences)
    (time_info : option TimeInfo) :
  exists r,
    route_context lower _build_context_rules message dialog_history user_preferences time_info
    = Ok r /\
    response_type (suggestions r)
    = if contains (u "?") message then Some (u "answer")
      else if contains (u "!") message then Some (u "reaction")
      else None.
Proof.
  destruct (route_context_suggestions lower message dialog_history user_preferences time_info)
    as [r [Hr [_ Hsug]]].
  exists r. split; [exact Hr|]. rewrite Hsug. unfold _generate_suggestions.
  cbn [response_type]. unfold _analyze_message.
  destruct message as [|c m]; [reflexivity|].
  cbn [flag has_questions has_exclamations]. reflexivity.
Qed.

(** *** What the optional inputs contribute *)

(** The favoured contexts of the preferences and the hour of the time
    information, when given. *)
Definition fav_of (up : option Preferences) : option (list str) :=
  match up with
  | Some p => pref_fav_contexts p
  | None => None
  end.

Definition hour_of (ti : option TimeInfo) : option Z :=
  match ti with
  | Some t => hour t
  | None => None
  end.

(** The period of an hour. *)
Definition period_of (h : Z) : str :=
  if ((6 <=? h) && (h <? 12))%Z then u "morning"
  else if ((12 <=? h) && (h <? 18))%Z then u "afternoon"
  else if ((18 <=? h) && (h <? 23))%Z then u "evening"
  else u "night".

Lemma fav_contexts_of (up : option Preferences) :
  fav_contexts (preferences_analysis_of up) = fav_of up.
Proof.
  destruct up as [[f a s]|]; [|reflexivity].
  unfold preferences_analysis_of, preferences_nonempty, fav_of.
  cbn [pref_fav_contexts pref_avoid_contexts communication_style].
  destruct f, a, s; reflexivity.
Qed.

Lemma current_period_of (ti : option TimeInfo) :
  current_period (time_analysis_of ti) = option_map period_of (hour_of ti).
Proof.
  destruct ti as [[h w d]|]; [|reflexivity].
  unfold time_analysis_of, time_info_nonempty, hour_of, _analyze_time.
  cbn [hour weekday is_holiday].
  destruct h as [h|]; [reflexivity|].
  destruct w, d; reflexivity.
Qed.

Section Ignored.

Variable lower : str -> str.
Variable context_rules : list (str * Rules).

Lemma context_scores_ext (message : str) (ha : HistoryAnalysis) (ta ta' : TimeAnalysis)
    (pa pa' : PreferencesAnalysis) :
  current_period ta = current_period ta' ->
  fav_contexts pa = fav_contexts pa' ->
  context_scores lower context_rules message ha ta pa
  = context_scores lower context_rules message ha ta' pa'.
Proof.
  intros Ht Hp. unfold context_scores. apply map_ext. intros [n r].
  unfold context_score. now rewrite Ht, Hp.
Qed.

Lemma _generate_suggestions_ext (c : str) (ma : option MessageAnalysis)
    (ta ta' : TimeAnalysis) :
  current_period ta = current_period ta' ->
  _generate_suggestions context_rules c ma ta = _generate_suggestions context_rules c ma ta'.
Proof. intro Ht. unfold _generate_suggestions. now rewrite Ht. Qed.

(** X11: of the user preferences the router reads the favoured contexts
    only, and of the time information the hour only: the contexts to avoid,
    the communication style, the weekday and the holiday flag change nothing
    in the route. *)
Theorem route_context_ignored_inputs (message : str) (dialog_history : option (list str))
    (up up' : option Preferences) (ti ti' : option TimeInfo) :
  fav_of up = fav_of up' ->
  hour_of ti = hour_of ti' ->
  route_context lower context_rules message dialog_history up ti
  = route_context lower context_rules message dialog_history up' ti'.
Proof.
  intros Hfav Hhour.
  assert (Ht : current_period (time_analysis_of ti) = current_period (time_analysis_of ti'))
    by now rewrite !current_period_of, Hhour.
  assert (Hp : fav_contexts (preferences_analysis_of up)
               = fav_contexts (preferences_analysis_of up'))
    by now rewrite !fav_contexts_of.
  unfold route_context.
  destruct (history_analysis_of lower context_rules dialog_history) as [ha|e];
    [|reflexivity].
  cbn [bind].
  rewrite (context_scores_ext message ha _ _ _ _ Ht Hp).
  match goal with
  | |- bind ?chosen _ = _ => destruct chosen as [[p c]|e]
  end; [|reflexivity].
  cbn [bind fst snd].
  rewrite (_generate_suggestions_ext p (_analyze_message lower context_rules message) _ _ Ht).
  destruct (getitem context_rules p) as [rules|e]; [|reflexivity].
  cbn [bind]. now rewrite Ht.
Qed.

End Ignored.

Lemma route_context_ignored_inputs_witness :
  route_context py_lower _build_context_rules (u "Идем в кино?") None
    (Some {| pref_fav_contexts := Some [family];
             pref_avoid_contexts := Some [friendly];
             communication_style := Some (u "formal") |})
    (Some {| hour := Some 20%Z; weekday := Some 6%Z; is_holiday := Some true |})
  = route_context py_lower _build_context_rules (u "Идем в кино?") None
      (Some {| pref_fav_contexts := Some [family];
               pref_avoid_contexts := None;
               communication_style := None |})
      (Some {| hour := Some 20%Z; weekday := None; is_holiday := None |}).
Proof.
  apply (@route_context_ignored_inputs py_lower _build_context_rules (u "Идем в кино?") None);
    reflexivity.
Defined.

(** *** Switching contexts *)

(** The contexts a switch from [current_context] may go to. *)
Definition allowed_from (current_context : str) : list str :=
  match get compatibility current_context with
  | Some l => l
  | None => []
  end.

(** The edges of the compatibility table. *)
Definition transitions : list (str * str) :=
  flat_map (fun entry => List.map (pair (fst entry)) (snd entry)) compatibility.

Lemma allowed_from_transitions (current proposed : str) :
  mem proposed (allowed_from current) = true -> In (current, proposed) transitions.
Proof.
  unfold allowed_from, transitions.
  generalize compatibility as table. induction table as [|[k l] table IH]; cbn [get].
  - discriminate.
  - cbn [flat_map fst snd]. intro H. apply in_or_app.
    destruct (str_eqb current k) eqn:E.
    + apply str_eqb_eq in E. subst k. apply mem_In in H.
      left. now apply in_map.
    + right. now apply IH.
Qed.

Lemma transitions_symmetric (current proposed : str) :
  In (current, proposed) transitions ->
  mem current (allowed_from proposed) = true.
Proof.
  unfold transitions, compatibility. cbn [flat_map List.map fst snd app In].
  intro H.
  repeat (destruct H as [H | H];
          [injection H as <- <-; vm_compute; reflexivity|]).
  destruct H.
Qed.

Lemma allowed_from_symmetric (current proposed : str) :
  mem proposed (allowed_from current) = mem current (allowed_from proposed).
Proof.
  destruct (mem proposed (allowed_from current)) eqn:E1.
  - symmetry. now apply transitions_symmetric, allowed_from_transitions.
  - destruct (mem current (allowed_from proposed)) eqn:E2; [|reflexivity].
    apply allowed_from_transitions, transitions_symmetric in E2. congruence.
Qed.

Lemma validate_context_switch_flag (lower : str -> str)
    (context_rules : list (str * Rules)) (current proposed : str) (history : list str) :
  fst (validate_context_switch lower context_rules current proposed history)
  = str_eqb current proposed || mem proposed (allowed_from current).
Proof.
  unfold validate_context_switch. fold (allowed_from current).
  destruct (str_eqb current proposed); [reflexivity|].
  destruct (mem proposed (allowed_from current)); cbn [negb orb]; [|reflexivity].
  match goal with |- fst (if ?b then _ else _) = _ => destruct b end; reflexivity.
Qed.

(** X13: whether [validate_context_switch] allows a switch depends neither
    on its direction nor on the history, the rule table or the case
    folding: the switch from one context to another is allowed exactly
    when the switch back is, for all strings given as contexts. *)
Theorem validate_context_switch_symmetric (lower lower' : str -> str)
    (context_rules context_rules' : list (str * Rules)) (current proposed : str)
    (history history' : list str) :
  fst (validate_context_switch lower context_rules current proposed history)
  = fst (validate_context_switch lower' context_rules' proposed current history').
Proof.
  rewrite !validate_context_switch_flag, allowed_from_symmetric.
  f_equal. destruct (str_eqb current proposed) eqn:E.
  - apply str_eqb_eq in E. subst. symmetry. apply str_eqb_refl.
  - destruct (str_eqb proposed current) eqn:E'; [|reflexivity].
    apply str_eqb_eq in E'. subst. rewrite str_eqb_refl in E. discriminate.
Qed.

End RouterProperties.

(** ** Properties of [suggest_multiple_contexts] *)

Module SuggestProperties.

Import PyFacts MoreFacts ContextRouter ContextRouterFacts ContextRouterRest RouterProperties.

(** The number of words of a list that occur in a text, as a number. *)
Definition found_in (text : str) (words : list str) : Q :=
  inject_Z (Z.of_nat (List.length (filter (fun w => contains w text) words))).

Lemma found_in_nonneg (text : str) (words : list str) : 0 <= found_in text words.
Proof. unfold found_in. apply inject_Z_nonneg. lia. Qed.

Lemma found_in_nil (text : str) : found_in text [] == 0.
Proof. reflexivity. Qed.

Lemma found_in_cons (text : str) (w : str) (words : list str) :
  found_in text (w :: words)
  == (if contains w text then 1 else 0) + found_in text words.
Proof.
  unfold found_in. cbn [filter]. destruct (contains w text).
  - cbn [List.length]. rewrite Nat2Z.inj_succ, <- Z.add_1_l, inject_Z_plus. reflexivity.
  - lra.
Qed.

Lemma found_in_positive (text : str) (words : list str) :
  0 < found_in text words <-> existsb (fun w => contains w text) words = true.
Proof.
  unfold found_in. rewrite existsb_exists. change 0 with (inject_Z 0).
  rewrite <- Zlt_Qlt. split.
  - intro H. destruct (filter (fun w => contains w text) words) as [|w f] eqn:E;
      [simpl in H; lia|].
    assert (Hw : In w (filter (fun w => contains w text) words)) by (rewrite E; now left).
    apply filter_In in Hw. now exists w.
  - intros [w [Hin Hc]].
    assert (Hw : In w (filter (fun w => contains w text) words))
      by (apply filter_In; now split).
    destruct (filter (fun w => contains w text) words); [contradiction|].
    simpl List.length. lia.
Qed.

(** The keyword loop adds 0.3 per keyword found and records the keywords
    found, in the order of the rule. *)
Lemma keyword_pass_from (text : str) (kws : list str) (q : Q) (acc : list str) :
  let r := fold_left (fun (acc : Q * list str) keyword =>
                        if contains keyword text
                        then (fst acc + 0.3, snd acc ++ [keyword])
                        else acc) kws (q, acc) in
  snd r = acc ++ filter (fun kw => contains kw text) kws /\
  fst r == q + 0.3 * found_in text kws.
Proof.
  cbv zeta. revert q acc.
  induction kws as [|kw kws IH]; intros q acc; cbn [fold_left filter fst snd].
  - split; [now rewrite app_nil_r|]. rewrite found_in_nil. lra.
  - destruct (contains kw text) eqn:E; cbn [fst snd].
    + destruct (IH (q + 0.3) (acc ++ [kw])) as [Hs Hf]. split.
      * rewrite Hs, <- app_assoc. reflexivity.
      * rewrite Hf, found_in_cons, E. lra.
    + destruct (IH q acc) as [Hs Hf]. split; [exact Hs|].
      rewrite Hf, found_in_cons, E. lra.
Qed.

Lemma keyword_pass_spec (text : str) (kws : list str) :
  snd (keyword_pass text kws) = filter (fun kw => contains kw text) kws /\
  fst (keyword_pass text kws) == 0.3 * found_in text kws.
Proof.
  unfold keyword_pass.
  destruct (keyword_pass_from text kws 0.0 []) as [Hs Hf]. split; [exact Hs|].
  rewrite Hf. lra.
Qed.

Lemma emoji_pass_spec (message : str) (es : list str) (q : Q) :
  emoji_pass message es q == q + 0.2 * found_in message es.
Proof.
  unfold emoji_pass. revert q. induction es as [|e es IH]; intro q; cbn [fold_left].
  - rewrite found_in_nil. lra.
  - rewrite found_in_cons. destruct (contains e message); rewrite IH; lra.
Qed.

(** The emojis of a rule, none when the key is absent. *)
Definition emojis_of (rules : Rules) : list str :=
  match emojis rules with Some es => es | None => [] end.

Section Suggest.

Variable lower : str -> str.
Variable context_rules : list (str * Rules).

(** The score of a context: 0.3 per keyword in the lower-cased message and
    0.2 per emoji in the message. *)
Definition suggestion_score (message : str) (rules : Rules) : Q :=
  0.3 * found_in (lower message) (keywords rules)
  + 0.2 * found_in message (emojis_of rules).

Lemma suggestion_of_spec (message : str) (cr : str * Rules) (s : ContextSuggestion) :
  In s (suggestion_of message (lower message) cr) ->
  context s = fst cr /\
  score s == suggestion_score message (snd cr) /\
  0 < score s /\
  matched_keywords s
  = firstn 3 (filter (fun kw => contains kw (lower message)) (keywords (snd cr))) /\
  description s = _get_context_description (fst cr).
Proof.
  unfold suggestion_of.
  destruct (keyword_pass_spec (lower message) (keywords (snd cr))) as [Hs Hf].
  set (sc := match emojis (snd cr) with
             | Some es => emoji_pass message es (fst (keyword_pass (lower message)
                                                        (keywords (snd cr))))
             | None => fst (keyword_pass (lower message) (keywords (snd cr)))
             end).
  assert (Hsc : sc == suggestion_score message (snd cr)).
  { unfold sc, suggestion_score, emojis_of. destruct (emojis (snd cr)) as [es|].
    - rewrite emoji_pass_spec, Hf. reflexivity.
    - rewrite Hf, (found_in_nil message). lra. }
  destruct (Qltb 0 sc) eqn:Hpos; [|intros []].
  intros [<- | []]. cbn [context score matched_keywords description].
  split; [reflexivity|]. split; [exact Hsc|]. split; [now apply Qltb_lt|].
  split; [now rewrite Hs | reflexivity].
Qed.

Lemma suggestion_of_present (message : str) (cr : str * Rules) :
  (exists s, In s (suggestion_of message (lower message) cr))
  <-> mentions lower message (keywords (snd cr))
      || existsb (fun e => contains e message) (emojis_of (snd cr)) = true.
Proof.
  rewrite orb_true_iff. unfold mentions.
  rewrite <- !found_in_positive.
  pose proof (found_in_nonneg (lower message) (keywords (snd cr))) as Hk.
  pose proof (found_in_nonneg message (emojis_of (snd cr))) as He.
  split.
  - intros [s Hs]. apply suggestion_of_spec in Hs as [_ [Hsc [Hpos _]]].
    rewrite Hsc in Hpos. unfold suggestion_score in Hpos.
    destruct (Qlt_le_dec 0 (found_in (lower message) (keywords (snd cr))));
      [now left|]. right. lra.
  - intro H.
    assert (Hpos : 0 < suggestion_score message (snd cr)).
    { unfold suggestion_score. destruct H; lra. }
    unfold suggestion_of.
    destruct (keyword_pass_spec (lower message) (keywords (snd cr))) as [_ Hf].
    match goal with
    | |- exists s, In s (if Qltb 0 ?sc then _ else _) =>
        assert (Hsc : sc == suggestion_score message (snd cr))
    end.
    { unfold suggestion_score, emojis_of. destruct (emojis (snd cr)) as [es|].
      - rewrite emoji_pass_spec, Hf. reflexivity.
      - rewrite Hf, (found_in_nil message). lra. }
    rewrite <- Hsc in Hpos. apply Qltb_lt in Hpos. rewrite Hpos.
    eexists. left. reflexivity.
Qed.

Lemma In_slice_to {A : Type} (n : Z) (l : list A) (x : A) : In x (slice_to n l) -> In x l.
Proof. unfold slice_to. destruct (0 <=? n)%Z; apply In_firstn. Qed.

Lemma suggestions_In (message : str) (n : Z) (s : ContextSuggestion) :
  In s (suggest_multiple_contexts lower context_rules message n) ->
  message <> [] /\
  exists cr, In cr context_rules /\ In s (suggestion_of message (lower message) cr).
Proof.
  unfold suggest_multiple_contexts. destruct message as [|c m]; [intros []|].
  intro H. split; [discriminate|].
  apply In_slice_to in H.
  apply (Permutation_in _ (sorted_desc_perm suggestion_gt _)) in H.
  apply in_flat_map in H. exact H.
Qed.

End Suggest.

Lemma StronglySorted_firstn {A : Type} (R : A -> A -> Prop) (n : nat) (l : list A) :
  StronglySorted R l -> StronglySorted R (firstn n l).
Proof.
  intro H. revert n. induction H as [|a l Hs IH Ha]; intro n.
  - rewrite firstn_nil. constructor.
  - destruct n as [|n]; simpl; constructor; [apply IH|].
    rewrite Forall_forall in *. intros x Hx. apply Ha. now apply In_firstn in Hx.
Qed.

Lemma NoDup_map_firstn {A B : Type} (f : A -> B) (n : nat) (l : list A) :
  NoDup (List.map f l) -> NoDup (List.map f (firstn n l)).
Proof.
  revert n. induction l as [|x l IH]; intros n H.
  - rewrite firstn_nil. constructor.
  - destruct n as [|n]; simpl; [constructor|].
    simpl in H. inversion H as [|? ? Hnotin Hnd]; subst.
    constructor; [|now apply IH].
    intro Hin. apply Hnotin. apply in_map_iff in Hin as [y [Ey Hy]].
    apply in_map_iff. exists y. split; [exact Ey | now apply In_firstn in Hy].
Qed.

Lemma slice_to_all {A : Type} (n : Z) (l : list A) :
  (Z.of_nat (List.length l) <= n)%Z -> slice_to n l = l.
Proof.
  intro H. unfold slice_to.
  replace (0 <=? n)%Z with true by (symmetry; apply Z.leb_le; lia).
  apply firstn_all2. lia.
Qed.

Lemma slice_to_length {A : Type} (n : Z) (l : list A) :
  (0 <= n)%Z -> (List.length (slice_to n l) <= Z.to_nat n)%nat.
Proof.
  intro H. unfold slice_to.
  replace (0 <=? n)%Z with true by (symmetry; apply Z.leb_le; lia).
  apply firstn_le_length.
Qed.

Lemma slice_to_le {A : Type} (n : Z) (l : list A) :
  (List.length (slice_to n l) <= List.length l)%nat.
Proof.
  unfold slice_to. destruct (0 <=? n)%Z; rewrite length_firstn; lia.
Qed.

Lemma suggestion_gt_asym (a b : ContextSuggestion) :
  suggestion_gt a b = true -> suggestion_gt b a = false.
Proof. unfold suggestion_gt. rewrite Qltb_lt, Qltb_ge. apply Qlt_le_weak. Qed.

Lemma suggestion_ge_trans (a b c : ContextSuggestion) :
  suggestion_gt b a = false -> suggestion_gt c b = false -> suggestion_gt c a = false.
Proof.
  unfold suggestion_gt. rewrite !Qltb_ge. intros H1 H2. now apply Qle_trans with (score b).
Qed.

Lemma candidates_contexts (lower : str -> str) (message : str)
    (table : list (str * Rules)) :
  NoDup (List.map fst table) ->
  NoDup (List.map context (flat_map (suggestion_of message (lower message)) table)) /\
  (List.length (flat_map (suggestion_of message (lower message)) table)
   <= List.length table)%nat /\
  forall c, In c (List.map context (flat_map (suggestion_of message (lower message)) table))
            -> In c (List.map fst table).
Proof.
  induction table as [|cr table IH]; intro Hnd.
  - repeat split; [constructor | simpl; lia | intros c []].
  - simpl in Hnd. inversion Hnd as [|? ? Hnotin Hnd']; subst.
    destruct (IH Hnd') as [IH1 [IH2 IH3]].
    cbn [flat_map]. rewrite map_app, length_app.
    assert (Hone : suggestion_of message (lower message) cr = [] \/
                   exists s, suggestion_of message (lower message) cr = [s] /\
                             context s = fst cr).
    { unfold suggestion_of.
      match goal with |- context [Qltb 0 ?sc] => destruct (Qltb 0 sc) end;
        [right; eexists; split; reflexivity | now left]. }
    destruct Hone as [-> | [s [-> Hs]]]; cbn [List.map app List.length].
    + repeat split; [exact IH1 | lia | intros c Hc; right; now apply IH3].
    + repeat split.
      * constructor; [|exact IH1]. rewrite Hs. intro Hin. apply Hnotin. now apply IH3.
      * lia.
      * intros c [<- | Hc]; [left; now rewrite Hs | right; now apply IH3].
Qed.

(** X14: every suggestion of [suggest_multiple_contexts] names a context of
    the rule table one of whose keywords occurs in the lower-cased message
    or one of whose emojis occurs in the message, has a positive score,
    lists the first three keywords found, and carries the description of
    its context. *)
Theorem suggest_multiple_contexts_sound (lower : str -> str)
    (context_rules : list (str * Rules)) (message : str) (num_suggestions : Z) :
  Forall (fun s =>
            exists rules,
              In (context s, rules) context_rules /\
              mentions lower message (keywords rules)
              || existsb (fun e => contains e message) (emojis_of rules) = true /\
              0 < score s /\
              matched_keywords s
              = firstn 3 (filter (fun kw => contains kw (lower message)) (keywords rules)) /\
              description s = _get_context_description (context s))
         (suggest_multiple_contexts lower context_rules message num_suggestions).
Proof.
  rewrite Forall_forall. intros s Hs.
  apply suggestions_In in Hs as [_ [[n rules] [Hin Hs]]].
  assert (Hfound : exists s', In s' (suggestion_of message (lower message) (n, rules)))
    by now exists s.
  apply suggestion_of_present in Hfound.
  apply suggestion_of_spec in Hs as [Hc [_ [Hpos [Hm Hd]]]].
  cbn [fst snd] in *. exists rules. rewrite Hc.
  split; [exact Hin|]. split; [exact Hfound|]. split; [exact Hpos|].
  split; assumption.
Qed.

(** X15: the suggestions come in order of non-increasing score, name
    pairwise different contexts, are at most five, and at most
    [num_suggestions] when that number is not negative; the empty message
    has no suggestion. *)
Theorem suggest_multiple_contexts_ranked (lower : str -> str) (message : str)
    (num_suggestions : Z) :
  let result := suggest_multiple_contexts lower _build_context_rules message
                  num_suggestions in
  StronglySorted (fun a b => score b <= score a) result /\
  NoDup (List.map context result) /\
  (List.length result <= 5)%nat /\
  ((0 <= num_suggestions)%Z -> (List.length result <= Z.to_nat num_suggestions)%nat) /\
  suggest_multiple_contexts lower _build_context_rules [] num_suggestions = [].
Proof.
  cbv zeta. unfold suggest_multiple_contexts.
  destruct message as [|c m].
  { repeat split; try constructor; simpl; intros; lia. }
  set (cands := flat_map (suggestion_of (c :: m) (lower (c :: m))) _build_context_rules).
  destruct (@candidates_contexts lower (c :: m) _build_context_rules
              build_context_rules_keys) as [Hnd [Hlen _]].
  fold cands in Hnd, Hlen.
  pose proof (sorted_desc_perm suggestion_gt cands) as Hperm.
  split; [|split; [|split; [|split]]].
  - unfold slice_to. destruct (0 <=? num_suggestions)%Z;
      apply StronglySorted_firstn;
      apply StronglySorted_weaken
        with (R := fun a b : ContextSuggestion => suggestion_gt b a = false);
      try (intros a b Hab; unfold suggestion_gt in Hab; now apply Qltb_ge in Hab);
      apply (@sorted_desc_sorted _ suggestion_gt suggestion_gt_asym suggestion_ge_trans).
  - unfold slice_to. destruct (0 <=? num_suggestions)%Z;
      apply NoDup_map_firstn;
      apply (Permutation_NoDup (Permutation_sym (Permutation_map context Hperm)));
      exact Hnd.
  - eapply Nat.le_trans; [apply slice_to_le|].
    rewrite (Permutation_length Hperm).
    eapply Nat.le_trans; [exact Hlen|]. apply Nat.le_refl.
  - apply slice_to_length.
  - reflexivity.
Qed.

(** X16: when at least five suggestions are asked for and the message is
    not empty, a context of the table is suggested exactly when the message
    mentions one of its keywords, case-insensitively, or contains one of its
    emojis. *)
Theorem suggest_multiple_contexts_complete (lower : str -> str) (message : str)
    (num_suggestions : Z) (name : str) (rules : Rules) :
  message <> [] ->
  (5 <= num_suggestions)%Z ->
  In (name, rules) _build_context_rules ->
  (exists s,
     In s (suggest_multiple_contexts lower _build_context_rules message num_suggestions) /\
     context s = name)
  <-> mentions lower message (keywords rules)
      || existsb (fun e => contains e message) (emojis_of rules) = true.
Proof.
  intros Hne Hn Hin. unfold suggest_multiple_contexts.
  destruct message as [|c m]; [congruence|].
  set (cands := flat_map (suggestion_of (c :: m) (lower (c :: m))) _build_context_rules).
  destruct (@candidates_contexts lower (c :: m) _build_context_rules
              build_context_rules_keys) as [_ [Hlen _]].
  fold cands in Hlen.
  pose proof (sorted_desc_perm suggestion_gt cands) as Hperm.
  rewrite slice_to_all
    by (rewrite (Permutation_length Hperm); simpl List.length in Hlen; lia).
  rewrite <- (suggestion_of_present lower (c :: m) (name, rules)). split.
  - intros [s [Hs Hc]]. apply (Permutation_in _ Hperm) in Hs.
    unfold cands in Hs. apply in_flat_map in Hs as [[n r] [Hnr Hs]].
    pose proof (suggestion_of_spec lower (c :: m) (n, r) s Hs) as [Hcs _].
    cbn [fst] in Hcs. rewrite Hc in Hcs. subst n.
    apply (get_Some_In _ name r build_context_rules_keys) in Hnr.
    apply (get_Some_In _ name rules build_context_rules_keys) in Hin.
    rewrite Hin in Hnr. injection Hnr as <-. now exists s.
  - intros [s Hs]. exists s. split.
    + apply (Permutation_in _ (Permutation_sym Hperm)). unfold cands.
      apply in_flat_map. exists (name, rules). split; assumption.
    + now apply suggestion_of_spec in Hs as [Hc _].
Qed.

Lemma suggest_multiple_contexts_complete_witness :
  (exists s,
     In s (suggest_multiple_contexts py_lower _build_context_rules
             (u "Пойдем в кино? 😍") 5) /\
     context s = romantic)
  <-> mentions py_lower (u "Пойдем в кино? 😍") (keywords romantic_rules)
      || existsb (fun e => contains e (u "Пойдем в кино? 😍")) (emojis_of romantic_rules)
      = true.
Proof.
  apply (@suggest_multiple_contexts_complete py_lower (u "Пойдем в кино? 😍") 5
           romantic romantic_rules).
  - vm_compute. discriminate.
  - vm_compute. discriminate.
  - right. right. left. reflexivity.
Defined.

End SuggestProperties.

(** ** More properties of the style analyzer *)

Module AnalyzerProperties.

Import PyFacts MoreFacts CommunicationStyleAnalyzer AnalyzerFacts.

(** The names of the pattern table, in its order. *)
Definition pattern_contexts : list str :=
  [u "professional"; u "family"; u "romantic"; u "friendly"; u "creative"].

Lemma pattern_names : List.map fst _load_context_patterns = pattern_contexts.
Proof. reflexivity. Qed.

Lemma response_style_names : List.map fst response_styles = pattern_contexts.
Proof. reflexivity. Qed.

(** The context [analyze_context] starts from: the known context when it is
    a key of the pattern table, the best-scoring context otherwise. *)
Definition base_context (lower : str -> str) (text : str) (dialog_context : option str)
  : str :=
  match
    match dialog_context with
    | Some (c :: dc) =>
        match get _load_context_patterns (c :: dc) with
        | Some _ => Some (c :: dc)
        | None => None
        end
    | _ => None
    end
  with
  | Some dc => dc
  | None =>
      match List.map (fun cp : str * Patterns =>
                        (fst cp, pattern_score (lower text) (snd cp)))
                     _load_context_patterns
      with
      | first :: rest => fst (max_from first rest)
      | [] => u "friendly"
      end
  end.

Section Parts.

Variable lower : str -> str.

(** What the analysis of a non-empty text is made of. *)
Lemma analyze_context_parts (text : str) (dialog_context : option str) :
  text <> [] ->
  exists a f e ef rs,
    analyze_context lower text dialog_context = Ok a /\
    _calculate_formality lower text = Ok f /\
    _calculate_emotionality lower text = Ok e /\
    _calculate_emoji_frequency text = Ok ef /\
    detected_context a = overridden lower text (base_context lower text dialog_context) /\
    characteristics a
    = Some {| formality := f;
              emotionality := e;
              humor_level := _calculate_humor_level lower text;
              emoji_frequency := ef;
              message_length := _classify_length text;
              contains_questions := contains (u "?") text;
              contains_exclamations := contains (u "!") text;
              word_count := len (split text) |} /\
    suggested_responses a = Some rs /\
    _suggest_response_style (detected_context a)
      {| formality := f;
         emotionality := e;
         humor_level := _calculate_humor_level lower text;
         emoji_frequency := ef;
         message_length := _classify_length text;
         contains_questions := contains (u "?") text;
         contains_exclamations := contains (u "!") text;
         word_count := len (split text) |} = Ok rs.
Proof.
  intro Hne. destruct text as [|c t]; [congruence|].
  unfold analyze_context.
  destruct (_calculate_formality_ok lower (c :: t)) as [f Hf]. rewrite Hf. cbn [bind].
  destruct (_calculate_emotionality_ok lower (c :: t)) as [e He]. rewrite He. cbn [bind].
  destruct (_calculate_emoji_frequency_ok (c :: t)) as [ef Hef]. rewrite Hef. cbn [bind].
  match goal with
  | |- context [_suggest_response_style ?ctx ?chars] =>
      destruct (_suggest_response_style_ok ctx chars) as [rs Hrs]; rewrite Hrs
  end.
  cbn [bind]. eexists. exists f, e, ef, rs. split; [reflexivity|].
  cbn [detected_context characteristics suggested_responses].
  split; [reflexivity|]. split; [reflexivity|]. split; [reflexivity|].
  split; [reflexivity|]. split; [reflexivity|]. split; [reflexivity|].
  exact Hrs.
Qed.

(** The four ratios lie between 0 and 1. *)
Lemma ratio_unit (count : Z) (words : list str) (w : str) (k : Q) :
  (0 <= count)%Z -> 0 <= k ->
  exists r,
    truediv (inject_Z count) (inject_Z (len (w :: words))) = Ok r /\
    0 <= r * k.
Proof.
  intros Hc Hk. rewrite truediv_nonzero by apply len_cons_nonzero.
  eexists. split; [reflexivity|].
  apply Qmult_le_0_compat; [|exact Hk].
  apply Qdiv_nonneg; [now apply inject_Z_nonneg|].
  change 0 with (inject_Z 0). rewrite <- Zlt_Qlt. unfold len. simpl List.length. lia.
Qed.

Lemma _calculate_formality_unit (text : str) (f : Q) :
  _calculate_formality lower text = Ok f -> 0 <= f /\ f <= 1.
Proof.
  unfold _calculate_formality. destruct (split (lower text)) as [|w ws].
  - intros [= <-]. split; lra.
  - match goal with
    | |- context [truediv (inject_Z ?cnt) _] =>
        destruct (@ratio_unit cnt ws w 3) as [r [Hr Hpos]];
          [apply count_if_nonneg | lra |]
    end.
    rewrite Hr. cbn [bind]. intros [= <-]. now apply Qmin_unit.
Qed.

Lemma _calculate_emotionality_unit (text : str) (e : Q) :
  _calculate_emotionality lower text = Ok e -> 0 <= e /\ e <= 1.
Proof.
  unfold _calculate_emotionality.
  assert (Hrest : forall s0 emo excl, 0 <= s0 -> (0 <= emo)%Z -> (0 <= excl)%Z ->
            0 <= s0 + inject_Z emo * 0.1 + Qmin (inject_Z excl * 0.05) 0.3).
  { intros s0 emo excl Hs He Hx.
    assert (0 <= inject_Z emo) by now apply inject_Z_nonneg.
    assert (0 <= inject_Z excl) by now apply inject_Z_nonneg.
    assert (0 <= Qmin (inject_Z excl * 0.05) 0.3)
      by (apply Q.min_glb; [apply Qmult_le_0_compat|]; lra).
    assert (0 <= inject_Z emo * 0.1) by (apply Qmult_le_0_compat; lra).
    lra. }
  destruct (split (lower text)) as [|w ws].
  - cbn [bind]. intros [= <-]. apply Qmin_unit.
    apply Hrest; [lra | apply count_if_nonneg | lia].
  - match goal with
    | |- context [truediv (inject_Z ?cnt) _] =>
        destruct (@ratio_unit cnt ws w 2) as [r [Hr Hpos]];
          [apply count_if_nonneg | lra |]
    end.
    rewrite Hr. cbn [bind]. intros [= <-]. apply Qmin_unit.
    apply Hrest; [lra | apply count_if_nonneg | lia].
Qed.

Lemma add_matches_nonneg (text : str) (step : Q) (words : list str) (score : Q) :
  0 <= step -> 0 <= score -> 0 <= add_matches text step words score.
Proof.
  intro Hstep. unfold add_matches. revert score.
  induction words as [|w words IH]; intros score Hs; cbn [fold_left]; [exact Hs|].
  apply IH. destruct (contains w text); lra.
Qed.

Lemma _calculate_humor_level_unit (text : str) :
  0 <= _calculate_humor_level lower text /\ _calculate_humor_level lower text <= 1.
Proof.
  unfold _calculate_humor_level. apply Qmin_unit. apply add_matches_nonneg; lra.
Qed.

Lemma _calculate_emoji_frequency_unit (text : str) (ef : Q) :
  _calculate_emoji_frequency text = Ok ef -> 0 <= ef /\ ef <= 1.
Proof.
  unfold _calculate_emoji_frequency. destruct text as [|c t].
  - intros [= <-]. split; lra.
  - rewrite truediv_nonzero by apply len_cons_nonzero. cbn [bind].
    intros [= <-]. apply Qmin_unit. apply Qmult_le_0_compat; [|lra].
    apply Qdiv_nonneg; [apply inject_Z_nonneg; unfold len; lia|].
    change 0 with (inject_Z 0). rewrite <- Zlt_Qlt. unfold len. simpl List.length. lia.
Qed.

End Parts.

(** The bounds of the characteristics of a non-empty text. *)
Definition characteristics_bounded (ch : Characteristics) : Prop :=
  0 <= formality ch <= 1 /\
  0 <= emotionality ch <= 1 /\
  0 <= humor_level ch <= 1 /\
  0 <= emoji_frequency ch <= 1 /\
  (0 <= word_count ch)%Z /\
  message_length ch
  = (if (word_count ch <? 5)%Z then u "short"
     else if (word_count ch <? 20)%Z then u "medium"
     else u "long").

Lemma analyze_context_bounded (lower : str -> str) (text : str)
    (dialog_context : option str) :
  text <> [] ->
  exists a ch,
    analyze_context lower text dialog_context = Ok a /\
    characteristics a = Some ch /\
    characteristics_bounded ch.
Proof.
  intro Hne.
  destruct (@analyze_context_parts lower text dialog_context Hne)
    as [a [f [e [ef [rs [Ha [Hf [He [Hef [_ [Hch _]]]]]]]]]]].
  exists a. eexists. split; [exact Ha|]. split; [exact Hch|].
  unfold characteristics_bounded.
  cbn [formality emotionality humor_level emoji_frequency word_count message_length].
  split; [now apply (_calculate_formality_unit lower text)|].
  split; [now apply (_calculate_emotionality_unit lower text)|].
  split; [apply _calculate_humor_level_unit|].
  split; [now apply (_calculate_emoji_frequency_unit text)|].
  split; [unfold len; lia | reflexivity].
Qed.

(** X17: for every text, [analyze_context] returns characteristics exactly
    when the text is not empty, and then formality, emotionality, humor
    level and emoji frequency lie between 0 and 1, the word count is not
    negative, and the length class is "short" below 5 words, "medium" below
    20 and "long" from 20 on. *)
Theorem analyze_context_characteristics_bounds (lower : str -> str) (text : str)
    (dialog_context : option str) :
  exists a,
    analyze_context lower text dialog_context = Ok a /\
    match characteristics a with
    | None => text = []
    | Some ch =>
        text <> [] /\
        0 <= formality ch <= 1 /\
        0 <= emotionality ch <= 1 /\
        0 <= humor_level ch <= 1 /\
        0 <= emoji_frequency ch <= 1 /\
        (0 <= word_count ch)%Z /\
        message_length ch
        = (if (word_count ch <? 5)%Z then u "short"
           else if (word_count ch <? 20)%Z then u "medium"
           else u "long")
    end.
Proof.
  destruct text as [|c t].
  { eexists. split; [reflexivity|]. reflexivity. }
  destruct (@analyze_context_bounded lower (c :: t) dialog_context)
    as [a [ch [Ha [Hch Hb]]]]; [discriminate|].
  exists a. split; [exact Ha|]. rewrite Hch. split; [discriminate | exact Hb].
Qed.

(** *** The detected context *)

Lemma get_In {V : Type} (d : list (str * V)) (k : str) (v : V) :
  get d k = Some v -> In (k, v) d.
Proof.
  induction d as [|[k' v'] d IH]; simpl; [discriminate|].
  destruct (str_eqb k k') eqn:E.
  - apply str_eqb_eq in E. subst k'. intros [= ->]. now left.
  - intro H. right. now apply IH.
Qed.

(** [max] returns the first of the entries with the greatest value. *)
Lemma max_from_split (b : str * Q) (l : list (str * Q)) :
  exists before after,
    b :: l = before ++ max_from b l :: after /\
    (forall x, In x before -> snd x < snd (max_from b l)) /\
    (forall x, In x after -> snd x <= snd (max_from b l)).
Proof.
  revert b. induction l as [|x t IH]; intro b; cbn [max_from].
  - exists [], []. repeat split; intros y [].
  - destruct (Qltb (snd b) (snd x)) eqn:E.
    + apply Qltb_lt in E.
      destruct (IH x) as [before [after [Hsplit [Hb Ha]]]].
      exists (b :: before), after. split; [cbn [app]; now rewrite <- Hsplit|].
      split; [|exact Ha].
      intros y [<- | Hy]; [|now apply Hb].
      destruct before as [|z before].
      * cbn [app] in Hsplit. injection Hsplit as Hx _. now rewrite <- Hx.
      * cbn [app] in Hsplit. injection Hsplit as <- _.
        apply Qlt_trans with (snd x); [exact E|]. apply Hb. now left.
    + apply Qltb_ge in E.
      destruct (IH b) as [before [after [Hsplit [Hb Ha]]]].
      destruct before as [|z before].
      * cbn [app] in Hsplit. injection Hsplit as Hm Ht.
        exists [], (x :: after). split; [cbn [app]; now rewrite <- Hm, Ht|].
        split; [intros y []|].
        intros y [<- | Hy]; [now rewrite <- Hm | now apply Ha].
      * cbn [app] in Hsplit. injection Hsplit as <- Ht.
        exists (b :: x :: before), after.
        split; [cbn [app]; now rewrite <- Ht|]. split; [|exact Ha].
        intros y [<- | [<- | Hy]].
        -- apply Hb. now left.
        -- apply Qle_lt_trans with (snd b); [exact E|]. apply Hb. now left.
        -- apply Hb. now right.
Qed.

Lemma max_from_In (b : str * Q) (l : list (str * Q)) : In (max_from b l) (b :: l).
Proof.
  destruct (max_from_split b l) as [before [after [-> _]]].
  apply in_or_app. right. now left.
Qed.

Lemma base_context_known (lower : str -> str) (text c : str) :
  In c pattern_contexts -> base_context lower text (Some c) = c.
Proof.
  intro Hin.
  assert (Hne : c <> []).
  { intros ->. unfold pattern_contexts in Hin.
    repeat (destruct Hin as [Hin | Hin]; [vm_compute in Hin; discriminate|]).
    exact Hin. }
  rewrite <- pattern_names in Hin.
  destruct (get_In_key _load_context_patterns c Hin) as [v Hv].
  destruct c as [|x xs]; [congruence|].
  unfold base_context. rewrite Hv. reflexivity.
Qed.

Lemma base_context_names (lower : str -> str) (text : str) (dialog_context : option str) :
  In (base_context lower text dialog_context) pattern_contexts.
Proof.
  unfold base_context.
  assert (Hscored :
    In match List.map (fun cp : str * Patterns =>
                         (fst cp, pattern_score (lower text) (snd cp)))
                      _load_context_patterns
       with
       | first :: rest => fst (max_from first rest)
       | [] => u "friendly"
       end pattern_contexts).
  { destruct (List.map (fun cp : str * Patterns =>
                          (fst cp, pattern_score (lower text) (snd cp)))
                       _load_context_patterns) as [|first rest] eqn:E.
    - do 3 right. left. reflexivity.
    - rewrite <- pattern_names.
      replace (List.map fst _load_context_patterns)
        with (List.map fst (first :: rest))
        by (rewrite <- E, map_map; reflexivity).
      apply in_map. apply max_from_In. }
  destruct dialog_context as [[|c dc]|]; try exact Hscored.
  destruct (get _load_context_patterns (c :: dc)) as [v|] eqn:G; [|exact Hscored].
  apply get_In in G. rewrite <- pattern_names. now apply (in_map fst) in G.
Qed.

Lemma overridden_names (lower : str -> str) (text base : str) :
  In base pattern_contexts -> In (overridden lower text base) pattern_contexts.
Proof.
  intro H. unfold overridden.
  destruct (_is_work_related lower text); [left; reflexivity|].
  destruct (_is_family_related lower text); [right; left; reflexivity|].
  destruct (_is_romantic_related lower text); [do 2 right; left; reflexivity|].
  exact H.
Qed.

Lemma response_styles_bounds (c : str) (rs : ResponseStyle) :
  In (c, rs) response_styles ->
  (0 <= emoji_limit rs <= 3)%Z /\ List.length (key_phrases rs) = 4%nat.
Proof.
  intro H.
  assert (Hall : forallb (fun cs : str * ResponseStyle =>
                            (0 <=? emoji_limit (snd cs))%Z
                            && (emoji_limit (snd cs) <=? 3)%Z
                            && (List.length (key_phrases (snd cs)) =? 4)%nat)
                         response_styles = true) by (vm_compute; reflexivity).
  rewrite forallb_forall in Hall. specialize (Hall _ H). cbn [snd] in Hall.
  apply andb_true_iff in Hall as [Hall H3]. apply andb_true_iff in Hall as [H1 H2].
  apply Z.leb_le in H1, H2. apply Nat.eqb_eq in H3. lia.
Qed.

Lemma _suggest_response_style_bounds (c : str) (ch : Characteristics) (rs : ResponseStyle) :
  _suggest_response_style c ch = Ok rs ->
  (0 <= emoji_limit rs <= 5)%Z /\ List.length (key_phrases rs) = 4%nat.
Proof.
  unfold _suggest_response_style.
  destruct (getitem response_styles (u "friendly")) as [fs|e] eqn:G;
    cbn [bind]; [|discriminate].
  rewrite getitem_get in G.
  destruct (get response_styles (u "friendly")) as [fs'|] eqn:G'; [|discriminate].
  injection G as ->. apply get_In in G'. apply response_styles_bounds in G'.
  set (base := match get response_styles c with Some s => s | None => fs end).
  assert (Hbase : (0 <= emoji_limit base <= 3)%Z /\ List.length (key_phrases base) = 4%nat).
  { unfold base. destruct (get response_styles c) as [s|] eqn:Gc; [|exact G'].
    apply get_In in Gc. now apply response_styles_bounds in Gc. }
  intros [= <-]. cbn [emoji_limit key_phrases].
  destruct Hbase as [Hel Hkp]. split; [|exact Hkp].
  destruct (Qltb 0.5 (emoji_frequency ch)).
  split; [apply Z.min_glb; lia | apply Z.le_min_r].
  lia.
Qed.

(** X18: the context [analyze_context] detects for a non-empty text is
    always one of the five contexts, and the response style it suggests has
    four key phrases and an emoji limit between 0 and 5. *)
Theorem analyze_context_detected_context (lower : str -> str) (text : str)
    (dialog_context : option str) :
  text <> [] ->
  exists a rs,
    analyze_context lower text dialog_context = Ok a /\
    In (detected_context a) pattern_contexts /\
    suggested_responses a = Some rs /\
    (0 <= emoji_limit rs <= 5)%Z /\
    List.length (key_phrases rs) = 4%nat.
Proof.
  intro Hne.
  destruct (@analyze_context_parts lower text dialog_context Hne)
    as [a [f [e [ef [rs [Ha [_ [_ [_ [Hd [_ [Hrs Hstyle]]]]]]]]]]]].
  exists a, rs. split; [exact Ha|]. split.
  - rewrite Hd. apply overridden_names, base_context_names.
  - split; [exact Hrs|]. now apply _suggest_response_style_bounds in Hstyle.
Qed.

Lemma analyze_context_detected_context_witness :
  exists a rs,
    analyze_context py_lower (u "Класс, супер! 😂😂") (Some (u "boss")) = Ok a /\
    In (detected_context a) pattern_contexts /\
    suggested_responses a = Some rs /\
    (0 <= emoji_limit rs <= 5)%Z /\
    List.length (key_phrases rs) = 4%nat.
Proof.
  apply (@analyze_context_detected_context py_lower (u "Класс, супер! 😂😂")
           (Some (u "boss"))).
  vm_compute. discriminate.
Defined.

(** X19: a known context that is one of the five is taken without scoring,
    but the overrides still apply to it, in their priority: a work keyword
    gives professional, else a family keyword family, else a romantic
    keyword or emoji romantic. *)
Theorem analyze_context_known_context (lower : str -> str) (text c : str) :
  text <> [] ->
  In c pattern_contexts ->
  exists a,
    analyze_context lower text (Some c) = Ok a /\
    detected_context a
    = (if _is_work_related lower text then u "professional"
       else if _is_family_related lower text then u "family"
       else if _is_romantic_related lower text then u "romantic"
       else c).
Proof.
  intros Hne Hin.
  destruct (@analyze_context_parts lower text (Some c) Hne)
    as [a [f [e [ef [rs [Ha [_ [_ [_ [Hd _]]]]]]]]]].
  exists a. split; [exact Ha|]. rewrite Hd, (base_context_known lower text Hin).
  reflexivity.
Qed.

Lemma analyze_context_known_context_witness :
  exists a,
    analyze_context py_lower (u "Мама, привет! Как твоя работа?") (Some (u "friendly")) = Ok a /\
    detected_context a
    = (if _is_work_related py_lower (u "Мама, привет! Как твоя работа?")
       then u "professional"
       else if _is_family_related py_lower (u "Мама, привет! Как твоя работа?")
       then u "family"
       else if _is_romantic_related py_lower (u "Мама, привет! Как твоя работа?")
       then u "romantic"
       else u "friendly").
Proof.
  apply (@analyze_context_known_context py_lower (u "Мама, привет! Как твоя работа?")
           (u "friendly")).
  - vm_compute. discriminate.
  - do 3 right. left. reflexivity.
Defined.

(** All the words of the pattern table. *)
Definition pattern_words : list str :=
  flat_map (fun cp : str * Patterns =>
              formality_words (snd cp) ++ emotional_words (snd cp) ++ humor_words (snd cp))
           _load_context_patterns.

Lemma add_matches_none (text : str) (step : Q) (words : list str) (score : Q) :
  existsb (fun w => contains w text) words = false ->
  add_matches text step words score = score.
Proof.
  unfold add_matches. revert score.
  induction words as [|w words IH]; intros score H; cbn [fold_left]; [reflexivity|].
  cbn [existsb] in H. apply orb_false_iff in H as [Hw H]. rewrite Hw. now apply IH.
Qed.

Lemma existsb_flat_map_false {A : Type} (p : str -> bool) (f : A -> list str)
    (l : list A) :
  existsb p (flat_map f l) = false -> forall x, In x l -> existsb p (f x) = false.
Proof.
  induction l as [|a l IH]; simpl; intros H x Hx; [contradiction|].
  rewrite existsb_app in H. apply orb_false_iff in H as [Ha Hl].
  destruct Hx as [<- | Hx]; [exact Ha | now apply IH].
Qed.

(** X21: a non-empty text with no word of the pattern table, no override
    keyword or emoji and no known context is detected as professional, the
    first context of the table: all scores are 0 and the first entry wins
    the tie. *)
Theorem analyze_context_no_cue (lower : str -> str) (text : str) :
  text <> [] ->
  existsb (fun w => contains w (lower text)) pattern_words = false ->
  _is_work_related lower text = false ->
  _is_family_related lower text = false ->
  _is_romantic_related lower text = false ->
  exists a,
    analyze_context lower text None = Ok a /\
    detected_context a = u "professional".
Proof.
  intros Hne Hwords Hw Hf Hr.
  destruct (@analyze_context_parts lower text None Hne)
    as [a [f [e [ef [rs [Ha [_ [_ [_ [Hd _]]]]]]]]]].
  exists a. split; [exact Ha|].
  rewrite Hd. unfold overridden. rewrite Hw, Hf, Hr.
  assert (Hzero : List.map (fun cp : str * Patterns =>
                              (fst cp, pattern_score (lower text) (snd cp)))
                           _load_context_patterns
                  = List.map (fun cp : str * Patterns => (fst cp, 0.0))
                             _load_context_patterns).
  { apply map_ext_in. intros cp Hcp. f_equal.
    pose proof (existsb_flat_map_false _ _ _ Hwords cp Hcp) as Hcp'.
    cbv beta in Hcp'. rewrite !existsb_app in Hcp'.
    apply orb_false_iff in Hcp' as [H1 H23]. apply orb_false_iff in H23 as [H2 H3].
    unfold pattern_score. now rewrite !add_matches_none. }
  unfold base_context. rewrite Hzero. vm_compute. reflexivity.
Qed.

Lemma analyze_context_no_cue_witness :
  exists a,
    analyze_context py_lower (u "Привет, ты где?") None = Ok a /\
    detected_context a = u "professional".
Proof.
  apply (@analyze_context_no_cue py_lower (u "Привет, ты где?"));
    vm_compute; try reflexivity; discriminate.
Defined.

(** *** Style signatures *)

Lemma for_each_Forall2 {A B : Type} (f : A -> result B) (l : list A) (ys : list B) :
  for_each f l = Ok ys -> Forall2 (fun x y => f x = Ok y) l ys.
Proof.
  revert ys. induction l as [|x l IH]; intros ys; cbn [for_each].
  - intros [= <-]. constructor.
  - destruct (f x) as [y|e] eqn:Ey; cbn [bind]; [|discriminate].
    destruct (for_each f l) as [ys'|e]; cbn [bind]; [|discriminate].
    intros [= <-]. constructor; [exact Ey | now apply IH].
Qed.

Lemma inject_Z_len_cons {A : Type} (x : A) (l : list A) :
  inject_Z (len (x :: l)) == 1 + inject_Z (len l).
Proof.
  unfold len. cbn [List.length].
  rewrite Nat2Z.inj_succ, <- Z.add_1_l, inject_Z_plus. reflexivity.
Qed.

Lemma inject_Z_len_pos {A : Type} (l : list A) : l <> [] -> 0 < inject_Z (len l).
Proof.
  intro Hne. change 0 with (inject_Z 0). rewrite <- Zlt_Qlt. unfold len.
  destruct l; [congruence | simpl List.length; lia].
Qed.

Lemma sum_from_ge (a : Q) (l : list Q) (acc : Q) :
  Forall (fun q => a <= q) l ->
  acc + a * inject_Z (len l) <= fold_left Qplus l acc.
Proof.
  intro H. revert acc. induction H as [|q l Hq Hl IH]; intro acc.
  - cbn [fold_left]. unfold len. cbn [List.length Z.of_nat].
    change (inject_Z 0) with 0. lra.
  - cbn [fold_left]. specialize (IH (acc + q)).
    rewrite inject_Z_len_cons. lra.
Qed.

Lemma sum_from_le (b : Q) (l : list Q) (acc : Q) :
  Forall (fun q => q <= b) l ->
  fold_left Qplus l acc <= acc + b * inject_Z (len l).
Proof.
  intro H. revert acc. induction H as [|q l Hq Hl IH]; intro acc.
  - cbn [fold_left]. unfold len. cbn [List.length Z.of_nat].
    change (inject_Z 0) with 0. lra.
  - cbn [fold_left]. specialize (IH (acc + q)).
    rewrite inject_Z_len_cons. lra.
Qed.

(** The mean of a non-empty list lies between the bounds of its elements. *)
Lemma mean_ge (a : Q) (l : list Q) :
  l <> [] -> Forall (fun q => a <= q) l -> a <= mean l.
Proof.
  intros Hne H. unfold mean.
  apply Qle_shift_div_l; [now apply inject_Z_len_pos|].
  pose proof (sum_from_ge 0 H) as Hs. lra.
Qed.

Lemma mean_le (b : Q) (l : list Q) :
  l <> [] -> Forall (fun q => q <= b) l -> mean l <= b.
Proof.
  intros Hne H. unfold mean.
  apply Qle_shift_div_r; [now apply inject_Z_len_pos|].
  pose proof (sum_from_le 0 H) as Hs. lra.
Qed.

Lemma mean_unit (l : list Q) :
  l <> [] -> Forall (fun q => 0 <= q <= 1) l -> 0 <= mean l /\ mean l <= 1.
Proof.
  intros Hne H. split.
  - apply mean_ge; [exact Hne|]. eapply Forall_impl; [|exact H]. now intros q [H0 _].
  - apply mean_le; [exact Hne|]. eapply Forall_impl; [|exact H]. now intros q [_ H1].
Qed.

Lemma bool_value_unit (b : bool) : 0 <= bool_value b <= 1.
Proof. destruct b; unfold bool_value; split; lra. Qed.

(** The characteristics [extract_style_signature] averages: one per
    message, in the order of the corpus. *)
Lemma corpus_characteristics (lower : str -> str) (messages : list str) (context : str) :
  Forall (fun msg => msg <> []) messages ->
  exists chs,
    for_each (fun msg => analysis <- analyze_context lower msg (Some context) ;;
                         characteristics_of analysis) messages = Ok chs /\
    Forall2 (fun msg ch => characteristics_bounded ch /\ word_count ch = len (split msg))
            messages chs.
Proof.
  intro Hall.
  destruct (@for_each_ok _ _
              (fun msg => analysis <- analyze_context lower msg (Some context) ;;
                          characteristics_of analysis) messages) as [chs Hchs].
  { intros msg Hmsg. rewrite Forall_forall in Hall.
    apply message_characteristics_ok, Hall, Hmsg. }
  exists chs. split; [exact Hchs|].
  apply for_each_Forall2 in Hchs.
  clear -Hchs Hall. induction Hchs as [|msg ch l chs Hmsg Hrest IH]; [constructor|].
  inversion Hall as [|? ? Hne Hall']; subst.
  constructor; [|now apply IH].
  destruct (@analyze_context_parts lower msg (Some context) Hne)
    as [a [f [e [ef [rs [Ha [_ [_ [_ [_ [Hch' _]]]]]]]]]]].
  destruct (@analyze_context_bounded lower msg (Some context) Hne)
    as [a' [ch' [Ha' [Hch Hb]]]].
  rewrite Ha in Ha'. injection Ha' as <-.
  rewrite Ha in Hmsg. cbn [bind] in Hmsg. unfold characteristics_of in Hmsg.
  rewrite Hch in Hmsg. injection Hmsg as <-.
  split; [exact Hb|]. rewrite Hch' in Hch. injection Hch as <-. reflexivity.
Qed.

Lemma corpus_characteristics_bounded (messages : list str) (chs : list Characteristics) :
  Forall2 (fun msg ch => characteristics_bounded ch /\ word_count ch = len (split msg))
          messages chs ->
  Forall characteristics_bounded chs.
Proof.
  intro H. induction H as [|msg ch l chs [Hb _] _ IH]; constructor; assumption.
Qed.

Lemma corpus_word_counts (P : Z -> Prop) (messages : list str)
    (chs : list Characteristics) :
  Forall2 (fun msg ch => characteristics_bounded ch /\ word_count ch = len (split msg))
          messages chs ->
  Forall (fun msg => P (len (split msg))) messages ->
  Forall (fun ch => P (word_count ch)) chs.
Proof.
  intro H. induction H as [|msg ch l chs [_ Hw] _ IH]; intro Hall; constructor.
  - rewrite Hw. now inversion Hall.
  - apply IH. now inversion Hall.
Qed.

(** X22: the signature of a non-empty corpus without an empty message counts
    the messages, keeps the context it was given, and its averages of
    formality, emotionality, humor level, emoji frequency and of the two
    flags lie between 0 and 1; the average word count is not negative. *)
Theorem extract_style_signature_averages (lower : str -> str) (messages : list str)
    (context : str) :
  messages <> [] ->
  Forall (fun msg => msg <> []) messages ->
  exists sig,
    extract_style_signature lower messages context = Ok (Some sig) /\
    message_count sig = len messages /\
    CommunicationStyleAnalyzer.context sig = context /\
    0 <= avg_formality (avg_characteristics sig) <= 1 /\
    0 <= avg_emotionality (avg_characteristics sig) <= 1 /\
    0 <= avg_humor_level (avg_characteristics sig) <= 1 /\
    0 <= avg_emoji_frequency (avg_characteristics sig) <= 1 /\
    0 <= avg_contains_questions (avg_characteristics sig) <= 1 /\
    0 <= avg_contains_exclamations (avg_characteristics sig) <= 1 /\
    0 <= avg_word_count (avg_characteristics sig).
Proof.
  intros Hne Hall. unfold extract_style_signature.
  destruct (corpus_characteristics lower context Hall) as [chs [Hchs Hrel]].
  pose proof (Forall2_length Hrel) as Hlen.
  pose proof (corpus_characteristics_bounded Hrel) as Hb.
  destruct messages as [|m ms]; [congruence|].
  rewrite Hchs. cbn [bind]. eexists. split; [reflexivity|].
  cbn [message_count CommunicationStyleAnalyzer.context avg_characteristics
       avg_formality avg_emotionality avg_humor_level avg_emoji_frequency
       avg_contains_questions avg_contains_exclamations avg_word_count].
  split; [reflexivity|]. split; [reflexivity|].
  assert (Hchs_ne : chs <> []) by (destruct chs; [discriminate | discriminate]).
  assert (Hmap : forall f : Characteristics -> Q, List.map f chs <> []).
  { intros f E. apply map_eq_nil in E. contradiction. }
  assert (Hunit : forall f : Characteristics -> Q,
            (forall ch, characteristics_bounded ch -> 0 <= f ch <= 1) ->
            0 <= mean (List.map f chs) <= 1).
  { intros f Hf. apply mean_unit; [apply Hmap|].
    rewrite Forall_forall in *. intros q Hq. apply in_map_iff in Hq as [ch [<- Hch]].
    apply Hf, Hb, Hch. }
  split; [apply Hunit; intros ch Hch; apply Hch|].
  split; [apply Hunit; intros ch Hch; apply Hch|].
  split; [apply Hunit; intros ch Hch; apply Hch|].
  split; [apply Hunit; intros ch Hch; apply Hch|].
  split; [apply Hunit; intros ch _; apply bool_value_unit|].
  split; [apply Hunit; intros ch _; apply bool_value_unit|].
  apply mean_ge; [apply Hmap|].
  rewrite Forall_forall in *. intros q Hq. apply in_map_iff in Hq as [ch [<- Hch]].
  apply inject_Z_nonneg. apply (Hb ch Hch).
Qed.

Lemma extract_style_signature_averages_witness :
  exists sig,
    extract_style_signature py_lower [u "Привет! Как дела?"; u "Люблю тебя 😍"]
      (u "romantic") = Ok (Some sig) /\
    message_count sig = len [u "Привет! Как дела?"; u "Люблю тебя 😍"] /\
    CommunicationStyleAnalyzer.context sig = u "romantic" /\
    0 <= avg_formality (avg_characteristics sig) <= 1 /\
    0 <= avg_emotionality (avg_characteristics sig) <= 1 /\
    0 <= avg_humor_level (avg_characteristics sig) <= 1 /\
    0 <= avg_emoji_frequency (avg_characteristics sig) <= 1 /\
    0 <= avg_contains_questions (avg_characteristics sig) <= 1 /\
    0 <= avg_contains_exclamations (avg_characteristics sig) <= 1 /\
    0 <= avg_word_count (avg_characteristics sig).
Proof.
  apply (@extract_style_signature_averages py_lower
           [u "Привет! Как дела?"; u "Люблю тебя 😍"] (u "romantic")).
  - discriminate.
  - repeat constructor; vm_compute; discriminate.
Defined.

Lemma two_word_phrases_In (words : list str) (phrase : str) :
  In phrase (two_word_phrases words) ->
  exists w1 w2, phrase = w1 ++ u " " ++ w2 /\ In w1 words /\ In w2 words.
Proof.
  induction words as [|a words IH]; [intros []|].
  destruct words as [|b words]; [intros []|].
  cbn [two_word_phrases]. intros [<- | H].
  - exists a, b. split; [reflexivity|]. split; [now left | right; now left].
  - destruct (IH H) as [w1 [w2 [E [H1 H2]]]].
    exists w1, w2. split; [exact E|]. split; right; assumption.
Qed.

(** X23: the phrases of a signature are pairwise different, and each is
    made of two words of one lower-cased message joined by one space and has
    more than five characters. *)
Theorem extract_style_signature_phrase_shape (lower : str -> str) (messages : list str)
    (context : str) :
  messages <> [] ->
  Forall (fun msg => msg <> []) messages ->
  exists sig,
    extract_style_signature lower messages context = Ok (Some sig) /\
    NoDup (common_phrases sig) /\
    forall phrase,
      In phrase (common_phrases sig) ->
      (5 < List.length phrase)%nat /\
      exists msg w1 w2,
        In msg messages /\
        phrase = w1 ++ u " " ++ w2 /\
        In w1 (split (lower msg)) /\ In w2 (split (lower msg)).
Proof.
  intros Hne Hall. unfold extract_style_signature.
  destruct (corpus_characteristics lower context Hall) as [chs [Hchs _]].
  destruct messages as [|m ms]; [congruence|].
  rewrite Hchs. cbn [bind]. eexists. split; [reflexivity|].
  cbn [common_phrases]. unfold _extract_common_phrases.
  set (phrases := flat_map (message_phrases lower) (m :: ms)).
  split.
  - rewrite firstn_map. apply NoDup_map_fst_firstn, NoDup_map_fst_filter.
    apply most_common_NoDup, Counter_NoDup.
  - intros phrase Hin. apply In_firstn in Hin.
    apply in_map_iff in Hin as [[ph n] [E Hin]]. cbn [fst] in E. subst ph.
    apply filter_In in Hin as [Hin _]. apply most_common_In in Hin.
    apply Counter_spec in Hin as [Hpos Hn].
    assert (Hph : In phrase phrases) by (apply occurrences_In; lia).
    unfold phrases in Hph. apply in_flat_map in Hph as [msg [Hmsg Hph]].
    unfold message_phrases in Hph. apply filter_In in Hph as [Hph Hlen].
    apply andb_true_iff in Hlen as [Hlen _]. apply Nat.ltb_lt in Hlen.
    split; [exact Hlen|].
    destruct (two_word_phrases_In _ _ Hph) as [w1 [w2 [E [H1 H2]]]].
    exists msg, w1, w2. repeat split; assumption.
Qed.

Lemma extract_style_signature_phrase_shape_witness :
  exists sig,
    extract_style_signature py_lower greetings (u "friendly") = Ok (Some sig) /\
    NoDup (common_phrases sig) /\
    forall phrase,
      In phrase (common_phrases sig) ->
      (5 < List.length phrase)%nat /\
      exists msg w1 w2,
        In msg greetings /\
        phrase = w1 ++ u " " ++ w2 /\
        In w1 (split (py_lower msg)) /\ In w2 (split (py_lower msg)).
Proof.
  apply (@extract_style_signature_phrase_shape py_lower greetings (u "friendly")).
  - discriminate.
  - repeat constructor; vm_compute; discriminate.
Defined.

(** X24: the description of the signature of a non-empty corpus without an
    empty message is made of three words joined by a comma and a space: one
    for formality, one for emotionality, one for length. The last one is
    "лаконичный" when no message has more than 5 words and "развернутый"
    when every message has more than 15. *)
Theorem extract_style_signature_description (lower : str -> str) (messages : list str)
    (context : str) :
  messages <> [] ->
  Forall (fun msg => msg <> []) messages ->
  exists sig d1 d2 d3,
    extract_style_signature lower messages context = Ok (Some sig) /\
    style_description sig = d1 ++ u ", " ++ d2 ++ u ", " ++ d3 /\
    In d1 [u "формальный"; u "умеренно формальный"; u "неформальный"] /\
    In d2 [u "эмоциональный"; u "умеренно эмоциональный"; u "сдержанный"] /\
    In d3 [u "развернутый"; u "умеренный по длине"; u "лаконичный"] /\
    (Forall (fun msg => (len (split msg) <= 5)%Z) messages -> d3 = u "лаконичный") /\
    (Forall (fun msg => (15 < len (split msg))%Z) messages -> d3 = u "развернутый").
Proof.
  intros Hne Hall. unfold extract_style_signature.
  destruct (corpus_characteristics lower context Hall) as [chs [Hchs Hrel]].
  pose proof (Forall2_length Hrel) as Hlen.
  destruct messages as [|m ms]; [congruence|].
  rewrite Hchs. cbn [bind].
  assert (Hmap : List.map (fun ch => inject_Z (word_count ch)) chs <> []).
  { intro E. apply map_eq_nil in E. subst chs. discriminate. }
  eexists. do 3 eexists. split; [reflexivity|].
  cbn [style_description]. unfold _describe_style.
  cbn [avg_formality avg_emotionality avg_word_count].
  split; [reflexivity|].
  split; [|split; [|split; [|split]]].
  - destruct (Qltb 0.7 _); [left; reflexivity|].
    destruct (Qltb 0.3 _); [right; left | right; right; left]; reflexivity.
  - destruct (Qltb 0.7 _); [left; reflexivity|].
    destruct (Qltb 0.3 _); [right; left | right; right; left]; reflexivity.
  - destruct (Qltb 15 _); [left; reflexivity|].
    destruct (Qltb 5 _); [right; left | right; right; left]; reflexivity.
  - intro Hshort.
    pose proof (corpus_word_counts (fun n => (n <= 5)%Z) Hrel Hshort) as Hwc.
    assert (Hle : mean (List.map (fun ch => inject_Z (word_count ch)) chs) <= 5).
    { apply mean_le; [exact Hmap|].
      rewrite Forall_forall in *. intros q Hq. apply in_map_iff in Hq as [ch [<- Hch]].
      change 5 with (inject_Z 5). rewrite <- Zle_Qle. apply Hwc, Hch. }
    replace (Qltb 15 _) with false by (symmetry; apply Qltb_ge; lra).
    replace (Qltb 5 _) with false by (symmetry; apply Qltb_ge; exact Hle).
    reflexivity.
  - intro Hlong.
    pose proof (corpus_word_counts (fun n => (15 < n)%Z) Hrel Hlong) as Hwc.
    assert (Hge : 16 <= mean (List.map (fun ch => inject_Z (word_count ch)) chs)).
    { apply mean_ge; [exact Hmap|].
      rewrite Forall_forall in *. intros q Hq. apply in_map_iff in Hq as [ch [<- Hch]].
      change 16 with (inject_Z 16). rewrite <- Zle_Qle.
      specialize (Hwc ch Hch). cbv beta in Hwc. lia. }
    replace (Qltb 15 _) with true by (symmetry; apply Qltb_lt; lra).
    reflexivity.
Qed.

Lemma extract_style_signature_description_witness :
  exists sig d1 d2 d3,
    extract_style_signature py_lower [u "Привет! Как дела?"; u "Люблю тебя 😍"]
      (u "romantic") = Ok (Some sig) /\
    style_description sig = d1 ++ u ", " ++ d2 ++ u ", " ++ d3 /\
    In d1 [u "формальный"; u "умеренно формальный"; u "неформальный"] /\
    In d2 [u "эмоциональный"; u "умеренно эмоциональный"; u "сдержанный"] /\
    In d3 [u "развернутый"; u "умеренный по длине"; u "лаконичный"] /\
    (Forall (fun msg => (len (split msg) <= 5)%Z)
            [u "Привет! Как дела?"; u "Люблю тебя 😍"] -> d3 = u "лаконичный") /\
    (Forall (fun msg => (15 < len (split msg))%Z)
            [u "Привет! Как дела?"; u "Люблю тебя 😍"] -> d3 = u "развернутый").
Proof.
  apply (@extract_style_signature_description py_lower
           [u "Привет! Как дела?"; u "Люблю тебя 😍"] (u "romantic")).
  - discriminate.
  - repeat constructor; vm_compute; discriminate.
Defined.

End AnalyzerProperties.

(** ** Properties of the common words of a corpus *)

Module WordsProperties.

Import PyFacts MoreFacts CommunicationStyleAnalyzer StyleAnalyzerRest.

(** The character in front of the position reached after [pre], when the
    character in front of the text is [prev]. *)
Definition before (prev : option N) (pre : str) : option N :=
  match rev pre with
  | [] => prev
  | c :: _ => Some c
  end.

Definition last_char (s : str) : option N := before None s.

Lemma before_cons (prev : option N) (c : N) (pre : str) :
  before prev (c :: pre) = before (Some c) pre.
Proof.
  unfold before. cbn [rev]. destruct (rev pre) as [|d r]; reflexivity.
Qed.

Lemma class_run_firstn (s : str) (n : nat) :
  (n <= class_run s)%nat ->
  forallb cyrillic_lower (firstn n s) = true /\ List.length (firstn n s) = n.
Proof.
  revert n. induction s as [|c s IH]; intros n Hn; cbn [class_run] in Hn.
  - assert (n = O) by lia. subst. split; reflexivity.
  - destruct n as [|n]; [split; reflexivity|].
    destruct (cyrillic_lower c) eqn:Ec; [|lia].
    destruct (IH n) as [H1 H2]; [lia|].
    cbn [firstn forallb List.length]. rewrite Ec, H1, H2. split; reflexivity.
Qed.

Lemma nth_error_firstn_lt {A : Type} (l : list A) (n i : nat) :
  (i < n)%nat -> nth_error (firstn n l) i = nth_error l i.
Proof.
  revert n i. induction l as [|x l IH]; intros n i Hi.
  - now rewrite firstn_nil.
  - destruct n as [|n]; [lia|]. destruct i as [|i]; [reflexivity|].
    cbn [firstn nth_error]. apply IH. lia.
Qed.

Section Words.

Variable isalnum : N -> bool.

Lemma backtrack_Some (s : str) (k n : nat) :
  backtrack isalnum s k = Some n ->
  (3 <= n <= k)%nat /\
  boundary isalnum (nth_error s (n - 1)) (skipn n s) = true.
Proof.
  induction k as [|k IH]; cbn [backtrack]; [discriminate|].
  destruct ((3 <=? S k)%nat && boundary isalnum (nth_error s k) (skipn (S k) s)) eqn:E.
  - intros [= <-]. apply andb_true_iff in E as [E1 E2]. apply Nat.leb_le in E1.
    replace (S k - 1)%nat with k by lia. split; [lia | exact E2].
  - intro H. destruct (IH H) as [H1 H2]. split; [lia | exact H2].
Qed.

(** What [re.findall] returns: every match is a piece of the text of at
    least three characters of the class, with [\b] on both sides. *)
Lemma findall_from_In (prev : option N) (s : str) (skip : nat) (w : str) :
  In w (findall_from isalnum prev s skip) ->
  exists pre post,
    s = pre ++ w ++ post /\
    (3 <= List.length w)%nat /\
    forallb cyrillic_lower w = true /\
    boundary isalnum (before prev pre) (w ++ post) = true /\
    boundary isalnum (nth_error w (List.length w - 1)) post = true.
Proof.
  revert prev skip. induction s as [|c t IH]; intros prev skip; [intros []|].
  assert (Hrec : forall k, In w (findall_from isalnum (Some c) t k) ->
            exists pre post,
              c :: t = pre ++ w ++ post /\
              (3 <= List.length w)%nat /\
              forallb cyrillic_lower w = true /\
              boundary isalnum (before prev pre) (w ++ post) = true /\
              boundary isalnum (nth_error w (List.length w - 1)) post = true).
  { intros k Hin. destruct (IH _ _ Hin) as [pre [post [E [H3 [Hc [Hb Ha]]]]]].
    exists (c :: pre), post. rewrite before_cons.
    split; [cbn [app]; now rewrite E|]. repeat split; assumption. }
  cbn [findall_from]. destruct skip as [|k]; [|apply Hrec].
  destruct (match_here isalnum prev (c :: t)) as [n|] eqn:Em; [|apply Hrec].
  intros [<- | Hin]; [|now apply Hrec in Hin].
  unfold match_here in Em.
  destruct (boundary isalnum prev (c :: t)) eqn:Eb; [|discriminate].
  apply backtrack_Some in Em as [[Hn3 Hnk] Hafter].
  destruct (class_run_firstn (c :: t) Hnk) as [Hcl Hlen].
  exists [], (skipn n (c :: t)).
  split; [cbn [app]; now rewrite firstn_skipn|].
  split; [lia|]. split; [exact Hcl|].
  split.
  - cbn [app]. rewrite firstn_skipn. exact Eb.
  - rewrite Hlen, nth_error_firstn_lt by lia. exact Hafter.
Qed.

End Words.

(** The shape of a word of the result, shared by the two theorems below. *)
Lemma common_word_origin (lower : str -> str) (isalnum : N -> bool)
    (messages : list str) (word : str) :
  In word (_extract_common_words lower isalnum messages) ->
  mem word stop_words = false /\
  exists msg, In msg messages /\ In word (findall isalnum (lower msg)).
Proof.
  unfold _extract_common_words. intro Hin.
  apply in_map_iff in Hin as [[w n] [E Hin]]. cbn [fst] in E. subst w.
  apply most_common_In in Hin. apply Counter_spec in Hin as [Hpos Hn].
  assert (Hw : In word (flat_map (message_words lower isalnum) messages))
    by (apply occurrences_In; lia).
  apply in_flat_map in Hw as [msg [Hmsg Hw]].
  unfold message_words in Hw. apply filter_In in Hw as [Hw Hstop].
  apply negb_true_iff in Hstop.
  split; [exact Hstop|]. exists msg. split; assumption.
Qed.

(** X25: [_extract_common_words] returns at most 20 words, pairwise
    different; each has at least three characters, all of them in [а-яё],
    is no stop word and occurs in the lower-cased text of a message. *)
Theorem extract_common_words_shape (lower : str -> str) (isalnum : N -> bool)
    (messages : list str) :
  let words := _extract_common_words lower isalnum messages in
  (List.length words <= 20)%nat /\
  NoDup words /\
  forall word,
    In word words ->
    (3 <= List.length word)%nat /\
    forallb cyrillic_lower word = true /\
    mem word stop_words = false /\
    exists msg, In msg messages /\ contains word (lower msg) = true.
Proof.
  cbv zeta. split; [|split].
  - unfold _extract_common_words. rewrite length_map. apply most_common_length.
  - unfold _extract_common_words. apply most_common_NoDup, Counter_NoDup.
  - intros word Hin.
    destruct (common_word_origin _ _ _ _ Hin) as [Hstop [msg [Hmsg Hw]]].
    unfold findall in Hw.
    apply findall_from_In in Hw as [pre [post [E [H3 [Hc _]]]]].
    split; [exact H3|]. split; [exact Hc|]. split; [exact Hstop|].
    exists msg. split; [exact Hmsg|]. apply contains_spec. now exists pre, post.
Qed.

(** X26: when [str.isalnum] holds of the letters [а-яё], every word
    [_extract_common_words] returns stands in the lower-cased text of a
    message as a whole word: the character in front of it, if any, and the
    character behind it, if any, are no word characters. *)
Theorem extract_common_words_whole (lower : str -> str) (isalnum : N -> bool)
    (messages : list str) :
  (forall c, cyrillic_lower c = true -> isalnum c = true) ->
  forall word,
    In word (_extract_common_words lower isalnum messages) ->
    exists msg pre post,
      In msg messages /\
      lower msg = pre ++ word ++ post /\
      word_char_at isalnum (last_char pre) = false /\
      word_char_at isalnum (hd_error post) = false.
Proof.
  intros Halnum word Hin.
  destruct (common_word_origin _ _ _ _ Hin) as [_ [msg [Hmsg Hw]]].
  unfold findall in Hw.
  apply findall_from_In in Hw as [pre [post [E [H3 [Hc [Hb Ha]]]]]].
  exists msg, pre, post. split; [exact Hmsg|]. split; [exact E|].
  assert (Hword : forall c, In c word -> word_char isalnum c = true).
  { intros c Hc'. unfold word_char. rewrite forallb_forall in Hc.
    now rewrite (Halnum c (Hc c Hc')). }
  split.
  - destruct word as [|c word]; [simpl in H3; lia|].
    unfold boundary in Hb. cbn [app hd_error word_char_at] in Hb.
    rewrite (Hword c (or_introl eq_refl)) in Hb.
    unfold last_char. destruct (word_char_at isalnum (before None pre));
      [discriminate | reflexivity].
  - destruct (nth_error word (List.length word - 1)) as [d|] eqn:Ed.
    + unfold boundary in Ha. cbn [word_char_at] in Ha.
      rewrite (Hword d (nth_error_In _ _ Ed)) in Ha.
      destruct (word_char_at isalnum (hd_error post)); [discriminate | reflexivity].
    + apply nth_error_None in Ed. lia.
Qed.

Lemma cyrillic_lower_isalnum (c : N) :
  cyrillic_lower c = true -> py_isalnum c = true.
Proof.
  unfold cyrillic_lower, py_isalnum. intro H.
  apply orb_true_iff in H as [H | H].
  - apply andb_true_iff in H as [H1 H2]. apply N.leb_le in H1, H2.
    apply orb_true_iff. left. apply orb_true_iff. right.
    apply andb_true_iff. split; apply N.leb_le; lia.
  - apply N.eqb_eq in H. subst c. reflexivity.
Qed.

Lemma extract_common_words_whole_witness :
  In (u "привет")
     (_extract_common_words py_lower py_isalnum [u "Привет, как дела?"; u "привет_всем"]) /\
  exists msg pre post,
    In msg [u "Привет, как дела?"; u "привет_всем"] /\
    py_lower msg = pre ++ u "привет" ++ post /\
    word_char_at py_isalnum (last_char pre) = false /\
    word_char_at py_isalnum (hd_error post) = false.
Proof.
  assert (Hin : In (u "привет")
                   (_extract_common_words py_lower py_isalnum
                      [u "Привет, как дела?"; u "привет_всем"])).
  { vm_compute. left. reflexivity. }
  split; [exact Hin|].
  exact (@extract_common_words_whole py_lower py_isalnum
           [u "Привет, как дела?"; u "привет_всем"] cyrillic_lower_isalnum
           (u "привет") Hin).
Defined.

End WordsProperties.

(** * Properties that depend on rounding *)

(** ** Facts about floats *)

Module Float64Facts.

Import PyFacts Float64.

Local Open Scope float_scope.

(** *** Sorting with an order that is a key order on the elements only *)

Lemma insert_desc_ext {A : Type} (gt gt' : A -> A -> bool) (x : A) (l : list A) :
  (forall y, In y l -> gt y x = gt' y x) ->
  insert_desc gt x l = insert_desc gt' x l.
Proof.
  induction l as [|y l IH]; intro H; [reflexivity|].
  cbn [insert_desc]. rewrite <- (H y (or_introl eq_refl)).
  destruct (gt y x); [|reflexivity].
  f_equal. apply IH. intros z Hz. apply H. now right.
Qed.

Lemma sorted_desc_ext {A : Type} (gt gt' : A -> A -> bool) (l : list A) :
  (forall x y, In x l -> In y l -> gt x y = gt' x y) ->
  sorted_desc gt l = sorted_desc gt' l.
Proof.
  induction l as [|x l IH]; intro H; [reflexivity|].
  cbn [sorted_desc fold_right].
  change (fold_right (insert_desc gt) [] l) with (sorted_desc gt l).
  change (fold_right (insert_desc gt') [] l) with (sorted_desc gt' l).
  rewrite <- IH by (intros a b Ha Hb; apply H; now right).
  apply insert_desc_ext. intros y Hy. apply H; [right|now left].
  now apply (Permutation_in _ (sorted_desc_perm gt l)).
Qed.

(** An integer that orders the finite floats as their values do: the sign,
    then the exponent, then the mantissa of the canonical representation. *)
Definition key (x : float) : Z :=
  match Prim2SF x with
  | S754_finite s m e =>
      let k := (Z.shiftl (e + 1100) 53 + Zpos m)%Z in
      if s then (- k)%Z else k
  | _ => 0%Z
  end.

(** Two floats are ordered when their comparisons are those of their keys;
    in particular neither is a NaN. *)
Definition ordered (x y : float * Z) : bool :=
  Bool.eqb (fst x <? fst y) (snd x <? snd y)%Z
  && Bool.eqb (fst x <=? fst y) (negb (fst y <? fst x)).

Definition with_key (x : float) : float * Z := (x, key x).

Definition all_ordered (l : list float) : bool :=
  let values := List.map with_key l in
  forallb (fun x => forallb (ordered x) values) values.

Lemma all_ordered_spec (l : list float) (x y : float) :
  all_ordered l = true -> In x l -> In y l ->
  (x <? y) = (key x <? key y)%Z /\ (x <=? y) = negb (y <? x).
Proof.
  unfold all_ordered. cbv zeta. intros H Hx Hy.
  rewrite forallb_forall in H.
  specialize (H (with_key x) (in_map with_key l x Hx)).
  rewrite forallb_forall in H.
  specialize (H (with_key y) (in_map with_key l y Hy)).
  unfold ordered, with_key in H. cbn [fst snd] in H.
  apply andb_true_iff in H as [H1 H2].
  apply Bool.eqb_prop in H1, H2. split; assumption.
Qed.

(** The counts up to [n]. *)
Definition upto (n : nat) : list Z := List.map Z.of_nat (seq 0 (S n)).

Lemma upto_In (n : nat) (k : Z) : (0 <= k <= Z.of_nat n)%Z -> In k (upto n).
Proof.
  intro H. unfold upto. apply in_map_iff. exists (Z.to_nat k).
  split; [lia|]. apply in_seq. lia.
Qed.

Lemma bool_In (b : bool) : In b [false; true].
Proof. destruct b; simpl; auto. Qed.

End Float64Facts.

(** ** The context router in binary64 arithmetic *)

Module ContextRouter64Facts.

Import PyFacts MoreFacts ContextRouter ContextRouterFacts RouterProperties.
Import Float64 Float64Facts ContextRouter64.

#[local] Set Warnings "-inexact-float".
Local Open Scope float_scope.

(** The order of the keys. *)
Definition key_gt (y x : str * float) : bool := (key (snd x) <? key (snd y))%Z.

Lemma key_gt_asym (a b : str * float) : key_gt a b = true -> key_gt b a = false.
Proof. unfold key_gt. intro H. apply Z.ltb_lt in H. apply Z.ltb_ge. lia. Qed.

Lemma key_ge_trans (a b c : str * float) :
  key_gt b a = false -> key_gt c b = false -> key_gt c a = false.
Proof. unfold key_gt. rewrite !Z.ltb_ge. lia. Qed.

(** *** The scores the built-in table can give *)

(** A score depends on the message through two counts, and on the other
    inputs through three tests. *)
Definition score_of (k a : Z) (h t p : bool) : float :=
  let score := 0.0 + py_min (of_int k * 0.3) 1.0 * keyword_match weights in
  let score := if h then score + 0.3 * dialog_history weights else score in
  let score := if t then score + 0.2 * time_of_day weights else score in
  let score := if p then score + 0.3 * user_preferences weights else score in
  score - py_min (of_int a * 0.2) 1.0 * 0.2.

(** The number of matches the two score functions count; the guard at their
    head returns what no match gives. *)
Definition matches_of (lower : str -> str) (message : str) (words : list str) : Z :=
  match message, words with
  | [], _ => 0
  | _, [] => 0
  | _, _ => count_if (fun word => contains word (lower message)) words
  end.

Lemma matches_of_bounds (lower : str -> str) (message : str) (words : list str) :
  (0 <= matches_of lower message words <= len words)%Z.
Proof.
  unfold matches_of, len. destruct message as [|c m]; [lia|].
  destruct words as [|w ws]; [simpl; lia|].
  split; [apply count_if_nonneg | apply count_if_le_len].
Qed.

Lemma keyword_score_matches (lower : str -> str) (message : str) (kws : list str) :
  _calculate_keyword_score lower message kws
  = py_min (of_int (matches_of lower message kws) * 0.3) 1.0.
Proof.
  unfold _calculate_keyword_score, matches_of.
  destruct message as [|c m]; [vm_compute; reflexivity|].
  destruct kws as [|w ws]; [vm_compute; reflexivity | reflexivity].
Qed.

Lemma avoid_score_matches (lower : str -> str) (message : str) (ws : list str) :
  _calculate_avoid_score lower message ws
  = py_min (of_int (matches_of lower message ws) * 0.2) 1.0.
Proof.
  unfold _calculate_avoid_score, matches_of.
  destruct message as [|c m]; [vm_compute; reflexivity|].
  destruct ws as [|w ws]; [vm_compute; reflexivity | reflexivity].
Qed.

Definition avoid_of (rules : Rules) : list str :=
  match avoid_keywords rules with Some l => l | None => [] end.

Definition history_test (ha : HistoryAnalysis) (name : str) : bool :=
  match recent_context ha with Some rc => str_eqb rc name | None => false end.

Definition time_test (ta : TimeAnalysis) (rules : Rules) : bool :=
  match current_period ta with
  | Some period => mem period (match time_preference rules with Some l => l | None => [] end)
  | None => false
  end.

Definition preference_test (pa : PreferencesAnalysis) (name : str) : bool :=
  match fav_contexts pa with Some fav => mem name fav | None => false end.

Lemma context_score_shape (lower : str -> str) (message : str) (ha : HistoryAnalysis)
    (ta : TimeAnalysis) (pa : PreferencesAnalysis) (name : str) (rules : Rules) :
  context_score lower message ha ta pa name rules
  = score_of (matches_of lower message (keywords rules))
             (matches_of lower message (avoid_of rules))
             (history_test ha name) (time_test ta rules) (preference_test pa name).
Proof.
  unfold context_score, score_of, history_test, time_test, preference_test, avoid_of.
  rewrite keyword_score_matches, avoid_score_matches. cbv zeta.
  destruct (recent_context ha) as [rc|]; [destruct (str_eqb rc name)|];
    (destruct (current_period ta) as [period|]; [destruct (mem period _)|]);
    (destruct (fav_contexts pa) as [fav|]; [destruct (mem name fav)|]); reflexivity.
Qed.

(** The scores of a table whose entries have at most 11 keywords and 4
    words to avoid. *)
Definition all_scores : list float :=
  flat_map (fun k =>
    flat_map (fun a =>
      flat_map (fun h =>
        flat_map (fun t =>
          List.map (fun p => score_of k a h t p) [false; true])
          [false; true])
        [false; true])
      (upto 4))
    (upto 11).

Lemma all_scores_In (k a : Z) (h t p : bool) :
  (0 <= k <= 11)%Z -> (0 <= a <= 4)%Z -> In (score_of k a h t p) all_scores.
Proof.
  intros Hk Ha. unfold all_scores.
  apply in_flat_map. exists k. split; [now apply (upto_In 11)|].
  apply in_flat_map. exists a. split; [now apply (upto_In 4)|].
  apply in_flat_map. exists h. split; [apply bool_In|].
  apply in_flat_map. exists t. split; [apply bool_In|].
  apply in_map. apply bool_In.
Qed.

Lemma build_context_rules_sizes (name : str) (rules : Rules) :
  In (name, rules) _build_context_rules ->
  (len (keywords rules) <= 11)%Z /\ (len (avoid_of rules) <= 4)%Z.
Proof.
  intro H. unfold _build_context_rules in H. cbn [In] in H.
  repeat (destruct H as [H | H];
          [injection H as _ <-; split; vm_compute; discriminate|]).
  destruct H.
Qed.

Lemma context_score_reachable (lower : str -> str) (message : str) (ha : HistoryAnalysis)
    (ta : TimeAnalysis) (pa : PreferencesAnalysis) (name : str) (rules : Rules) :
  In (name, rules) _build_context_rules ->
  In (context_score lower message ha ta pa name rules) all_scores.
Proof.
  intro H. rewrite context_score_shape.
  destruct (build_context_rules_sizes H) as [Hk Ha].
  pose proof (matches_of_bounds lower message (keywords rules)).
  pose proof (matches_of_bounds lower message (avoid_of rules)).
  apply all_scores_In; lia.
Qed.

Lemma all_scores_ordered : all_ordered all_scores = true.
Proof. vm_compute. reflexivity. Qed.

(** A property of every score of the table, by evaluation. *)
Definition for_all_scores (P : Z -> Z -> bool -> bool -> bool -> bool) : bool :=
  forallb (fun k =>
    forallb (fun a =>
      forallb (fun h =>
        forallb (fun t =>
          forallb (fun p => P k a h t p) [false; true])
          [false; true])
        [false; true])
      (upto 4))
    (upto 11).

Lemma for_all_scores_spec (P : Z -> Z -> bool -> bool -> bool -> bool)
    (k a : Z) (h t p : bool) :
  for_all_scores P = true -> (0 <= k <= 11)%Z -> (0 <= a <= 4)%Z -> P k a h t p = true.
Proof.
  unfold for_all_scores. intros H Hk Ha.
  rewrite forallb_forall in H. specialize (H k (upto_In 11 Hk)).
  rewrite forallb_forall in H. specialize (H a (upto_In 4 Ha)).
  rewrite forallb_forall in H. specialize (H h (bool_In h)).
  rewrite forallb_forall in H. specialize (H t (bool_In t)).
  rewrite forallb_forall in H. exact (H p (bool_In p)).
Qed.

(** *** The ranking *)

Lemma sum_weights64 : sum weights_values = 1.0.
Proof. vm_compute. reflexivity. Qed.

Lemma truediv_sum_weights64 (x : float) :
  truediv x (sum weights_values) = Ok (x / sum weights_values).
Proof. unfold truediv. rewrite sum_weights64. reflexivity. Qed.

Section General.

Variable lower : str -> str.
Variable context_rules : list (str * Rules).

Lemma context_scores64_keys (message : str) (ha : HistoryAnalysis) (ta : TimeAnalysis)
    (pa : PreferencesAnalysis) :
  List.map fst (context_scores lower context_rules message ha ta pa)
  = List.map fst context_rules.
Proof. unfold context_scores. rewrite map_map. reflexivity. Qed.

Lemma context_scores64_In (message : str) (ha : HistoryAnalysis) (ta : TimeAnalysis)
    (pa : PreferencesAnalysis) (x : str * float) :
  In x (context_scores lower context_rules message ha ta pa) ->
  exists rules,
    In (fst x, rules) context_rules /\
    snd x = context_score lower message ha ta pa (fst x) rules.
Proof.
  unfold context_scores. intro H. apply in_map_iff in H as [[name rules] [<- Hin]].
  exists rules. split; [exact Hin | reflexivity].
Qed.

(** What [route_context] returns once the ranking has a first entry. *)
Lemma route_context64_ranked (message : str) (dh : option (list str))
    (up : option Preferences) (ti : option TimeInfo)
    (ha : HistoryAnalysis) (p : str) (ps : float) (rest : list (str * float)) :
  history_analysis_of lower context_rules dh = Ok ha ->
  sorted_desc score_gt
    (context_scores lower context_rules message ha (time_analysis_of ti)
       (preferences_analysis_of up)) = (p, ps) :: rest ->
  exists r,
    route_context lower context_rules message dh up ti = Ok r /\
    primary_context r = p /\
    confidence r = py_min (ps / sum weights_values) 1.0 /\
    secondary_contexts r =
      match rest with
      | (second_context, second_score) :: _ =>
          if abs (ps - second_score) <? 0.1 then [second_context] else []
      | [] => []
      end.
Proof.
  intros Hha Hsorted.
  assert (Hkey : In p (List.map fst context_rules)).
  { rewrite <- (context_scores64_keys message ha (time_analysis_of ti)
                  (preferences_analysis_of up)).
    apply (Permutation_in _ (Permutation_map fst (sorted_desc_perm score_gt _))).
    rewrite Hsorted. now left. }
  destruct (getitem_In_key context_rules p Hkey) as [rules Hrules].
  unfold route_context. rewrite Hha. cbn [bind]. rewrite Hsorted.
  rewrite truediv_sum_weights64. cbn [bind fst snd]. rewrite Hrules. cbn [bind].
  eexists. split; [reflexivity|]. cbn [primary_context confidence secondary_contexts].
  repeat split.
Qed.

(** A non-empty rule table gives a ranking with a first entry. *)
Lemma ranking64_nonempty (message : str) (ha : HistoryAnalysis) (ta : TimeAnalysis)
    (pa : PreferencesAnalysis) :
  context_rules <> [] ->
  exists p ps rest,
    sorted_desc score_gt (context_scores lower context_rules message ha ta pa)
    = (p, ps) :: rest.
Proof.
  intro Hne.
  destruct (sorted_desc score_gt (context_scores lower context_rules message ha ta pa))
    as [|[p ps] rest] eqn:E.
  - apply sorted_desc_nil_inv in E. unfold context_scores in E.
    apply map_eq_nil in E. contradiction.
  - now exists p, ps, rest.
Qed.

End General.

(** With the built-in table the scores are ordered floats, so the stable
    sort of the interpreter is the stable sort by key. *)
Lemma scores_ordered (lower : str -> str) (message : str) (ha : HistoryAnalysis)
    (ta : TimeAnalysis) (pa : PreferencesAnalysis) (x y : str * float) :
  In x (context_scores lower _build_context_rules message ha ta pa) ->
  In y (context_scores lower _build_context_rules message ha ta pa) ->
  (snd x <? snd y) = (key (snd x) <? key (snd y))%Z /\
  (snd x <=? snd y) = negb (snd y <? snd x).
Proof.
  intros Hx Hy.
  apply context_scores64_In in Hx as [rx [Hrx ->]].
  apply context_scores64_In in Hy as [ry [Hry ->]].
  apply (@all_ordered_spec all_scores _ _ all_scores_ordered); now apply context_score_reachable.
Qed.

Lemma ranking64_by_key (lower : str -> str) (message : str) (ha : HistoryAnalysis)
    (ta : TimeAnalysis) (pa : PreferencesAnalysis) :
  sorted_desc score_gt (context_scores lower _build_context_rules message ha ta pa)
  = sorted_desc key_gt (context_scores lower _build_context_rules message ha ta pa).
Proof.
  apply sorted_desc_ext. intros x y Hx Hy. unfold score_gt, key_gt.
  now destruct (scores_ordered Hy Hx) as [H _].
Qed.

(** The ranking [route_context] works with, for any inputs. *)
Lemma route_context64_ranking (lower : str -> str) (message : str)
    (dh : option (list str)) (up : option Preferences) (ti : option TimeInfo) :
  exists ha p ps rest r,
    history_analysis_of lower _build_context_rules dh = Ok ha /\
    sorted_desc score_gt
      (context_scores lower _build_context_rules message ha (time_analysis_of ti)
         (preferences_analysis_of up)) = (p, ps) :: rest /\
    route_context lower _build_context_rules message dh up ti = Ok r /\
    primary_context r = p /\
    confidence r = py_min (ps / sum weights_values) 1.0 /\
    secondary_contexts r =
      match rest with
      | (second_context, second_score) :: _ =>
          if abs (ps - second_score) <? 0.1 then [second_context] else []
      | [] => []
      end.
Proof.
  destruct (history_analysis_of_ok lower _build_context_rules dh) as [ha Hha].
  destruct (@ranking64_nonempty lower _build_context_rules message ha
              (time_analysis_of ti) (preferences_analysis_of up))
    as [p [ps [rest Hsorted]]]; [discriminate|].
  destruct (route_context64_ranked lower _build_context_rules message dh up ti Hha Hsorted)
    as [r [Hr [Hp [Hc Hs]]]].
  exists ha, p, ps, rest, r. repeat split; assumption.
Qed.

(** The input on which the comparison of the rounded scores decides: the
    scores 0.12 and 0.2 * 0.1 differ by 0.09999999999999999. *)
Example route_context_deadline_evening :
  exists r,
    route_context py_lower _build_context_rules (u "дедлайн") None None
      (Some {| hour := Some 20%Z; weekday := None; is_holiday := None |}) = Ok r /\
    primary_context r = professional /\
    secondary_contexts r = [family] /\
    confidence r = 0.12.
Proof. eexists. split; [vm_compute; reflexivity|]. repeat split. Qed.

(** C3: the list of secondary contexts never contains the primary context,
    and a context is in it only if its score differs from the top score,
    which no score exceeds, by strictly less than 0.1; scores, difference
    and comparison are those of binary64 arithmetic. *)
Theorem secondary_contexts_close_and_distinct (lower : str -> str) (message : str)
    (dialog_history : option (list str)) (user_preferences : option Preferences)
    (time_info : option TimeInfo) :
  exists ha r,
    history_analysis_of lower _build_context_rules dialog_history = Ok ha /\
    route_context lower _build_context_rules message dialog_history user_preferences time_info
    = Ok r /\
    ~ In (primary_context r) (secondary_contexts r) /\
    forall c, In c (secondary_contexts r) ->
      exists s top,
        let ranked := context_scores lower _build_context_rules message ha
                        (time_analysis_of time_info)
                        (preferences_analysis_of user_preferences) in
        In (c, s) ranked /\ In (primary_context r, top) ranked /\
        (forall x, In x ranked -> (snd x <=? top) = true) /\
        (abs (top - s) <? 0.1) = true.
Proof.
  destruct (route_context64_ranking lower message dialog_history user_preferences time_info)
    as [ha [p [ps [rest [r [Hha [Hsorted [Hr [Hp [_ Hsec]]]]]]]]]].
  set (ta := time_analysis_of time_info) in *.
  set (pa := preferences_analysis_of user_preferences) in *.
  exists ha, r. split; [exact Hha|]. split; [exact Hr|].
  pose proof (sorted_desc_perm score_gt
                (context_scores lower _build_context_rules message ha ta pa)) as Hperm.
  rewrite Hsorted in Hperm.
  assert (Hnd : NoDup (List.map fst ((p, ps) :: rest))).
  { apply (Permutation_NoDup (Permutation_sym (Permutation_map fst Hperm))).
    rewrite context_scores64_keys. apply build_context_rules_keys. }
  rewrite Hp, Hsec. destruct rest as [|[sc ss] rest].
  - split; [intros []|intros c []].
  - destruct (abs (ps - ss) <? 0.1) eqn:Hclose.
    + split.
      * intros [E | []]. simpl in Hnd. inversion Hnd as [|? ? Hnotin _]; subst.
        apply Hnotin. now left.
      * intros c [<- | []]. exists ss, ps. cbv zeta.
        assert (Htop : In (p, ps) (context_scores lower _build_context_rules message ha ta pa))
          by (apply (Permutation_in _ Hperm); now left).
        split; [apply (Permutation_in _ Hperm); right; now left|].
        split; [exact Htop|].
        split; [|exact Hclose].
        intros x Hx. rewrite ranking64_by_key in Hsorted.
        pose proof (@sorted_desc_head_max _ key_gt key_gt_asym key_ge_trans
                      _ _ _ Hsorted _ Hx) as Hmax.
        unfold key_gt in Hmax. cbn [snd] in Hmax.
        destruct (scores_ordered Hx Htop) as [_ Hle].
        destruct (scores_ordered Htop Hx) as [Hlt _].
        cbn [snd] in Hle, Hlt. rewrite Hle, Hlt, Hmax. reflexivity.
    + split; [intros []|intros c []].
Qed.




(** X1: the confidence [route_context] returns never exceeds
    0.5700000000000001, the float the largest contributions of the four
    factors add up to; the clamp to 1.0 is never reached. *)
Theorem route_context_confidence_cap (lower : str -> str) (message : str)
    (dialog_history : option (list str)) (user_preferences : option Preferences)
    (time_info : option TimeInfo) :
  exists r,
    route_context lower _build_context_rules message dialog_history user_preferences time_info
    = Ok r /\
    (confidence r <=? 0.5700000000000001) = true /\
    (confidence r <? 1.0) = true.
Proof.
  destruct (route_context64_ranking lower message dialog_history user_preferences time_info)
    as [ha [p [ps [rest [r [_ [Hsorted [Hr [_ [Hc _]]]]]]]]]].
  exists r. split; [exact Hr|]. rewrite Hc.
  assert (Hin : In (p, ps) ((p, ps) :: rest)) by now left.
  rewrite <- Hsorted in Hin.
  apply (Permutation_in _ (sorted_desc_perm score_gt _)) in Hin.
  apply context_scores64_In in Hin as [rules [Hrules Hps]].
  cbn [fst snd] in Hrules, Hps. subst ps.
  rewrite context_score_shape.
  destruct (build_context_rules_sizes Hrules) as [Hk Ha].
  pose proof (matches_of_bounds lower message (keywords rules)).
  pose proof (matches_of_bounds lower message (avoid_of rules)).
  assert (Hall : for_all_scores
                   (fun k a h t p =>
                      let c := py_min (score_of k a h t p / sum weights_values) 1.0 in
                      (c <=? 0.5700000000000001) && (c <? 1.0)) = true)
    by (vm_compute; reflexivity).
  match goal with
  | |- context [score_of ?k ?a ?h ?t ?p] =>
      pose proof (@for_all_scores_spec _ k a h t p Hall) as Hcap
  end.
  cbv zeta beta in Hcap. apply andb_true_iff in Hcap; [exact Hcap | lia | lia].
Qed.

(** X3: the primary context is the first context of the rule table whose
    score is maximal: every context before it in the table scores strictly
    less, every context after it at most as much, in the comparison of the
    floats. *)
Theorem route_context_primary_first_maximum (lower : str -> str) (message : str)
    (dialog_history : option (list str)) (user_preferences : option Preferences)
    (time_info : option TimeInfo) :
  exists ha r before top after,
    history_analysis_of lower _build_context_rules dialog_history = Ok ha /\
    route_context lower _build_context_rules message dialog_history user_preferences time_info
    = Ok r /\
    context_scores lower _build_context_rules message ha (time_analysis_of time_info)
      (preferences_analysis_of user_preferences)
    = before ++ (primary_context r, top) :: after /\
    (forall x, In x before -> (snd x <? top) = true) /\
    (forall x, In x after -> (snd x <=? top) = true).
Proof.
  destruct (route_context64_ranking lower message dialog_history user_preferences time_info)
    as [ha [p [ps [rest [r [Hha [Hsorted [Hr [Hp _]]]]]]]]].
  rewrite ranking64_by_key in Hsorted.
  destruct (@sorted_desc_head_split _ key_gt key_gt_asym key_ge_trans _ _ _ Hsorted)
    as [before [after [Hsplit [Hb Ha]]]].
  exists ha, r, before, ps, after. rewrite Hp.
  split; [exact Hha|]. split; [exact Hr|]. split; [exact Hsplit|].
  assert (Htop : In (p, ps)
                   (context_scores lower _build_context_rules message ha
                      (time_analysis_of time_info)
                      (preferences_analysis_of user_preferences)))
    by (rewrite Hsplit; apply in_elt).
  split.
  - intros x Hx. specialize (Hb x Hx). unfold key_gt in Hb. cbn [snd] in Hb.
    assert (Hin : In x (context_scores lower _build_context_rules message ha
                          (time_analysis_of time_info)
                          (preferences_analysis_of user_preferences)))
      by (rewrite Hsplit; apply in_or_app; now left).
    destruct (scores_ordered Hin Htop) as [Hlt _]. cbn [snd] in Hlt.
    now rewrite Hlt.
  - intros x Hx. specialize (Ha x Hx). unfold key_gt in Ha. cbn [snd] in Ha.
    assert (Hin : In x (context_scores lower _build_context_rules message ha
                          (time_analysis_of time_info)
                          (preferences_analysis_of user_preferences)))
      by (rewrite Hsplit; apply in_or_app; right; now right).
    destruct (scores_ordered Hin Htop) as [_ Hle].
    destruct (scores_ordered Htop Hin) as [Hlt _]. cbn [snd] in Hle, Hlt.
    now rewrite Hle, Hlt, Ha.
Qed.

(** The time test of the scoring loop, from the hour. *)
Lemma time_test_hours (ti : option TimeInfo) :
  time_test (time_analysis_of ti) family_rules
  = match hour_of ti with
    | Some h => ((18 <=? h) && (h <? 23))%Z
    | None => false
    end /\
  time_test (time_analysis_of ti) creative_rules
  = match hour_of ti with
    | Some h => negb ((6 <=? h) && (h <? 23))%Z
    | None => false
    end.
Proof.
  unfold time_test. rewrite current_period_of.
  destruct (hour_of ti) as [h|]; [|split; reflexivity].
  cbn [option_map]. unfold period_of.
  destruct (6 <=? h)%Z eqn:E6, (h <? 12)%Z eqn:E12, (12 <=? h)%Z eqn:E12',
           (h <? 18)%Z eqn:E18, (18 <=? h)%Z eqn:E18', (h <? 23)%Z eqn:E23;
    try (exfalso; lia); split; vm_compute; reflexivity.
Qed.

(** The time of day raises every score it is added to. *)
Lemma time_term_raises (lower : str -> str) (message : str) (ha : HistoryAnalysis)
    (pa : PreferencesAnalysis) (name : str) (rules : Rules) (ta : TimeAnalysis) :
  In rules [family_rules; creative_rules] ->
  if time_test ta rules
  then (context_score lower message ha no_time pa name rules
        <? context_score lower message ha ta pa name rules) = true
  else context_score lower message ha ta pa name rules
       = context_score lower message ha no_time pa name rules.
Proof.
  intro Hrules. rewrite !context_score_shape.
  change (time_test no_time rules) with false.
  destruct (time_test ta rules); [|reflexivity].
  assert (Hsizes : (len (keywords rules) <= 11)%Z /\ (len (avoid_of rules) <= 4)%Z).
  { destruct Hrules as [<- | [<- | []]]; split; vm_compute; discriminate. }
  destruct Hsizes as [Hk Ha].
  pose proof (matches_of_bounds lower message (keywords rules)).
  pose proof (matches_of_bounds lower message (avoid_of rules)).
  assert (Hall : for_all_scores
                   (fun k a h _ p => score_of k a h false p <? score_of k a h true p) = true)
    by (vm_compute; reflexivity).
  match goal with
  | |- (score_of ?k ?a ?h false ?p <? _) = true =>
      apply (@for_all_scores_spec _ k a h false p Hall); lia
  end.
Qed.

(** X12: the period is derived from the hour alone: the time of day raises
    the score of the family context exactly for the hours 18 to 22, and the
    score of the creative context exactly for the hours outside 6 to 22;
    at every other hour, and without an hour, the score is the one without
    time information. Their time preferences "weekend" and "flexible" never
    match. *)
Theorem time_bonus_hours (lower : str -> str) (message : str) (ha : HistoryAnalysis)
    (pa : PreferencesAnalysis) (name : str) (ti : option TimeInfo) :
  let score ta rules := context_score lower message ha ta pa name rules in
  (if match hour_of ti with
      | Some h => ((18 <=? h) && (h <? 23))%Z
      | None => false
      end
   then (score no_time family_rules <? score (time_analysis_of ti) family_rules) = true
   else score (time_analysis_of ti) family_rules = score no_time family_rules) /\
  (if match hour_of ti with
      | Some h => negb ((6 <=? h) && (h <? 23))%Z
      | None => false
      end
   then (score no_time creative_rules <? score (time_analysis_of ti) creative_rules) = true
   else score (time_analysis_of ti) creative_rules = score no_time creative_rules).
Proof.
  cbv zeta. destruct (time_test_hours ti) as [Hf Hc]. rewrite <- Hf, <- Hc. split.
  - apply time_term_raises. now left.
  - apply time_term_raises. right. now left.
Qed.

End ContextRouter64Facts.

(** ** The style analyzer in binary64 arithmetic *)

Module Analyzer64Facts.

Import PyFacts MoreFacts CommunicationStyleAnalyzer AnalyzerFacts.
Import Float64 Float64Facts CommunicationStyleAnalyzer64.

#[local] Set Warnings "-inexact-float".
Local Open Scope float_scope.

(** *** [analyze_context] returns *)

Lemma int_truediv_len {A : Type} (a : Z) (x : A) (l : list A) :
  int_truediv a (len (x :: l)) = Ok (of_int a / of_int (len (x :: l))).
Proof.
  unfold int_truediv.
  replace (len (x :: l) =? 0)%Z with false; [reflexivity|].
  symmetry. apply Z.eqb_neq. unfold len. simpl List.length. lia.
Qed.

Section Total.

Variable lower : str -> str.

Lemma _calculate_formality64_ok (text : str) :
  exists q, _calculate_formality lower text = Ok q.
Proof.
  unfold _calculate_formality. destruct (split (lower text)) as [|w ws]; [now eexists|].
  rewrite int_truediv_len. now eexists.
Qed.

Lemma _calculate_emotionality64_ok (text : str) :
  exists q, _calculate_emotionality lower text = Ok q.
Proof.
  unfold _calculate_emotionality. destruct (split (lower text)) as [|w ws].
  - now eexists.
  - rewrite int_truediv_len. now eexists.
Qed.

Lemma _calculate_emoji_frequency64_ok (text : str) :
  exists q, _calculate_emoji_frequency text = Ok q.
Proof.
  unfold _calculate_emoji_frequency. destruct text as [|c t]; [now eexists|].
  rewrite int_truediv_len. now eexists.
Qed.

Lemma _suggest_response_style64_ok (context : str) (ch : Characteristics) :
  exists rs, _suggest_response_style context ch = Ok rs.
Proof.
  unfold _suggest_response_style.
  destruct (getitem_In_key response_styles (u "friendly")) as [fs Hfs].
  - do 3 right. left. reflexivity.
  - rewrite Hfs. cbn [bind]. now eexists.
Qed.

(** The scores of the automatic detection, in the order of the pattern
    table. *)
Definition pattern_scores64 (text : str) : list (str * float) :=
  List.map (fun cp : str * Patterns => (fst cp, pattern_score (lower text) (snd cp)))
           _load_context_patterns.

(** The context detected for a non-empty text without a known context. *)
Lemma analyze_context64_detected (text : str) :
  text <> [] ->
  exists a first rest,
    analyze_context lower text None = Ok a /\
    pattern_scores64 text = first :: rest /\
    detected_context a
    = (if _is_work_related lower text then u "professional"
       else if _is_family_related lower text then u "family"
       else if _is_romantic_related lower text then u "romantic"
       else fst (max_from first rest)).
Proof.
  intro Hne. destruct text as [|c t]; [congruence|].
  unfold analyze_context.
  destruct (_calculate_formality64_ok (c :: t)) as [f Hf]. rewrite Hf. cbn [bind].
  destruct (_calculate_emotionality64_ok (c :: t)) as [e He]. rewrite He. cbn [bind].
  destruct (_calculate_emoji_frequency64_ok (c :: t)) as [ef Hef]. rewrite Hef. cbn [bind].
  match goal with
  | |- context [_suggest_response_style ?ctx ?chars] =>
      destruct (_suggest_response_style64_ok ctx chars) as [rs Hrs]; rewrite Hrs
  end.
  cbn [bind]. fold (pattern_scores64 (c :: t)).
  destruct (pattern_scores64 (c :: t)) as [|first rest] eqn:E; [discriminate|].
  eexists. exists first, rest. split; [reflexivity|]. split; [reflexivity|].
  cbn [detected_context]. reflexivity.
Qed.

End Total.

(** *** The scores of the pattern table *)

(** A score is the result of adding 0.3 once per formality word found, then
    0.2 once per emotional word and per humor word found. *)
Definition pattern_score_of (nf ne nh : Z) : float :=
  Nat.iter (Z.to_nat nh) (fun s => s + 0.2)
    (Nat.iter (Z.to_nat ne) (fun s => s + 0.2)
       (Nat.iter (Z.to_nat nf) (fun s => s + 0.3) 0.0)).

Definition found (text : str) (words : list str) : Z :=
  len (filter (fun word => contains word text) words).

Lemma add_matches64_iter (text : str) (step : float) (words : list str) (score : float) :
  add_matches text step words score
  = Nat.iter (Z.to_nat (found text words)) (fun s => s + step) score.
Proof.
  unfold add_matches, found, len. rewrite Nat2Z.id.
  revert score. induction words as [|w ws IH]; intro score; [reflexivity|].
  cbn [fold_left filter]. rewrite IH.
  destruct (contains w text); [|reflexivity].
  cbn [List.length]. now rewrite Nat.iter_succ_r.
Qed.

Lemma pattern_score_shape (text : str) (patterns : Patterns) :
  pattern_score text patterns
  = pattern_score_of (found text (formality_words patterns))
                     (found text (emotional_words patterns))
                     (found text (humor_words patterns)).
Proof.
  unfold pattern_score, pattern_score_of. cbv zeta.
  now rewrite !add_matches64_iter.
Qed.

Lemma found_bounds (text : str) (words : list str) :
  (0 <= found text words <= len words)%Z.
Proof.
  unfold found, len.
  pose proof (filter_length_le (fun word => contains word text) words). lia.
Qed.

(** The scores of a table whose entries have at most 5 formality words, 5
    emotional words and 4 humor words. *)
Definition all_pattern_scores : list float :=
  flat_map (fun nf =>
    flat_map (fun ne =>
      List.map (fun nh => pattern_score_of nf ne nh) (upto 4))
      (upto 5))
    (upto 5).

Lemma all_pattern_scores_In (nf ne nh : Z) :
  (0 <= nf <= 5)%Z -> (0 <= ne <= 5)%Z -> (0 <= nh <= 4)%Z ->
  In (pattern_score_of nf ne nh) all_pattern_scores.
Proof.
  intros Hf He Hh. unfold all_pattern_scores.
  apply in_flat_map. exists nf. split; [now apply (upto_In 5)|].
  apply in_flat_map. exists ne. split; [now apply (upto_In 5)|].
  apply in_map. now apply (upto_In 4).
Qed.

Lemma load_context_patterns_sizes (name : str) (patterns : Patterns) :
  In (name, patterns) _load_context_patterns ->
  (len (formality_words patterns) <= 5)%Z /\
  (len (emotional_words patterns) <= 5)%Z /\
  (len (humor_words patterns) <= 4)%Z.
Proof.
  intro H. unfold _load_context_patterns in H. cbn [In] in H.
  repeat (destruct H as [H | H];
          [injection H as _ <-; repeat split; vm_compute; discriminate|]).
  destruct H.
Qed.

Lemma pattern_scores64_reachable (lower : str -> str) (text : str) (x : str * float) :
  In x (pattern_scores64 lower text) -> In (snd x) all_pattern_scores.
Proof.
  unfold pattern_scores64. intro H. apply in_map_iff in H as [[name patterns] [<- Hin]].
  cbn [fst snd]. rewrite pattern_score_shape.
  destruct (load_context_patterns_sizes Hin) as [Hf [He Hh]].
  pose proof (found_bounds (lower text) (formality_words patterns)).
  pose proof (found_bounds (lower text) (emotional_words patterns)).
  pose proof (found_bounds (lower text) (humor_words patterns)).
  apply all_pattern_scores_In; lia.
Qed.

Lemma all_pattern_scores_ordered : all_ordered all_pattern_scores = true.
Proof. vm_compute. reflexivity. Qed.

Lemma pattern_scores64_ordered (lower : str -> str) (text : str) (x y : str * float) :
  In x (pattern_scores64 lower text) ->
  In y (pattern_scores64 lower text) ->
  (snd x <? snd y) = (key (snd x) <? key (snd y))%Z /\
  (snd x <=? snd y) = negb (snd y <? snd x).
Proof.
  intros Hx Hy.
  apply (@all_ordered_spec all_pattern_scores _ _ all_pattern_scores_ordered);
    now apply (@pattern_scores64_reachable lower text).
Qed.

(** [max] returns the first of the entries with the greatest value, when
    the values are ordered floats. *)
Lemma max_from64_split (b : str * float) (l : list (str * float)) :
  (forall x y, In x (b :: l) -> In y (b :: l) ->
     (snd x <? snd y) = (key (snd x) <? key (snd y))%Z) ->
  exists before after,
    b :: l = before ++ max_from b l :: after /\
    (forall x, In x before -> (key (snd x) < key (snd (max_from b l)))%Z) /\
    (forall x, In x after -> (key (snd x) <= key (snd (max_from b l)))%Z).
Proof.
  revert b. induction l as [|x t IH]; intros b H; cbn [max_from].
  - exists [], []. repeat split; intros y [].
  - assert (Hbx : (snd b <? snd x) = (key (snd b) <? key (snd x))%Z)
      by (apply H; [now left | right; now left]).
    destruct (snd b <? snd x) eqn:E; symmetry in Hbx.
    + apply Z.ltb_lt in Hbx.
      destruct (IH x) as [before [after [Hsplit [Hb Ha]]]].
      { intros y z Hy Hz. apply H; now right. }
      exists (b :: before), after. split; [cbn [app]; now rewrite <- Hsplit|].
      split; [|exact Ha].
      intros y [<- | Hy]; [|now apply Hb].
      destruct before as [|z before].
      * cbn [app] in Hsplit. injection Hsplit as Hx _. now rewrite <- Hx.
      * cbn [app] in Hsplit. injection Hsplit as <- _.
        apply Z.lt_trans with (key (snd x)); [exact Hbx|]. apply Hb. now left.
    + apply Z.ltb_ge in Hbx.
      destruct (IH b) as [before [after [Hsplit [Hb Ha]]]].
      { intros y z Hy Hz. apply H.
        - destruct Hy as [<- | Hy]; [now left | right; now right].
        - destruct Hz as [<- | Hz]; [now left | right; now right]. }
      destruct before as [|z before].
      * cbn [app] in Hsplit. injection Hsplit as Hm Ht.
        exists [], (x :: after). split; [cbn [app]; now rewrite <- Hm, Ht|].
        split; [intros y []|].
        intros y [<- | Hy]; [now rewrite <- Hm | now apply Ha].
      * cbn [app] in Hsplit. injection Hsplit as <- Ht.
        exists (b :: x :: before), after.
        split; [cbn [app]; now rewrite <- Ht|]. split; [|exact Ha].
        intros y [<- | [<- | Hy]].
        -- apply Hb. now left.
        -- apply Z.le_lt_trans with (key (snd b)); [exact Hbx|]. apply Hb. now left.
        -- apply Hb. now right.
Qed.

(** The text on which the rounded sums decide: two formality words give
    0.3 + 0.3 = 0.6, three emotional words 0.2 + 0.2 + 0.2 =
    0.6000000000000001. *)
Example analyze_context_rounded_sums :
  exists a,
    analyze_context py_lower (u "прошу, предлагаю; обнимаю, целую, скучаю") None = Ok a /\
    detected_context a = u "family" /\
    List.map snd (pattern_scores64 py_lower (u "прошу, предлагаю; обнимаю, целую, скучаю"))
    = [0.6; 0.6000000000000001; 0; 0; 0].
Proof. eexists. split; [vm_compute; reflexivity|]. split; vm_compute; reflexivity. Qed.

(** X20: without a known context and without an override, the detected
    context is the first context of the pattern table whose score is the
    greatest: the contexts before it score strictly less, those after it at
    most as much, in the comparison of the floats. *)
Theorem analyze_context_first_maximum (lower : str -> str) (text : str) :
  text <> [] ->
  _is_work_related lower text = false ->
  _is_family_related lower text = false ->
  _is_romantic_related lower text = false ->
  exists a before top after,
    analyze_context lower text None = Ok a /\
    pattern_scores64 lower text = before ++ (detected_context a, top) :: after /\
    (forall x, In x before -> (snd x <? top) = true) /\
    (forall x, In x after -> (snd x <=? top) = true).
Proof.
  intros Hne Hw Hf Hr.
  destruct (@analyze_context64_detected lower text Hne) as [a [first [rest [Ha [Hs Hd]]]]].
  rewrite Hw, Hf, Hr in Hd.
  destruct (@max_from64_split first rest) as [before [after [Hsplit [Hb Hafter]]]].
  { intros x y Hx Hy. rewrite <- Hs in Hx, Hy.
    now destruct (@pattern_scores64_ordered lower text x y Hx Hy). }
  assert (Hm : In (max_from first rest) (pattern_scores64 lower text)).
  { rewrite Hs, Hsplit. apply in_elt. }
  exists a, before, (snd (max_from first rest)), after.
  split; [exact Ha|]. split.
  { rewrite Hs, Hsplit, Hd. destruct (max_from first rest); reflexivity. }
  split.
  - intros x Hx.
    assert (Hin : In x (pattern_scores64 lower text))
      by (rewrite Hs, Hsplit; apply in_or_app; now left).
    destruct (@pattern_scores64_ordered lower text x _ Hin Hm) as [Hlt _].
    rewrite Hlt. apply Z.ltb_lt. now apply Hb.
  - intros x Hx.
    assert (Hin : In x (pattern_scores64 lower text))
      by (rewrite Hs, Hsplit; apply in_or_app; right; now right).
    destruct (@pattern_scores64_ordered lower text x _ Hin Hm) as [_ Hle].
    destruct (@pattern_scores64_ordered lower text _ x Hm Hin) as [Hlt _].
    rewrite Hle, Hlt. apply negb_true_iff, Z.ltb_ge. now apply Hafter.
Qed.

Lemma analyze_context_first_maximum_witness :
  exists a before top after,
    analyze_context py_lower (u "прошу, предлагаю; обнимаю, целую, скучаю") None = Ok a /\
    pattern_scores64 py_lower (u "прошу, предлагаю; обнимаю, целую, скучаю")
    = before ++ (detected_context a, top) :: after /\
    (forall x, In x before -> (snd x <? top) = true) /\
    (forall x, In x after -> (snd x <=? top) = true).
Proof.
  apply (@analyze_context_first_maximum py_lower
           (u "прошу, предлагаю; обнимаю, целую, скучаю"));
    vm_compute; try reflexivity; discriminate.
Defined.

End Analyzer64Facts.
